(** * nota: the encrypted persistence engine

    A shallow embedding of the JavaScript sources of the note/calendar
    application (CryptoService, AuthController, StorageService, the Note and
    Event models and the backup import of SettingsController) together with
    the properties of its design document that concern them.

    Conventions.
    - A JavaScript string is the list of its UTF-16 code units, each a [Z];
      a [Uint8Array] is the list of its bytes, each a [Z] in [0, 256).
    - [null] results are [None]; a thrown exception or rejected promise is
      the [Throw] constructor of [Result].
    - Browser interfaces that are deterministic and small (TextEncoder,
      TextDecoder, btoa, atob) are written out after their standards; the
      Web Crypto primitives and JSON are the fields of the record [Platform],
      with the laws the design relies on.
    - Asynchronous code is a state machine whose steps are the stretches of
      code between two suspension points.

    The definitions come first (strings and codecs, the platform, the
    services, controllers and models, a reference platform), then the
    lemmas about the codecs and the cipher, then the properties. *)

From Stdlib Require Import ZArith Lia List String Ascii Bool Permutation Sorted.
From stdpp Require Import gmap strings list sorting.
Import ListNotations.

Local Open Scope Z_scope.
Set Warnings "-register-all".

(** [lia] also decides goals with division and remainder by constants. *)
Ltac Zify.zify_post_hook ::= Z.div_mod_to_equations.

(** ** JavaScript strings *)

(** The code units of an ASCII literal of the source text. *)
Fixpoint lit (s : string) : list Z :=
  match s with
  | EmptyString => []
  | String a s' => Z.of_N (N_of_ascii a) :: lit s'
  end.

Definition is_high_surrogate (u : Z) : bool := (0xD800 <=? u) && (u <=? 0xDBFF).
Definition is_low_surrogate (u : Z) : bool := (0xDC00 <=? u) && (u <=? 0xDFFF).

(** [String.prototype.isWellFormed]: every code unit is a 16-bit value and
    every surrogate is half of a high/low pair. *)
Fixpoint isWellFormed (s : list Z) : bool :=
  match s with
  | [] => true
  | u :: t =>
      if is_high_surrogate u then
        match t with
        | v :: t' => is_low_surrogate v && isWellFormed t'
        | [] => false
        end
      else negb (is_low_surrogate u) && (0 <=? u) && (u <=? 0xFFFF) && isWellFormed t
  end.

(** A JavaScript string: every element is a 16-bit code unit. *)
Definition is_string (s : list Z) : bool :=
  forallb (fun u => (0 <=? u) && (u <=? 0xFFFF)) s.

(** Conversion of a string to scalar values (WebIDL USVString): a surrogate
    pair becomes its code point, a lone surrogate becomes U+FFFD. *)
Fixpoint to_scalar_values (s : list Z) : list Z :=
  match s with
  | [] => []
  | u :: t =>
      if is_high_surrogate u then
        match t with
        | v :: t' =>
            if is_low_surrogate v
            then (0x10000 + (u - 0xD800) * 0x400 + (v - 0xDC00)) :: to_scalar_values t'
            else 0xFFFD :: to_scalar_values t
        | [] => [0xFFFD]
        end
      else if is_low_surrogate u then 0xFFFD :: to_scalar_values t
      else u :: to_scalar_values t
  end.

(** Does the string start with U+FEFF (a byte order mark)? *)
Definition has_bom (s : list Z) : bool :=
  match s with
  | c :: _ => c =? 0xFEFF
  | [] => false
  end.

(** Unicode scalar values: code points that are not surrogates. *)
Definition scalarp (c : Z) : Prop := 0 <= c < 0xD800 \/ 0xE000 <= c < 0x110000.

(** The UTF-16 code units of a code point. *)
Definition utf16_of_scalar (c : Z) : list Z :=
  if c <? 0x10000 then [c]
  else [0xD800 + (c - 0x10000) / 0x400; 0xDC00 + (c - 0x10000) mod 0x400].

(** ** UTF-8: [TextEncoder.encode] and [new TextDecoder().decode] *)

Definition utf8_encode_scalar (c : Z) : list Z :=
  if c <? 0x80 then [c]
  else if c <? 0x800 then [0xC0 + c / 64; 0x80 + c mod 64]
  else if c <? 0x10000 then
    [0xE0 + c / 4096; 0x80 + (c / 64) mod 64; 0x80 + c mod 64]
  else
    [0xF0 + c / 262144; 0x80 + (c / 4096) mod 64; 0x80 + (c / 64) mod 64;
     0x80 + c mod 64].

Definition TextEncoder_encode (s : list Z) : list Z :=
  flat_map utf8_encode_scalar (to_scalar_values s).

(** The state of the UTF-8 decoder of the Encoding Standard. *)
Record utf8_decoder := {
  d_code_point : Z;
  d_bytes_needed : Z;
  d_bytes_seen : Z;
  d_lower : Z;
  d_upper : Z
}.

Definition utf8_start : utf8_decoder :=
  {| d_code_point := 0; d_bytes_needed := 0; d_bytes_seen := 0;
     d_lower := 0x80; d_upper := 0xBF |}.

(** A byte read with no sequence open: ASCII is emitted, a lead byte opens
    a sequence, anything else is an error (U+FFFD). *)
Definition utf8_lead (b : Z) : utf8_decoder * list Z :=
  if (0 <=? b) && (b <=? 0x7F) then (utf8_start, [b])
  else if (0xC2 <=? b) && (b <=? 0xDF) then
    ({| d_code_point := b - 0xC0; d_bytes_needed := 1; d_bytes_seen := 0;
        d_lower := 0x80; d_upper := 0xBF |}, [])
  else if (0xE0 <=? b) && (b <=? 0xEF) then
    ({| d_code_point := b - 0xE0; d_bytes_needed := 2; d_bytes_seen := 0;
        d_lower := if b =? 0xE0 then 0xA0 else 0x80;
        d_upper := if b =? 0xED then 0x9F else 0xBF |}, [])
  else if (0xF0 <=? b) && (b <=? 0xF4) then
    ({| d_code_point := b - 0xF0; d_bytes_needed := 3; d_bytes_seen := 0;
        d_lower := if b =? 0xF0 then 0x90 else 0x80;
        d_upper := if b =? 0xF4 then 0x8F else 0xBF |}, [])
  else (utf8_start, [0xFFFD]).

(** One byte through the decoder.  A byte outside the expected range ends
    the open sequence with an error and is then read again as a lead. *)
Definition utf8_handler (st : utf8_decoder) (b : Z) : utf8_decoder * list Z :=
  if d_bytes_needed st =? 0 then utf8_lead b
  else if (b <? d_lower st) || (d_upper st <? b) then
    let '(st', out) := utf8_lead b in (st', 0xFFFD :: out)
  else
    let cp := d_code_point st * 64 + (b - 0x80) in
    if d_bytes_seen st + 1 =? d_bytes_needed st then (utf8_start, [cp])
    else ({| d_code_point := cp; d_bytes_needed := d_bytes_needed st;
             d_bytes_seen := d_bytes_seen st + 1;
             d_lower := 0x80; d_upper := 0xBF |}, []).

Fixpoint utf8_run (st : utf8_decoder) (bs : list Z) : list Z :=
  match bs with
  | [] => if d_bytes_needed st =? 0 then [] else [0xFFFD]
  | b :: bs' => let '(st', out) := utf8_handler st b in out ++ utf8_run st' bs'
  end.

(** The decoder is created with its defaults ([fatal] and [ignoreBOM] both
    false): errors are replaced, and a leading U+FEFF is dropped. *)
Definition strip_bom (cps : list Z) : list Z :=
  match cps with
  | c :: t => if c =? 0xFEFF then t else cps
  | [] => []
  end.

Definition TextDecoder_decode (bs : list Z) : list Z :=
  flat_map utf16_of_scalar (strip_bom (utf8_run utf8_start bs)).

(** ** Base64: [btoa] and [atob] *)

Definition is_byte (b : Z) : bool := (0 <=? b) && (b <=? 255).

(** Bytes and 6-bit values, as propositions. *)
Definition bytep (b : Z) : Prop := 0 <= b < 256.
Definition sextetp (v : Z) : Prop := 0 <= v < 64.

Definition b64_char (v : Z) : Z :=
  if v <? 26 then 65 + v
  else if v <? 52 then 71 + v
  else if v <? 62 then v - 4
  else if v =? 62 then 43 else 47.

Definition b64_value (c : Z) : option Z :=
  if (65 <=? c) && (c <=? 90) then Some (c - 65)
  else if (97 <=? c) && (c <=? 122) then Some (c - 71)
  else if (48 <=? c) && (c <=? 57) then Some (c + 4)
  else if c =? 43 then Some 62
  else if c =? 47 then Some 63
  else None.

Fixpoint b64_sextets (bs : list Z) : list Z :=
  match bs with
  | [] => []
  | [a] => [a / 4; (a mod 4) * 16]
  | [a; b] => [a / 4; (a mod 4) * 16 + b / 16; (b mod 16) * 4]
  | a :: b :: c :: rest =>
      a / 4 :: (a mod 4) * 16 + b / 16 :: (b mod 16) * 4 + c / 64 :: c mod 64
        :: b64_sextets rest
  end.

Fixpoint b64_padding (bs : list Z) : list Z :=
  match bs with
  | [] => []
  | [_] => [61; 61]
  | [_; _] => [61]
  | _ :: _ :: _ :: rest => b64_padding rest
  end.

Definition b64_encode (bs : list Z) : list Z :=
  List.map b64_char (b64_sextets bs) ++ b64_padding bs.

(** [btoa] throws (here [None]) on a code unit above 255. *)
Definition btoa (s : list Z) : option (list Z) :=
  if forallb is_byte s then Some (b64_encode s) else None.

Definition is_ascii_whitespace (c : Z) : bool :=
  (c =? 9) || (c =? 10) || (c =? 12) || (c =? 13) || (c =? 32).

Definition remove_padding (s : list Z) : list Z :=
  if Z.of_nat (length s) mod 4 =? 0 then
    match rev s with
    | c1 :: c2 :: r =>
        if c1 =? 61 then (if c2 =? 61 then rev r else rev (c2 :: r)) else s
    | [c1] => if c1 =? 61 then [] else s
    | [] => s
    end
  else s.

Fixpoint b64_values (s : list Z) : option (list Z) :=
  match s with
  | [] => Some []
  | c :: t =>
      match b64_value c, b64_values t with
      | Some v, Some vs => Some (v :: vs)
      | _, _ => None
      end
  end.

Fixpoint b64_bytes (vs : list Z) : list Z :=
  match vs with
  | v1 :: v2 :: v3 :: v4 :: rest =>
      v1 * 4 + v2 / 16 :: (v2 mod 16) * 16 + v3 / 4 :: (v3 mod 4) * 64 + v4
        :: b64_bytes rest
  | [v1; v2; v3] => [v1 * 4 + v2 / 16; (v2 mod 16) * 16 + v3 / 4]
  | [v1; v2] => [v1 * 4 + v2 / 16]
  | _ => []
  end.

(** [atob] is the forgiving-base64 decode of the HTML Standard: whitespace
    is removed, one or two trailing [=] are dropped when the length is a
    multiple of four, a length of 1 modulo 4 or a character outside the
    alphabet is a failure ([None]), and leftover bits are discarded. *)
Definition atob (s : list Z) : option (list Z) :=
  let data := remove_padding (List.filter (fun c => negb (is_ascii_whitespace c)) s) in
  if Z.of_nat (length data) mod 4 =? 1 then None
  else
    match b64_values data with
    | Some vs => Some (b64_bytes vs)
    | None => None
    end.

(** ** Validator *)

Module Validator.

(** [\d] of the pattern: an ASCII digit. *)
Definition is_digit (u : Z) : bool := (48 <=? u) && (u <=? 57).

(** [isPin(pin)] for a string: [/^\d{4}$/.test(pin)], four digits and
    nothing else. *)
Definition isPin (pin : list Z) : bool :=
  (length pin =? 4)%nat && forallb is_digit pin.

End Validator.

(** ** Results and the platform *)

(** What a JavaScript exception of the program stands for. *)
Inductive Error :=
  | RangeError              (* String.fromCharCode.apply with too many arguments *)
  | InvalidCharacterError   (* btoa on a code unit above 255 *)
  | SyntaxError             (* JSON.parse *)
  | TypeError               (* property of null/undefined, not iterable *)
  | DecryptionFailed        (* the import's own "failed to decrypt the file" *)
  | NotInitialized          (* "Database not initialized." *)
  | SqlError                (* thrown by the database engine *)
  | WriteError.             (* the durable write was rejected *)

Inductive Result (A : Type) :=
  | Ok (a : A)
  | Throw (e : Error).
Arguments Ok {A} a.
Arguments Throw {A} e.

Definition bind {A B} (r : Result A) (f : A -> Result B) : Result B :=
  match r with
  | Ok a => f a
  | Throw e => Throw e
  end.

Notation "'let*' x ':=' r 'in' k" := (bind r (fun x => k))
  (at level 10, x name, r at level 200, k at level 200).

(** JSON values.  Numbers are restricted to integers, which is all the
    application stores (bytes, timestamps, flags). *)
Inductive json :=
  | JNull
  | JBool (b : bool)
  | JNum (n : Z)
  | JStr (s : list Z)
  | JArr (items : list json)
  | JObj (fields : list (list Z * json)).

(** The browser interfaces the program is written against, with the laws
    the design takes for granted (the runtime and its cryptographic
    primitives are trusted):
    - [pbkdf2 password salt iterations] is [importKey] followed by
      [deriveKey] with PBKDF2/SHA-256 to an AES-GCM 256 key; it is taken to
      be free of collisions on the ten thousand four-digit PINs, for each
      salt;
    - [aes_gcm_encrypt]/[aes_gcm_decrypt] are [crypto.subtle.encrypt] and
      [decrypt] with AES-GCM; the output is the ciphertext followed by the
      16-byte tag; decryption of what was encrypted under the same key and
      nonce returns the plaintext, and under another key the tag check
      fails;
    - [max_arguments] is the largest number of arguments the engine lets
      [Function.prototype.apply] pass (beyond it, [apply] throws a
      RangeError); the limit differs between engines and is never below a
      few thousand, of which the law asks 4096;
    - [JSON_stringify]/[JSON_parse] round-trip arrays of bytes, the text
      [null] parses to [null], and no value prints as the empty string;
    - [new_Uint8Array] is the typed-array constructor applied to a parsed
      JSON value, [js_String] the conversion of a value (or [undefined],
      here [None]) to a string. *)
Record Platform := {
  CryptoKey : Type;
  pbkdf2 : list Z -> list Z -> Z -> CryptoKey;
  aes_gcm_encrypt : CryptoKey -> list Z -> list Z -> list Z;
  aes_gcm_decrypt : CryptoKey -> list Z -> list Z -> option (list Z);
  JSON_stringify : json -> list Z;
  JSON_parse : list Z -> option json;
  new_Uint8Array : json -> Result (list Z);
  js_String : option json -> list Z;
  max_arguments : nat;
  aes_gcm_bytes : forall k iv pt,
    Forall bytep iv -> Forall bytep pt -> Forall bytep (aes_gcm_encrypt k iv pt);
  aes_gcm_correct : forall k iv pt,
    Forall bytep iv -> Forall bytep pt ->
    aes_gcm_decrypt k iv (aes_gcm_encrypt k iv pt) = Some pt;
  aes_gcm_authentic : forall k k' iv pt,
    k <> k' -> aes_gcm_decrypt k' iv (aes_gcm_encrypt k iv pt) = None;
  JSON_bytes : forall bs,
    Forall bytep bs ->
    JSON_parse (JSON_stringify (JArr (List.map JNum bs))) = Some (JArr (List.map JNum bs));
  JSON_null : JSON_parse (lit "null") = Some JNull;
  JSON_stringify_nonempty : forall v, JSON_stringify v <> [];
  new_Uint8Array_bytes : forall bs,
    Forall bytep bs -> new_Uint8Array (JArr (List.map JNum bs)) = Ok bs;
  js_String_string : forall s, js_String (Some (JStr s)) = s;
  aes_gcm_length : forall k iv pt,
    length (aes_gcm_encrypt k iv pt) = (length pt + 16)%nat;
  pbkdf2_pins : forall pin pin' salt iterations,
    Validator.isPin pin = true -> Validator.isPin pin' = true ->
    pbkdf2 pin salt iterations = pbkdf2 pin' salt iterations -> pin = pin';
  max_arguments_min : (4096 <= max_arguments)%nat
}.

(** The source of randomness behind [crypto.getRandomValues]: the values
    the generator will hand out, by position. *)
Definition Entropy := nat -> Z.

Definition getRandomValues (n : nat) (e : Entropy) : list Z :=
  List.map (fun i => e i mod 256) (seq 0 n).

(** The entropy left after [n] values were drawn. *)
Definition advance (n : nat) (e : Entropy) : Entropy := fun i => e (n + i)%nat.

(** ** CryptoService *)

Module CryptoService.
Section WithPlatform.
Context (P : Platform).

Definition deriveKeyFromPIN (pin : list Z) (salt : list Z) : CryptoKey P :=
  pbkdf2 P (TextEncoder_encode pin) salt 200000.

(** [encrypt]: a fresh 12-byte nonce, AES-GCM over the UTF-8 bytes, the
    nonce prepended, the whole as Base64.  [String.fromCharCode.apply(null,
    combined)] passes each byte of [combined] as one argument and turns it
    into one code unit; with more bytes than the engine takes arguments it
    throws a RangeError. *)
Definition encrypt (data : list Z) (key : CryptoKey P) (e : Entropy) : Result (list Z) :=
  let iv := getRandomValues 12 e in
  let encryptedData := aes_gcm_encrypt P key iv (TextEncoder_encode data) in
  let combined := iv ++ encryptedData in
  if (max_arguments P <? length combined)%nat then Throw RangeError
  else
    match btoa combined with
    | Some text => Ok text
    | None => Throw InvalidCharacterError
    end.

(** The strings [encrypt] can take: the nonce, the UTF-8 bytes and the tag
    are within the number of arguments of [apply]. *)
Definition fits (data : list Z) : bool :=
  (length (TextEncoder_encode data) + 28 <=? max_arguments P)%nat.

(** [decrypt]: every exception inside the [try] block becomes [null]. *)
Definition decrypt (encryptedBase64 : list Z) (key : CryptoKey P) : option (list Z) :=
  match atob encryptedBase64 with
  | None => None
  | Some combined =>
      let iv := firstn 12 combined in
      let data := skipn 12 combined in
      match aes_gcm_decrypt P key iv data with
      | Some decryptedData => Some (TextDecoder_decode decryptedData)
      | None => None
      end
  end.

Definition generateSalt (e : Entropy) : list Z := getRandomValues 16 e.

End WithPlatform.
End CryptoService.

(** ** AuthController *)

(** [localStorage]: string keys, string values; [getItem] of an absent key
    is [null]. *)
Abbreviation LocalStorage := (gmap string (list Z)).

(** A value that came back from [getItem], where the program uses it as a
    string. *)
Definition nullable_string (v : option (list Z)) : list Z :=
  match v with
  | Some s => s
  | None => lit "null"
  end.

(** [!v] for a string or [null]. *)
Definition falsy (v : option (list Z)) : bool :=
  match v with
  | None | Some [] => true
  | Some (_ :: _) => false
  end.

Module AuthController.
Section WithPlatform.
Context (P : Platform).

Record state := {
  isLocked : bool;
  isNewUser : bool;
  masterKey : option (CryptoKey P)
}.

(** What the controller does to the outside, in order. *)
Inductive effect :=
  | dispatch_app_unlocked (key : CryptoKey P)
  | dispatch_unlock_failed
  | alert_setup_complete
  | location_reload.

(** The object [authController()] returns. *)
Definition fresh : state :=
  {| isLocked := true; isNewUser := false; masterKey := None |}.

Definition init (ls : LocalStorage) (c : state) : state :=
  let salt := ls !! "user_salt"%string in
  let verificationData := ls !! "verification_data"%string in
  if falsy salt || falsy verificationData
  then {| isLocked := isLocked c; isNewUser := true; masterKey := masterKey c |}
  else {| isLocked := isLocked c; isNewUser := false; masterKey := masterKey c |}.

(** A page load: a new controller, initialised against what is stored. *)
Definition load (ls : LocalStorage) : state := init ls fresh.

Definition handleUnlockAttempt (ls : LocalStorage) (pin : list Z) (c : state)
  : Result (state * list effect) :=
  match JSON_parse P (nullable_string (ls !! "user_salt"%string)) with
  | None => Throw SyntaxError
  | Some parsed =>
      let* salt := new_Uint8Array P parsed in
      let verificationData := ls !! "verification_data"%string in
      let key := CryptoService.deriveKeyFromPIN P pin salt in
      let decrypted := CryptoService.decrypt P (nullable_string verificationData) key in
      if decide (decrypted = Some (lit "verified")) then
        Ok ({| isLocked := false; isNewUser := isNewUser c; masterKey := Some key |},
            [dispatch_app_unlocked key])
      else Ok (c, [dispatch_unlock_failed])
  end.

Definition setupNewPIN (pin : list Z) (e : Entropy) (ls : LocalStorage) (c : state)
  : Result (state * LocalStorage * list effect) :=
  if negb (isNewUser c) then Ok (c, ls, [])
  else
    let salt := CryptoService.generateSalt e in
    let key := CryptoService.deriveKeyFromPIN P pin salt in
    let* verificationData := CryptoService.encrypt P (lit "verified") key (advance 16 e) in
    let ls := <["user_salt"%string := JSON_stringify P (JArr (List.map JNum salt))]> ls in
    let ls := <["verification_data"%string := verificationData]> ls in
    Ok (c, ls, [alert_setup_complete; location_reload]).

(** The credential record [setupNewPIN] leaves in [localStorage]. *)
Definition credentials (e : Entropy) (token : list Z) (ls : LocalStorage)
  : LocalStorage :=
  <["verification_data"%string := token]>
    (<["user_salt"%string :=
        JSON_stringify P (JArr (List.map JNum (CryptoService.generateSalt e)))]> ls).

End WithPlatform.

Arguments isLocked {P} _.
Arguments isNewUser {P} _.
Arguments masterKey {P} _.
Arguments dispatch_unlock_failed {P}.
Arguments alert_setup_complete {P}.
Arguments location_reload {P}.
End AuthController.

(** The three states of the unlock state machine, as controller states. *)
Definition uninitialized (P : Platform) : AuthController.state P :=
  {| AuthController.isLocked := true; AuthController.isNewUser := true;
     AuthController.masterKey := None |}.
Definition awaitingPIN (P : Platform) : AuthController.state P :=
  {| AuthController.isLocked := true; AuthController.isNewUser := false;
     AuthController.masterKey := None |}.
Definition unlocked (P : Platform) (key : CryptoKey P) : AuthController.state P :=
  {| AuthController.isLocked := false; AuthController.isNewUser := false;
     AuthController.masterKey := Some key |}.

(** ** The relational store

    The schema has three tables.  A stored value is NULL, an integer, a
    text or a blob; column type affinity is not modelled (values are stored
    as bound), and numbers are integers. *)

Inductive sqlval :=
  | VNull
  | VInt (n : Z)
  | VText (s : list Z)
  | VBlob (bytes : list Z).

#[global] Instance sqlval_eq_dec : EqDecision sqlval.
Proof. solve_decision. Defined.

Module Notes.
Record row := {
  id : sqlval;
  title_encrypted : sqlval;
  content_encrypted : sqlval;
  created_at : sqlval;
  updated_at : sqlval;
  tags_encrypted : sqlval;
  is_favorite : sqlval
}.
End Notes.

Module Events.
Record row := {
  id : sqlval;
  title_encrypted : sqlval;
  description_encrypted : sqlval;
  start_time : sqlval;
  end_time : sqlval;
  is_all_day : sqlval;
  calendar_type : sqlval;
  rrule_encrypted : sqlval
}.
End Events.

(** An instance of the database.  The notes table is there in every
    instance a statement or a query meets: on a new instance the first
    statement run is the schema script, which starts with its creation.
    The events and the settings tables are there or not ([has_events],
    [has_settings]); the rows of a table that is not there are read by
    nothing. *)
Record Database := {
  notes : list Notes.row;
  events : list Events.row;
  settings : list (sqlval * sqlval);
  has_events : bool;
  has_settings : bool
}.

(** The statements the application sends, by their text in the source. *)
Inductive Sql :=
  | CreateSchema       (* CREATE TABLE IF NOT EXISTS notes (...); CREATE INDEX ...;
                          CREATE TABLE IF NOT EXISTS events (...); CREATE INDEX ...;
                          CREATE TABLE IF NOT EXISTS settings (...); *)
  | InsertNote         (* INSERT INTO notes (id, ..., is_favorite) VALUES (?, ?, ?, ?, ?, ?, ?) *)
  | InsertNoteValues   (* INSERT INTO notes VALUES (?, ?, ?, ?, ?, ?, ?) *)
  | UpdateNote         (* UPDATE notes SET title_encrypted = ?, content_encrypted = ?,
                          updated_at = ?, tags_encrypted = ?, is_favorite = ? WHERE id = ? *)
  | DeleteNote         (* DELETE FROM notes WHERE id = ? *)
  | DeleteAllNotes     (* DELETE FROM notes *)
  | InsertEvent        (* INSERT INTO events (id, ..., rrule_encrypted) VALUES (?, ..., ?) *)
  | InsertEventValues  (* INSERT INTO events VALUES (?, ?, ?, ?, ?, ?, ?, ?) *)
  | UpdateEvent        (* UPDATE events SET title_encrypted = ?, ..., rrule_encrypted = ? WHERE id = ? *)
  | DeleteEvent        (* DELETE FROM events WHERE id = ? *)
  | DeleteAllEvents    (* DELETE FROM events *)
  | ReplaceSetting.    (* REPLACE INTO settings (key, value) VALUES (?, ?) *)

Definition placeholders (sql : Sql) : nat :=
  match sql with
  | CreateSchema | DeleteAllNotes | DeleteAllEvents => 0
  | DeleteNote | DeleteEvent => 1
  | ReplaceSetting => 2
  | UpdateNote => 6
  | InsertNote | InsertNoteValues => 7
  | InsertEvent | InsertEventValues | UpdateEvent => 8
  end.

Section Engine.
Context (P : Platform).

(** How the engine binds a JavaScript value to a placeholder: strings as
    text, numbers and booleans as numbers, [null] as NULL, arrays as blobs;
    any other object is refused. *)
Definition bind_value (v : json) : Result sqlval :=
  match v with
  | JNull => Ok VNull
  | JBool b => Ok (VInt (if b then 1 else 0))
  | JNum n => Ok (VInt n)
  | JStr s => Ok (VText s)
  | JArr _ => let* bytes := new_Uint8Array P v in Ok (VBlob bytes)
  | JObj _ => Throw SqlError
  end.

Fixpoint bind_values (vs : list json) : Result (list sqlval) :=
  match vs with
  | [] => Ok []
  | v :: vs' =>
      let* x := bind_value v in
      let* xs := bind_values vs' in
      Ok (x :: xs)
  end.

(** Binding more values than the statement has placeholders is an error;
    placeholders left unbound are NULL. *)
Definition bind_params (sql : Sql) (params : list json) : Result (list sqlval) :=
  if (placeholders sql <? length params)%nat then Throw SqlError
  else bind_values params.

Definition arg (i : nat) (xs : list sqlval) : sqlval := nth i xs VNull.

(** A primary key collides when it is not NULL and already present. *)
Definition key_taken {A} (key : A -> sqlval) (k : sqlval) (rows : list A) : bool :=
  match k with
  | VNull => false
  | _ => existsb (fun r => bool_decide (key r = k)) rows
  end.

Definition is_null (v : sqlval) : bool :=
  match v with
  | VNull => true
  | _ => false
  end.

Definition matches (k v : sqlval) : bool := negb (is_null k) && bool_decide (v = k).

Definition insert_note (xs : list sqlval) (d : Database) : Result Database :=
  if key_taken Notes.id (arg 0 xs) (notes d) then Throw SqlError
  else
    Ok {| notes := notes d ++
                   [{| Notes.id := arg 0 xs; Notes.title_encrypted := arg 1 xs;
                       Notes.content_encrypted := arg 2 xs; Notes.created_at := arg 3 xs;
                       Notes.updated_at := arg 4 xs; Notes.tags_encrypted := arg 5 xs;
                       Notes.is_favorite := arg 6 xs |}];
          events := events d; settings := settings d;
          has_events := has_events d; has_settings := has_settings d |}.

Definition insert_event (xs : list sqlval) (d : Database) : Result Database :=
  if key_taken Events.id (arg 0 xs) (events d)
     || is_null (arg 1 xs) || is_null (arg 3 xs) || is_null (arg 6 xs)
  then Throw SqlError
  else
    Ok {| notes := notes d;
          events := events d ++
                    [{| Events.id := arg 0 xs; Events.title_encrypted := arg 1 xs;
                        Events.description_encrypted := arg 2 xs;
                        Events.start_time := arg 3 xs; Events.end_time := arg 4 xs;
                        Events.is_all_day := arg 5 xs; Events.calendar_type := arg 6 xs;
                        Events.rrule_encrypted := arg 7 xs |}];
          settings := settings d;
          has_events := has_events d; has_settings := has_settings d |}.

Definition update_note (xs : list sqlval) (r : Notes.row) : Notes.row :=
  if matches (arg 5 xs) (Notes.id r) then
    {| Notes.id := Notes.id r; Notes.title_encrypted := arg 0 xs;
       Notes.content_encrypted := arg 1 xs; Notes.created_at := Notes.created_at r;
       Notes.updated_at := arg 2 xs; Notes.tags_encrypted := arg 3 xs;
       Notes.is_favorite := arg 4 xs |}
  else r.

Definition update_event (xs : list sqlval) (r : Events.row) : Events.row :=
  if matches (arg 7 xs) (Events.id r) then
    {| Events.id := Events.id r; Events.title_encrypted := arg 0 xs;
       Events.description_encrypted := arg 1 xs; Events.start_time := arg 2 xs;
       Events.end_time := arg 3 xs; Events.is_all_day := arg 4 xs;
       Events.calendar_type := arg 5 xs; Events.rrule_encrypted := arg 6 xs |}
  else r.

(** The table a statement works on is there.  (The schema script is run
    through [db.run(sql, params)] with [params = []]: with parameters given,
    the engine prepares and runs the first statement of the text only, here
    CREATE TABLE IF NOT EXISTS notes.) *)
Definition table_exists (sql : Sql) (d : Database) : bool :=
  match sql with
  | CreateSchema | InsertNote | InsertNoteValues | UpdateNote | DeleteNote
  | DeleteAllNotes => true
  | InsertEvent | InsertEventValues | UpdateEvent | DeleteEvent | DeleteAllEvents =>
      has_events d
  | ReplaceSetting => has_settings d
  end.

(** [db.run(sql, params)]: the statement against the in-memory instance.
    Preparing a statement on a table that is not there fails ("no such
    table"), before anything is bound.  A failing statement leaves the
    instance as it was.  No statement of the application creates the
    events or the settings table. *)
Definition db_run (sql : Sql) (params : list json) (d : Database) : Result Database :=
  if negb (table_exists sql d) then Throw SqlError
  else
  let* xs := bind_params sql params in
  match sql with
  | CreateSchema => Ok d
  | InsertNote | InsertNoteValues => insert_note xs d
  | UpdateNote =>
      Ok {| notes := List.map (update_note xs) (notes d);
            events := events d; settings := settings d;
            has_events := has_events d; has_settings := has_settings d |}
  | DeleteNote =>
      Ok {| notes := List.filter (fun r => negb (matches (arg 0 xs) (Notes.id r))) (notes d);
            events := events d; settings := settings d;
            has_events := has_events d; has_settings := has_settings d |}
  | DeleteAllNotes =>
      Ok {| notes := []; events := events d; settings := settings d;
            has_events := has_events d; has_settings := has_settings d |}
  | InsertEvent | InsertEventValues => insert_event xs d
  | UpdateEvent =>
      if existsb (fun r => matches (arg 7 xs) (Events.id r)) (events d)
         && (is_null (arg 0 xs) || is_null (arg 2 xs) || is_null (arg 5 xs))
      then Throw SqlError
      else
        Ok {| notes := notes d; events := List.map (update_event xs) (events d);
              settings := settings d;
              has_events := has_events d; has_settings := has_settings d |}
  | DeleteEvent =>
      Ok {| notes := notes d;
            events := List.filter (fun r => negb (matches (arg 0 xs) (Events.id r))) (events d);
            settings := settings d;
            has_events := has_events d; has_settings := has_settings d |}
  | DeleteAllEvents =>
      Ok {| notes := notes d; events := []; settings := settings d;
            has_events := has_events d; has_settings := has_settings d |}
  | ReplaceSetting =>
      if is_null (arg 1 xs) then Throw SqlError
      else
        Ok {| notes := notes d; events := events d;
              settings :=
                List.filter (fun kv => negb (matches (arg 0 xs) (fst kv))) (settings d)
                  ++ [(arg 0 xs, arg 1 xs)];
              has_events := has_events d; has_settings := has_settings d |}
  end.

(** The rows a query reads from a table, or the error of a table that is
    not there. *)
Definition table_rows {A} (present : bool) (rows : list A) : Result (list A) :=
  if present then Ok rows else Throw SqlError.

End Engine.

(** The database a first run creates: the notes table, empty, and no
    other. *)
Definition empty_database : Database :=
  {| notes := []; events := []; settings := [];
     has_events := false; has_settings := false |}.

(** A stored value as the JavaScript value a query hands back. *)
Definition js_of_sqlval (v : sqlval) : json :=
  match v with
  | VNull => JNull
  | VInt n => JNum n
  | VText s => JStr s
  | VBlob bytes => JArr (List.map JNum bytes)
  end.

(** Truthiness of a stored value. *)
Definition truthy (v : sqlval) : bool :=
  match v with
  | VNull | VInt 0 | VText [] => false
  | _ => true
  end.

(** ** StorageService

    The service object, the durable copy it keeps in IndexedDB, and the
    asynchronous saves in flight.  Control is a single thread with
    cooperative suspension, so the service is a state machine on three
    kinds of event: a caller invokes [execute], or the IndexedDB
    transaction of the oldest running save completes or fails.  Everything
    the code does between two suspension points happens within one step.

    The fields [applied] and [settled] are bookkeeping of the model: which
    [execute] calls have mutated the instance, and which have returned to
    their caller and how. *)

Module StorageService.

(** What [db.export()] captures: the instance, and (bookkeeping) the calls
    whose mutation it contains. *)
Record Snapshot := {
  snap_db : Database;
  snap_calls : list nat
}.

(** A call of [saveDbToIndexedDB] whose promise is pending: the exported
    data, and the [execute] call at the bottom of the chain of
    [scheduleSave] frames awaiting it. *)
Record Save := {
  data : Snapshot;
  awaiting : nat
}.

(** How an [execute] call came back: resolved, either straight away
    because a save was already running ([waited = false]) or after the
    saves it awaited, or rejected. *)
Inductive Outcome :=
  | Resolved (waited : bool)
  | Rejected (e : Error).

Record state := {
  db : Database;
  applied : list nat;
  isInitialized : bool;
  isSaving : bool;
  saveQueue : bool;
  running : list Save;
  db_file : option Snapshot;
  settled : list (nat * Outcome)
}.

Inductive event :=
  | Execute (call : nat) (sql : Sql) (params : list json)
  | TransactionComplete
  | TransactionError.

Definition export (s : state) : Snapshot :=
  {| snap_db := db s; snap_calls := applied s |}.

Definition settle (call : nat) (o : Outcome) (s : state) : state :=
  {| db := db s; applied := applied s; isInitialized := isInitialized s;
     isSaving := isSaving s; saveQueue := saveQueue s; running := running s;
     db_file := db_file s; settled := (call, o) :: settled s |}.

Definition set_flags (saving queued : bool) (s : state) : state :=
  {| db := db s; applied := applied s; isInitialized := isInitialized s;
     isSaving := saving; saveQueue := queued; running := running s;
     db_file := db_file s; settled := settled s |}.

Definition set_running (saves : list Save) (s : state) : state :=
  {| db := db s; applied := applied s; isInitialized := isInitialized s;
     isSaving := isSaving s; saveQueue := saveQueue s; running := saves;
     db_file := db_file s; settled := settled s |}.

Definition set_db_file (f : Snapshot) (s : state) : state :=
  {| db := db s; applied := applied s; isInitialized := isInitialized s;
     isSaving := isSaving s; saveQueue := saveQueue s; running := running s;
     db_file := Some f; settled := settled s |}.

Definition mutate (call : nat) (d : Database) (s : state) : state :=
  {| db := d; applied := call :: applied s; isInitialized := isInitialized s;
     isSaving := isSaving s; saveQueue := saveQueue s; running := running s;
     db_file := db_file s; settled := settled s |}.

(** [saveDbToIndexedDB], up to its suspension: the instance is exported
    and the write is handed to IndexedDB; the promise stays pending until
    the transaction completes or fails. *)
Definition saveDbToIndexedDB (call : nat) (s : state) : state :=
  set_running (running s ++ [{| data := export s; awaiting := call |}]) s.

(** [scheduleSave], up to its first suspension: with a save running the
    request is only noted and the call returns; otherwise the flag is
    raised and a save is started on the instance as it is now. *)
Definition scheduleSave (call : nat) (waited : bool) (s : state) : state :=
  if isSaving s then settle call (Resolved waited) (set_flags true true s)
  else saveDbToIndexedDB call (set_flags true (saveQueue s) s).

(** [scheduleSave] after its [await]: the flag is lowered, and a noted
    request is cleared and served by calling [scheduleSave] again. *)
Definition resume (call : nat) (s : state) : state :=
  let s := set_flags false (saveQueue s) s in
  if saveQueue s then scheduleSave call true (set_flags false false s)
  else settle call (Resolved true) s.

(** The values of parameters that are all defined ([None] is [undefined]). *)
Fixpoint defined (params : list (option json)) : option (list json) :=
  match params with
  | [] => Some []
  | None :: _ => None
  | Some v :: rest =>
      match defined rest with
      | Some vs => Some (v :: vs)
      | None => None
      end
  end.

Definition set_initialized (b : bool) (s : state) : state :=
  {| db := db s; applied := applied s; isInitialized := b;
     isSaving := isSaving s; saveQueue := saveQueue s; running := running s;
     db_file := db_file s; settled := settled s |}.

(** [this.db = new SQL.Database(dbFile)]: the instance is the one the file
    holds. *)
Definition set_db (dbFile : Snapshot) (s : state) : state :=
  {| db := snap_db dbFile; applied := snap_calls dbFile; isInitialized := isInitialized s;
     isSaving := isSaving s; saveQueue := saveQueue s; running := running s;
     db_file := db_file s; settled := settled s |}.

(** [new SQL.Database()]: the instance a first run starts from. *)
Definition new_database : Snapshot :=
  {| snap_db := empty_database; snap_calls := [] |}.

(** How a call has settled, if it has. *)
Definition outcome_of (call : nat) (s : state) : option Outcome :=
  option_map snd (List.find (fun p => Nat.eqb (fst p) call) (settled s)).

(** The service object as the script creates it: no instance ([db] is
    [null], here the empty instance, which nothing reads while
    [isInitialized] is false) and nothing under way; [file] is what the
    durable store holds. *)
Definition created (file : option Snapshot) : state :=
  {| db := empty_database; applied := [];
     isInitialized := false; isSaving := false; saveQueue := false; running := [];
     db_file := file; settled := [] |}.

Section WithPlatform.
Context (P : Platform).

Definition execute (call : nat) (sql : Sql) (params : list json) (s : state) : state :=
  if negb (isInitialized s) then settle call (Rejected NotInitialized) s
  else
    match db_run P sql params (db s) with
    | Throw e => settle call (Rejected e) s
    | Ok d => scheduleSave call false (mutate call d s)
    end.

Definition step (s : state) (ev : event) : state :=
  match ev with
  | Execute call sql params => execute call sql params s
  | TransactionComplete =>
      match running s with
      | [] => s
      | save :: rest => resume (awaiting save) (set_db_file (data save) (set_running rest s))
      end
  | TransactionError =>
      match running s with
      | [] => s
      | save :: rest => settle (awaiting save) (Rejected WriteError) (set_running rest s)
      end
  end.

Definition run (s : state) (trace : list event) : state := fold_left step trace s.

(** The number of durable writes a step starts: by how much the list of
    running saves grows, the save an IndexedDB event ends being counted
    out. *)
Definition writes_started (s : state) (ev : event) : nat :=
  let ended :=
    match ev, running s with
    | Execute _ _ _, _ | _, [] => 0%nat
    | _, _ :: _ => 1%nat
    end in
  (length (running (step s ev)) + ended - length (running s))%nat.

(** The durable writes started in the course of a trace. *)
Fixpoint writes_during (s : state) (trace : list event) : nat :=
  match trace with
  | [] => 0%nat
  | ev :: rest => (writes_started s ev + writes_during (step s ev) rest)%nat
  end.

(** The instance after the statements of a trace alone, run one after
    the other; a statement that fails is skipped. *)
Definition replay (d : Database) (trace : list event) : Database :=
  fold_left
    (fun d ev =>
       match ev with
       | Execute _ sql params =>
           match db_run P sql params d with
           | Ok d' => d'
           | Throw _ => d
           end
       | _ => d
       end)
    trace d.

(** [execute] called with parameters of which some are [undefined]: the
    engine refuses to bind [undefined], so [db.run] throws before the
    statement has any effect. *)
Definition execute_values (call : nat) (sql : Sql) (params : list (option json))
    (s : state) : state :=
  match defined params with
  | Some values => execute call sql values s
  | None =>
      if negb (isInitialized s) then settle call (Rejected NotInitialized) s
      else settle call (Rejected SqlError) s
  end.

(** The exception [execute] throws before it reaches [scheduleSave], if it
    throws one: the caller of a refused call has it at once. *)
Definition refusal (sql : Sql) (params : list (option json)) (s : state) : option Error :=
  if negb (isInitialized s) then Some NotInitialized
  else
    match defined params with
    | None => Some SqlError
    | Some values =>
        match db_run P sql values (db s) with
        | Throw e => Some e
        | Ok _ => None
        end
    end.

(** [loadDbFromIndexedDB]: the stored file, [null] when there is none, or
    a rejection (here [None]) when IndexedDB cannot be read. *)
Definition loadDbFromIndexedDB (readable : bool) (s : state) : option (option Snapshot) :=
  if readable then Some (db_file s) else None.

(** [createSchema] up to the suspension of its [execute]. *)
Definition createSchema (call : nat) (s : state) : state :=
  execute call CreateSchema [] s.

(** [init] with no other caller active.  The environment decides whether
    the engine can be fetched ([engine]), whether IndexedDB can be read
    ([readable]) and, on a first run, whether the durable write of the new
    schema succeeds ([writable]); [call] names the [execute] call of
    [createSchema].  Any exception inside the [try] block ends in the
    [catch] block, which lowers [isInitialized]. *)
Definition init (call : nat) (engine readable writable : bool) (s : state) : state :=
  if isInitialized s then s
  else if negb engine then set_initialized false s
  else
    match loadDbFromIndexedDB readable s with
    | None => set_initialized false s
    | Some (Some dbFile) => set_initialized true (set_db dbFile s)
    | Some None =>
        let s := createSchema call (set_initialized true (set_db new_database s)) in
        let s :=
          match running s with
          | [] => s
          | _ :: _ => step s (if writable then TransactionComplete else TransactionError)
          end in
        match outcome_of call s with
        | Some (Rejected _) => set_initialized false s
        | _ => s
        end
    end.

End WithPlatform.

(** The service once [init] has finished: the instance is the one in the
    durable store, nothing is being saved. *)
Definition opened (d : Database) : state :=
  {| db := d; applied := []; isInitialized := true; isSaving := false;
     saveQueue := false; running := [];
     db_file := Some {| snap_db := d; snap_calls := [] |}; settled := [] |}.

(** The [execute] calls of a trace. *)
Definition executes (trace : list event) : nat :=
  length (List.filter (fun ev => match ev with Execute _ _ _ => true | _ => false end) trace).

(** A trace in which no durable write fails. *)
Definition error_free (trace : list event) : bool :=
  forallb (fun ev => match ev with TransactionError => false | _ => true end) trace.

(** [query]: the rows of a read, or the exception of an uninitialised
    service or of the engine ([db.exec] on a table that is not there). *)
Definition query {A} (s : state) (select : Database -> Result (list A)) : Result (list A) :=
  if negb (isInitialized s) then Throw NotInitialized else select (db s).

End StorageService.

(** The argument of [atob] for a stored value. *)
Definition js_text (P : Platform) (v : sqlval) : list Z := js_String P (Some (js_of_sqlval v)).

(** Truthiness of a JavaScript value; [None] is [undefined]. *)
Definition js_truthy (v : option json) : bool :=
  match v with
  | None | Some JNull | Some (JBool false) | Some (JNum 0) | Some (JStr []) => false
  | Some _ => true
  end.

(** [v || ''] *)
Definition or_empty (v : option json) : option json :=
  if js_truthy v then v else Some (JStr []).

(** The string [encoder.encode(data)] works on when [data] may not be a
    string: [undefined] leaves the argument at its default, the empty
    string; any other value is converted to a string. *)
Definition encode_argument (P : Platform) (data : option json) : list Z :=
  match data with
  | None => []
  | Some _ => js_String P data
  end.

(** [JSON.stringify(v)]: [undefined] for [undefined], else the JSON text. *)
Definition stringify_argument (P : Platform) (v : option json) : option json :=
  match v with
  | None => None
  | Some x => Some (JStr (JSON_stringify P x))
  end.

(** [flag ? 1 : 0] *)
Definition flag_number (flag : option json) : json :=
  JNum (if js_truthy flag then 1 else 0).

(** ** The Settings model *)

Module Settings.
Section WithPlatform.
Context (P : Platform).

(** SELECT value FROM settings WHERE key = ? *)
Definition select_value (k : sqlval) (d : Database) : Result (list sqlval) :=
  table_rows (has_settings d)
    (List.map snd (List.filter (fun kv => matches k (fst kv)) (settings d))).

Definition get (s : StorageService.state) (key : list Z) (defaultValue : json)
  : Result json :=
  let* rows := StorageService.query s (select_value (VText key)) in
  match rows with
  | [] => Ok defaultValue
  | value :: _ =>
      match JSON_parse P (js_text P value) with
      | Some v => Ok v
      | None => Throw SyntaxError
      end
  end.

(** [set], up to the suspension of its [execute]. *)
Definition set (call : nat) (key : list Z) (value : option json)
    (s : StorageService.state) : StorageService.state :=
  let jsonValue := stringify_argument P value in
  StorageService.execute_values P call ReplaceSetting [Some (JStr key); jsonValue] s.

End WithPlatform.
End Settings.

(** ** The Note and Event models *)

(** The data of a note as the callers pass it; an absent property is
    [None]. *)
Module NoteData.
Record t := {
  title : option json;
  content : option json;
  tags : option json;
  is_favorite : option json
}.

(** The object [Note.create] returns. *)
Record created := {
  id : list Z;
  data : t;
  createdAt : Z;
  updatedAt : Z
}.
End NoteData.

Module Note.

(** The object [decryptRow] assembles. *)
Record t := {
  id : sqlval;
  title : option (list Z);
  content : option (list Z);
  tags : json;
  createdAt : sqlval;
  updatedAt : sqlval;
  isFavorite : bool
}.

Section WithPlatform.
Context (P : Platform).

(** The three fields are decrypted side by side; the promise of the tags
    goes on through [JSON.parse], which throws on text that is not JSON and
    reads [null] as the text [null]. *)
Definition decryptRow (row : Notes.row) (masterKey : CryptoKey P) : Result t :=
  let title := CryptoService.decrypt P (js_text P (Notes.title_encrypted row)) masterKey in
  let content := CryptoService.decrypt P (js_text P (Notes.content_encrypted row)) masterKey in
  match JSON_parse P (nullable_string
          (CryptoService.decrypt P (js_text P (Notes.tags_encrypted row)) masterKey)) with
  | None => Throw SyntaxError
  | Some tags =>
      Ok {| id := Notes.id row; title := title; content := content; tags := tags;
            createdAt := Notes.created_at row; updatedAt := Notes.updated_at row;
            isFavorite := bool_decide (Notes.is_favorite row = VInt 1) |}
  end.

(** [Promise.all] over the rows: the first rejection rejects the whole. *)
Fixpoint decryptRows (rows : list Notes.row) (masterKey : CryptoKey P) : Result (list t) :=
  match rows with
  | [] => Ok []
  | row :: rows' =>
      let* note := decryptRow row masterKey in
      let* notes := decryptRows rows' masterKey in
      Ok (note :: notes)
  end.

(** The order of ORDER BY on stored values: NULL first, then numbers by
    value, then texts, then blobs, a text by the bytes of its UTF-8
    encoding and a blob by its bytes. *)
Definition storage_class (v : sqlval) : Z :=
  match v with
  | VNull => 0
  | VInt _ => 1
  | VText _ => 2
  | VBlob _ => 3
  end.

Fixpoint bytes_le (a b : list Z) : bool :=
  match a, b with
  | [], _ => true
  | _ :: _, [] => false
  | x :: a', y :: b' => (x <? y) || ((x =? y) && bytes_le a' b')
  end.

Definition sql_le (v w : sqlval) : bool :=
  match v, w with
  | VInt n, VInt m => n <=? m
  | VText s, VText t => bytes_le (TextEncoder_encode s) (TextEncoder_encode t)
  | VBlob a, VBlob b => bytes_le a b
  | _, _ => storage_class v <=? storage_class w
  end.

(** ORDER BY updated_at DESC *)
Definition later (r1 r2 : Notes.row) : Prop :=
  sql_le (Notes.updated_at r2) (Notes.updated_at r1) = true.

#[global] Instance later_dec : RelDecision later.
Proof. intros r1 r2. unfold later. apply _. Defined.

(** SELECT * FROM notes WHERE id = ? *)
Definition select_by_id (k : sqlval) (d : Database) : list Notes.row :=
  List.filter (fun r => matches k (Notes.id r)) (notes d).

Definition findById (s : StorageService.state) (k : sqlval) (masterKey : CryptoKey P)
  : Result (option t) :=
  let* rows := StorageService.query s (fun d => Ok (select_by_id k d)) in
  match rows with
  | [] => Ok None
  | row :: _ => let* note := decryptRow row masterKey in Ok (Some note)
  end.

(** SELECT * FROM notes ORDER BY updated_at DESC *)
Definition select_all (d : Database) : list Notes.row := merge_sort later (notes d).

Definition findAll (s : StorageService.state) (masterKey : CryptoKey P)
  : Result (list t) :=
  let* rows := StorageService.query s (fun d => Ok (select_all d)) in
  decryptRows rows masterKey.

(** [create], up to the suspension inside its [execute]: [id] is the value
    of [crypto.randomUUID()], [now] that of [Date.now()], and the three
    encryptions draw their nonces one after the other.  The call throws
    when an encryption throws or [execute] refuses the statement; otherwise
    the result is the object the call returns when the await of [execute]
    (call [call]) resolves.  With it comes the service as the call leaves
    it. *)
Definition create (noteData : NoteData.t) (masterKey : CryptoKey P) (id : list Z)
    (now : Z) (e : Entropy) (call : nat) (s : StorageService.state)
  : Result NoteData.created * StorageService.state :=
  let title := NoteData.title noteData in
  let content := NoteData.content noteData in
  let tags := default (JArr []) (NoteData.tags noteData) in
  let is_favorite := default (JBool false) (NoteData.is_favorite noteData) in
  match
    (let* encryptedTitle :=
       CryptoService.encrypt P (encode_argument P (or_empty title)) masterKey e in
     let* encryptedContent :=
       CryptoService.encrypt P (encode_argument P (or_empty content)) masterKey
         (advance 12 e) in
     let* encryptedTags :=
       CryptoService.encrypt P (JSON_stringify P tags) masterKey (advance 24 e) in
     Ok [Some (JStr id); Some (JStr encryptedTitle); Some (JStr encryptedContent);
         Some (JNum now); Some (JNum now); Some (JStr encryptedTags);
         Some (flag_number (Some is_favorite))])
  with
  | Throw err => (Throw err, s)
  | Ok params =>
      (match StorageService.refusal P InsertNote params s with
       | Some err => Throw err
       | None =>
           Ok {| NoteData.id := id;
                 NoteData.data :=
                   {| NoteData.title := title; NoteData.content := content;
                      NoteData.tags := Some tags;
                      NoteData.is_favorite := Some is_favorite |};
                 NoteData.createdAt := now; NoteData.updatedAt := now |}
       end,
       StorageService.execute_values P call InsertNote params s)
  end.

(** [update], up to the suspension inside its [execute]: the exception of
    an encryption or of a refused statement, or nothing yet, and the
    service as the call leaves it. *)
Definition update (id : list Z) (updatedData : NoteData.t) (masterKey : CryptoKey P)
    (now : Z) (e : Entropy) (call : nat) (s : StorageService.state)
  : Result unit * StorageService.state :=
  match
    (let* encryptedTitle :=
       CryptoService.encrypt P (encode_argument P (NoteData.title updatedData))
         masterKey e in
     let* encryptedContent :=
       CryptoService.encrypt P (encode_argument P (NoteData.content updatedData))
         masterKey (advance 12 e) in
     let* encryptedTags :=
       CryptoService.encrypt P
         (encode_argument P (stringify_argument P (NoteData.tags updatedData))) masterKey
         (advance 24 e) in
     Ok [Some (JStr encryptedTitle); Some (JStr encryptedContent); Some (JNum now);
         Some (JStr encryptedTags); Some (flag_number (NoteData.is_favorite updatedData));
         Some (JStr id)])
  with
  | Throw err => (Throw err, s)
  | Ok params =>
      (match StorageService.refusal P UpdateNote params s with
       | Some err => Throw err
       | None => Ok tt
       end,
       StorageService.execute_values P call UpdateNote params s)
  end.

(** [delete], up to the suspension of its [execute]. *)
Definition delete (id : list Z) (call : nat) (s : StorageService.state)
  : StorageService.state :=
  StorageService.execute P call DeleteNote [JStr id] s.

End WithPlatform.
End Note.

(** The data of an event as the callers pass it; an absent property is
    [None]. *)
Module EventData.
Record t := {
  id : option json;
  title : option json;
  description : option json;
  startTime : option json;
  endTime : option json;
  isAllDay : option json;
  calendarType : option json;
  rrule : option json
}.
End EventData.

Module Event.

Record t := {
  id : sqlval;
  title : option (list Z);
  description : option (list Z);
  startTime : sqlval;
  endTime : sqlval;
  isAllDay : bool;
  calendarType : sqlval;
  rrule : option (list Z)
}.

(** The order of ORDER BY start_time ASC on the rows a range query keeps. *)
Definition time_of (v : sqlval) : Z :=
  match v with
  | VInt n => n
  | _ => 0
  end.

Definition earlier (r1 r2 : Events.row) : Prop :=
  time_of (Events.start_time r1) <= time_of (Events.start_time r2).

#[global] Instance earlier_dec : RelDecision earlier.
Proof. intros r1 r2. unfold earlier. apply _. Defined.

(** start_time >= ? AND start_time <= ? against integer bounds: NULL
    compares to nothing, and text or a blob sorts after every number. *)
Definition in_range (startDate endDate : Z) (r : Events.row) : bool :=
  match Events.start_time r with
  | VInt n => (startDate <=? n) && (n <=? endDate)
  | _ => false
  end.

(** SELECT * FROM events WHERE start_time >= ? AND start_time <= ?
    ORDER BY start_time ASC *)
Definition select_range (startDate endDate : Z) (d : Database) : list Events.row :=
  merge_sort earlier (List.filter (in_range startDate endDate) (events d)).

Section WithPlatform.
Context (P : Platform).

Definition decryptRow (row : Events.row) (masterKey : CryptoKey P) : t :=
  let title := CryptoService.decrypt P (js_text P (Events.title_encrypted row)) masterKey in
  let description :=
    CryptoService.decrypt P (js_text P (Events.description_encrypted row)) masterKey in
  let rrule :=
    if truthy (Events.rrule_encrypted row)
    then CryptoService.decrypt P (js_text P (Events.rrule_encrypted row)) masterKey
    else None in
  {| id := Events.id row; title := title; description := description;
     startTime := Events.start_time row; endTime := Events.end_time row;
     isAllDay := bool_decide (Events.is_all_day row = VInt 1);
     calendarType := Events.calendar_type row; rrule := rrule |}.

Definition findByDateRange (s : StorageService.state) (startDate endDate : Z)
    (masterKey : CryptoKey P) : Result (list t) :=
  let* rows :=
    StorageService.query s
      (fun d => table_rows (has_events d) (select_range startDate endDate d)) in
  Ok (List.map (fun row => decryptRow row masterKey) rows).

(** [rrule ? await CryptoService.encrypt(rrule, masterKey) : null] *)
Definition encrypt_rrule (rrule : option json) (masterKey : CryptoKey P) (e : Entropy)
  : Result json :=
  if js_truthy rrule then
    let* encryptedRrule := CryptoService.encrypt P (encode_argument P rrule) masterKey e in
    Ok (JStr encryptedRrule)
  else Ok JNull.

(** [create], up to the suspension inside its [execute]; [id] is the value
    of [crypto.randomUUID()].  The call throws when an encryption throws or
    [execute] refuses the statement; otherwise the result is the object
    [{ id, ...eventData }] the call returns when the await of [execute]
    resolves, in which an [id] of the data's own replaces the new one.
    With it comes the service as the call leaves it. *)
Definition create (eventData : EventData.t) (masterKey : CryptoKey P) (id : list Z)
    (e : Entropy) (call : nat) (s : StorageService.state)
  : Result EventData.t * StorageService.state :=
  let description := default (JStr []) (EventData.description eventData) in
  let isAllDay := default (JBool false) (EventData.isAllDay eventData) in
  let rrule := default JNull (EventData.rrule eventData) in
  match
    (let* encryptedTitle :=
       CryptoService.encrypt P (encode_argument P (EventData.title eventData)) masterKey e in
     let* encryptedDescription :=
       CryptoService.encrypt P (encode_argument P (Some description)) masterKey
         (advance 12 e) in
     let* encryptedRrule := encrypt_rrule (Some rrule) masterKey (advance 24 e) in
     Ok [Some (JStr id); Some (JStr encryptedTitle); Some (JStr encryptedDescription);
         EventData.startTime eventData; EventData.endTime eventData;
         Some (flag_number (Some isAllDay)); EventData.calendarType eventData;
         Some encryptedRrule])
  with
  | Throw err => (Throw err, s)
  | Ok params =>
      (match StorageService.refusal P InsertEvent params s with
       | Some err => Throw err
       | None =>
           Ok {| EventData.id :=
                   match EventData.id eventData with
                   | Some own => Some own
                   | None => Some (JStr id)
                   end;
                 EventData.title := EventData.title eventData;
                 EventData.description := EventData.description eventData;
                 EventData.startTime := EventData.startTime eventData;
                 EventData.endTime := EventData.endTime eventData;
                 EventData.isAllDay := EventData.isAllDay eventData;
                 EventData.calendarType := EventData.calendarType eventData;
                 EventData.rrule := EventData.rrule eventData |}
       end,
       StorageService.execute_values P call InsertEvent params s)
  end.

(** [update], up to the suspension inside its [execute]: the exception of
    an encryption or of a refused statement, or nothing yet, and the
    service as the call leaves it. *)
Definition update (id : list Z) (updatedData : EventData.t) (masterKey : CryptoKey P)
    (e : Entropy) (call : nat) (s : StorageService.state)
  : Result unit * StorageService.state :=
  match
    (let* encryptedTitle :=
       CryptoService.encrypt P (encode_argument P (EventData.title updatedData))
         masterKey e in
     let* encryptedDescription :=
       CryptoService.encrypt P (encode_argument P (EventData.description updatedData))
         masterKey (advance 12 e) in
     let* encryptedRrule :=
       encrypt_rrule (EventData.rrule updatedData) masterKey (advance 24 e) in
     Ok [Some (JStr encryptedTitle); Some (JStr encryptedDescription);
         EventData.startTime updatedData; EventData.endTime updatedData;
         Some (flag_number (EventData.isAllDay updatedData));
         EventData.calendarType updatedData; Some encryptedRrule; Some (JStr id)])
  with
  | Throw err => (Throw err, s)
  | Ok params =>
      (match StorageService.refusal P UpdateEvent params s with
       | Some err => Throw err
       | None => Ok tt
       end,
       StorageService.execute_values P call UpdateEvent params s)
  end.

(** [delete], up to the suspension of its [execute]. *)
Definition delete (id : list Z) (call : nat) (s : StorageService.state)
  : StorageService.state :=
  StorageService.execute P call DeleteEvent [JStr id] s.

End WithPlatform.
End Event.

(** ** DateFormatter *)

Module DateFormatter.

(** The number of code units up to and including the first [>]. *)
Fixpoint closing (s : list Z) : option nat :=
  match s with
  | [] => None
  | c :: t => if c =? 62 then Some 1%nat else option_map S (closing t)
  end.

(** The length of the match of [[^>]+>] at the head of [s], if it matches:
    one or more code units other than [>], then [>]. *)
Definition tag_length (s : list Z) : option nat :=
  match s with
  | [] => None
  | c :: _ => if c =? 62 then None else closing s
  end.

(** [text.replace(/<[^>]+>/g, '')]: the matches are found from left to
    right and dropped; [skip] counts the code units of the current match
    that are still to be dropped. *)
Fixpoint strip (skip : nat) (s : list Z) : list Z :=
  match s with
  | [] => []
  | c :: t =>
      match skip with
      | S k => strip k t
      | O =>
          if c =? 60 then
            match tag_length t with
            | Some n => strip n t
            | None => c :: strip 0 t
            end
          else c :: strip 0 t
      end
  end.

(** [truncate(text, length)] for a string or [null] and an integer
    length; [substring] reads a negative end as 0. *)
Definition truncate (text : option (list Z)) (length : Z) : list Z :=
  if falsy text then []
  else
    let cleanText := strip 0 (nullable_string text) in
    if Z.of_nat (List.length cleanText) <=? length then cleanText
    else firstn (Z.to_nat length) cleanText ++ lit "...".

End DateFormatter.

(** ** SettingsController: backup import *)

Module SettingsController.

(** What the import reads and writes: the service's instance with its
    readiness flag, and [localStorage].  [journal] lists the statements
    [execute] has run, oldest first (bookkeeping of the model). *)
Record world := {
  database : Database;
  ready : bool;
  storage : LocalStorage;
  journal : list Sql
}.

(** How a call of [importData] ends. *)
Inductive outcome :=
  | AskedForFileAndPin      (* the alert asking for a file and a 4-digit PIN *)
  | Declined                (* the confirmation was refused *)
  | Failed (e : Error)      (* the alert of the catch block *)
  | ImportedAndReloading.   (* the success alert, then location.reload() *)

(** [v.name] for a parsed value, or [undefined] ([None]). *)
Fixpoint field (name : list Z) (fields : list (list Z * json)) : option json :=
  match fields with
  | [] => None
  | (k, v) :: rest => if decide (k = name) then Some v else field name rest
  end.

Definition get (v : option json) (name : string) : Result (option json) :=
  match v with
  | None | Some JNull => Throw TypeError
  | Some (JObj fields) => Ok (field (lit name) fields)
  | Some _ => Ok None
  end.

(** The strings of a string's code points, for [for ... of] over a string. *)
Fixpoint code_points (s : list Z) : list json :=
  match s with
  | [] => []
  | u :: t =>
      if is_high_surrogate u then
        match t with
        | v :: t' =>
            if is_low_surrogate v then JStr [u; v] :: code_points t'
            else JStr [u] :: code_points t
        | [] => [JStr [u]]
        end
      else JStr [u] :: code_points t
  end.

(** [for (const x of v)]. *)
Definition iterate (v : option json) : Result (list json) :=
  match v with
  | Some (JArr items) => Ok items
  | Some (JStr s) => Ok (code_points s)
  | _ => Throw TypeError
  end.

(** [Object.values(x)], the object's fields being in enumeration order. *)
Definition Object_values (x : json) : Result (list json) :=
  match x with
  | JNull => Throw TypeError
  | JObj fields => Ok (List.map snd fields)
  | JArr items => Ok items
  | JStr s => Ok (List.map (fun u => JStr [u]) s)
  | JBool _ | JNum _ => Ok []
  end.

(** [backupData.data.notes] and [backupData.data.events], as the rows a
    [for ... of] loop goes through. *)
Definition backup_rows (backupData : json) (table : string) : Result (list json) :=
  let* data := get (Some backupData) "data" in
  let* rows := get data table in
  iterate rows.

(** [backupData.salt] and [backupData.verificationData]. *)
Definition backup_credentials (backupData : json) : Result (option json * option json) :=
  let* salt := get (Some backupData) "salt" in
  let* verificationData := get (Some backupData) "verificationData" in
  Ok (salt, verificationData).

(** The object a query builds for a row: a property for each column, in
    the order of the columns.  (JSON values have no typed arrays: a blob
    stands as the array of its bytes.) *)
Definition note_object (r : Notes.row) : json :=
  JObj [(lit "id", js_of_sqlval (Notes.id r));
        (lit "title_encrypted", js_of_sqlval (Notes.title_encrypted r));
        (lit "content_encrypted", js_of_sqlval (Notes.content_encrypted r));
        (lit "created_at", js_of_sqlval (Notes.created_at r));
        (lit "updated_at", js_of_sqlval (Notes.updated_at r));
        (lit "tags_encrypted", js_of_sqlval (Notes.tags_encrypted r));
        (lit "is_favorite", js_of_sqlval (Notes.is_favorite r))].

Definition event_object (r : Events.row) : json :=
  JObj [(lit "id", js_of_sqlval (Events.id r));
        (lit "title_encrypted", js_of_sqlval (Events.title_encrypted r));
        (lit "description_encrypted", js_of_sqlval (Events.description_encrypted r));
        (lit "start_time", js_of_sqlval (Events.start_time r));
        (lit "end_time", js_of_sqlval (Events.end_time r));
        (lit "is_all_day", js_of_sqlval (Events.is_all_day r));
        (lit "calendar_type", js_of_sqlval (Events.calendar_type r));
        (lit "rrule_encrypted", js_of_sqlval (Events.rrule_encrypted r))].

(** A value [localStorage.getItem] returned. *)
Definition js_of_item (v : option (list Z)) : json :=
  match v with
  | Some s => JStr s
  | None => JNull
  end.

(** The backup object [exportData] assembles. *)
Definition backupObject (now : Z) (salt verificationData : option (list Z))
    (notes : list Notes.row) (events : list Events.row) : json :=
  JObj [(lit "version", JNum 1);
        (lit "exportedAt", JNum now);
        (lit "salt", js_of_item salt);
        (lit "verificationData", js_of_item verificationData);
        (lit "data",
         JObj [(lit "notes", JArr (List.map note_object notes));
               (lit "events", JArr (List.map event_object events))])].

(** How a call of [exportData] ends. *)
Inductive export_outcome :=
  | AskedToUnlock                  (* the alert that the application must be unlocked *)
  | Downloaded (file : list Z)     (* the download of the file, then the success alert *)
  | ExportFailed (e : Error).      (* the alert of the catch block *)

Section WithPlatform.
Context (P : Platform).

(** [await StorageService.execute(sql, params)] with no other caller
    active: the statement runs against the instance, and the durable write
    it starts succeeds or not as the environment decides ([write_ok]). *)
Definition execute (sql : Sql) (params : list json) (write_ok : bool) (w : world)
  : Result unit * world :=
  if negb (ready w) then (Throw NotInitialized, w)
  else
    match db_run P sql params (database w) with
    | Throw e => (Throw e, w)
    | Ok d =>
        (if write_ok then Ok tt else Throw WriteError,
         {| database := d; ready := ready w; storage := storage w;
            journal := journal w ++ [sql] |})
    end.

(** The insert loop over the rows of the backup; [writes] tells, for each
    statement in turn, whether its durable write succeeds. *)
Fixpoint insert_all (sql : Sql) (rows : list json) (writes : list bool) (w : world)
  : Result (list bool) * world :=
  match rows with
  | [] => (Ok writes, w)
  | row :: rows' =>
      match Object_values row with
      | Throw e => (Throw e, w)
      | Ok values =>
          match execute sql values (hd true writes) w with
          | (Throw e, w') => (Throw e, w')
          | (Ok _, w') => insert_all sql rows' (tl writes) w'
          end
      end
  end.

(** Step 2 of the import, "clear current database". *)
Definition clear_database (writes : list bool) (w : world) : Result (list bool) * world :=
  match execute DeleteAllNotes [] (hd true writes) w with
  | (Throw e, w1) => (Throw e, w1)
  | (Ok _, w1) =>
      match execute DeleteAllEvents [] (hd true (tl writes)) w1 with
      | (Throw e, w2) => (Throw e, w2)
      | (Ok _, w2) => (Ok (tl (tl writes)), w2)
      end
  end.

(** Step 3, "insert new data": the notes of the backup, then its events. *)
Definition insert_backup (backupData : json) (writes : list bool) (w : world)
  : Result unit * world :=
  match backup_rows backupData "notes" with
  | Throw e => (Throw e, w)
  | Ok notes =>
      match insert_all InsertNoteValues notes writes w with
      | (Throw e, w1) => (Throw e, w1)
      | (Ok writes', w1) =>
          match backup_rows backupData "events" with
          | Throw e => (Throw e, w1)
          | Ok events =>
              match insert_all InsertEventValues events writes' w1 with
              | (Throw e, w2) => (Throw e, w2)
              | (Ok _, w2) => (Ok tt, w2)
              end
          end
      end
  end.

(** Step 4, "replace security credentials with those from the backup". *)
Definition replace_credentials (backupData : json) (w : world) : Result unit * world :=
  match backup_credentials backupData with
  | Throw e => (Throw e, w)
  | Ok (salt, verificationData) =>
      (Ok tt,
       {| database := database w; ready := ready w;
          storage := <["verification_data"%string := js_String P verificationData]>
                       (<["user_salt"%string := js_String P salt]> (storage w));
          journal := journal w |})
  end.

(** The part of [importData] that follows a successful parse. *)
Definition restore (backupData : json) (writes : list bool) (w : world)
  : Result unit * world :=
  match clear_database writes w with
  | (Throw e, w1) => (Throw e, w1)
  | (Ok writes', w1) =>
      match insert_backup backupData writes' w1 with
      | (Throw e, w2) => (Throw e, w2)
      | (Ok _, w2) => replace_credentials backupData w2
      end
  end.

(** The decryption of the file under the PIN and the salt of this device,
    up to and including [JSON.parse]. *)
Definition read_backup (encryptedBackup pin : list Z) (w : world) : Result json :=
  match JSON_parse P (nullable_string (storage w !! "user_salt"%string)) with
  | None => Throw SyntaxError
  | Some parsed =>
      let* tempSalt := new_Uint8Array P parsed in
      let key := CryptoService.deriveKeyFromPIN P pin tempSalt in
      let backupJson := CryptoService.decrypt P encryptedBackup key in
      if falsy backupJson then Throw DecryptionFailed
      else
        match JSON_parse P (nullable_string backupJson) with
        | None => Throw SyntaxError
        | Some backupData => Ok backupData
        end
  end.

(** [importData(file, pin)]: [file] is the text of the chosen file, or
    [None] when none was chosen; [confirmed] is the answer to the
    confirmation dialog. *)
Definition importData (file : option (list Z)) (pin : list Z) (confirmed : bool)
    (writes : list bool) (w : world) : outcome * world :=
  match file with
  | None => (AskedForFileAndPin, w)
  | Some encryptedBackup =>
      if negb (length pin =? 4)%nat then (AskedForFileAndPin, w)
      else if negb confirmed then (Declined, w)
      else
        match read_backup encryptedBackup pin w with
        | Throw e => (Failed e, w)
        | Ok backupData =>
            match restore backupData writes w with
            | (Throw e, w') => (Failed e, w')
            | (Ok _, w') => (ImportedAndReloading, w')
            end
        end
  end.

(** [StorageService.query] as the controller sees the service. *)
Definition query {A} (w : world) (select : Database -> Result (list A))
  : Result (list A) :=
  if negb (ready w) then Throw NotInitialized else select (database w).

(** The backup file [exportData] hands to the browser for download, or how
    it ends without one.  [now] is the value of [Date.now()]. *)
Definition exportData (masterKey : option (CryptoKey P)) (now : Z) (e : Entropy)
    (w : world) : export_outcome :=
  match masterKey with
  | None => AskedToUnlock
  | Some key =>
      match
        (let* notes := query w (fun d => Ok (notes d)) in
         let* events := query w (fun d => table_rows (has_events d) (events d)) in
         let salt := storage w !! "user_salt"%string in
         let verificationData := storage w !! "verification_data"%string in
         let backupJson :=
           JSON_stringify P (backupObject now salt verificationData notes events) in
         CryptoService.encrypt P backupJson key e)
      with
      | Ok encryptedBackup => Downloaded encryptedBackup
      | Throw err => ExportFailed err
      end
  end.

End WithPlatform.
End SettingsController.

(** ** A reference platform

    Small executable stand-ins for the browser interfaces.  They satisfy
    the laws of [Platform] (so the laws are consistent) and let the
    controllers run on concrete inputs.  The cipher is not secret: it
    appends a tag made of the key to the plaintext, which is enough for the
    laws. *)

Module Reference.

(** A key is two bytes. *)
Definition Key : Type := (Byte.byte * Byte.byte)%type.

Definition byte_of (z : Z) : Byte.byte :=
  match Byte.of_N (Z.to_N z) with
  | Some b => b
  | None => Byte.x00
  end.

Definition byte_value (b : Byte.byte) : Z := Z.of_N (Byte.to_N b).

(** The key of a number below 65536. *)
Definition key (n : Z) : Key := (byte_of (n / 256), byte_of (n mod 256)).

(** The digits of the password read as a decimal number, moved by a hash
    of the salt: different PINs get different keys. *)
Definition pbkdf2 (password salt : list Z) (iterations : Z) : Key :=
  key ((fold_left (fun v b => v * 10 + (b - 48)) password 0
        + fold_left (fun h b => (h * 31 + b) mod 251) salt iterations) mod 65536).

(** The 16-byte tag is the key and fourteen zeros. *)
Definition tag (k : Key) : list Z :=
  byte_value (fst k) :: byte_value (snd k) :: repeat 0 14.

Definition aes_gcm_encrypt (k : Key) (iv pt : list Z) : list Z := pt ++ tag k.

Definition aes_gcm_decrypt (k : Key) (iv ct : list Z) : option (list Z) :=
  let n := (length ct - 16)%nat in
  if decide (skipn n ct = tag k) then Some (firstn n ct) else None.

(** The smallest limit the laws allow. *)
Definition max_arguments : nat := 4096.

Definition json_code (j : json) : Z :=
  match j with
  | JNum n => n + 256
  | _ => 0
  end.

(** Arrays print as a bracket followed by one code unit per item. *)
Definition JSON_stringify (j : json) : list Z :=
  match j with
  | JArr items => 91 :: List.map json_code items
  | _ => lit "null"
  end.

Definition JSON_parse (text : list Z) : option json :=
  if decide (text = lit "null") then Some JNull
  else
    match text with
    | 91 :: codes => Some (JArr (List.map (fun c => JNum (c - 256)) codes))
    | _ => None
    end.

Definition ToUint8 (j : json) : Z :=
  match j with
  | JNum n => n mod 256
  | JBool true => 1
  | _ => 0
  end.

Definition new_Uint8Array (j : json) : Result (list Z) :=
  match j with
  | JArr items => Ok (List.map ToUint8 items)
  | JNum n => if n <? 0 then Throw TypeError else Ok (repeat 0 (Z.to_nat n))
  | _ => Ok []
  end.

Definition js_String (v : option json) : list Z :=
  match v with
  | Some (JStr s) => s
  | Some JNull => lit "null"
  | Some (JBool true) => lit "true"
  | Some (JBool false) => lit "false"
  | Some (JNum n) => [48 + n mod 10]
  | Some (JArr _) => []
  | Some (JObj _) => lit "[object Object]"
  | None => lit "undefined"
  end.

(** A fixed stream of random values for the examples. *)
Definition entropy : Entropy := fun i => Z.of_nat i * 37 + 11.

End Reference.

(** * Lemmas: the codecs *)

Example btoa_Man : btoa (lit "Man") = Some (lit "TWFu").
Proof. reflexivity. Qed.
Example btoa_Ma : btoa (lit "Ma") = Some (lit "TWE=").
Proof. reflexivity. Qed.
Example atob_TQ : atob (lit "TQ==") = Some (lit "M").
Proof. reflexivity. Qed.
Example atob_bang : atob (lit "!") = None.
Proof. reflexivity. Qed.
Example utf8_euro : TextEncoder_encode [0x20AC] = [0xE2; 0x82; 0xAC].
Proof. reflexivity. Qed.
Example utf8_pair : TextDecoder_decode (TextEncoder_encode [0xD83D; 0xDE00]) = [0xD83D; 0xDE00].
Proof. reflexivity. Qed.
Example utf8_lone : TextEncoder_encode [0xD800] = [0xEF; 0xBF; 0xBD].
Proof. reflexivity. Qed.
Example utf8_bom : TextDecoder_decode (TextEncoder_encode [0xFEFF; 0x61]) = [0x61].
Proof. reflexivity. Qed.

(** *** Base64 round trip *)

Ltac zcase :=
  match goal with
  | |- context [?a <? ?b] => destruct (Z.ltb_spec a b)
  | |- context [?a <=? ?b] => destruct (Z.leb_spec a b)
  | |- context [?a =? ?b] => destruct (Z.eqb_spec a b)
  end; try lia.

Ltac zcases := repeat zcase; simpl in *; try reflexivity; try lia.


Lemma is_byte_bytep b : is_byte b = true <-> bytep b.
Proof. unfold is_byte, bytep. rewrite andb_true_iff, !Z.leb_le. lia. Qed.

Lemma forallb_is_byte bs : forallb is_byte bs = true <-> Forall bytep bs.
Proof.
  rewrite forallb_forall, List.Forall_forall.
  split; intros H x Hx; apply is_byte_bytep, H, Hx.
Qed.

Lemma list_ind3 {A} (P : list A -> Prop) :
  P [] -> (forall a, P [a]) -> (forall a b, P [a; b]) ->
  (forall a b c l, P l -> P (a :: b :: c :: l)) -> forall l, P l.
Proof.
  intros H0 H1 H2 H3. fix IH 1.
  intros [|a [|b [|c l]]]; [exact H0 | apply H1 | apply H2 | apply H3, IH].
Qed.

Lemma b64_value_char v : sextetp v -> b64_value (b64_char v) = Some v.
Proof.
  unfold sextetp, b64_value, b64_char. intros Hv.
  zcases; f_equal; lia.
Qed.

Lemma b64_char_range v :
  sextetp v -> 43 <= b64_char v <= 122 /\ b64_char v <> 61.
Proof. unfold sextetp, b64_char. intros Hv. zcases. Qed.

Lemma b64_char_plain v :
  sextetp v -> b64_char v <> 61 /\ is_ascii_whitespace (b64_char v) = false.
Proof.
  intros Hv. destruct (b64_char_range v Hv) as [Hr Hne]. split; [exact Hne|].
  unfold is_ascii_whitespace. zcases.
Qed.

Lemma b64_sextets_range bs : Forall bytep bs -> Forall sextetp (b64_sextets bs).
Proof.
  unfold bytep, sextetp.
  induction bs as [|a|a b|a b c l IH] using list_ind3; intros HF; simpl.
  - apply List.Forall_nil.
  - inversion_clear HF.
    repeat (apply List.Forall_cons; [lia|]). apply List.Forall_nil.
  - inversion_clear HF as [|? ? Ha HF']. inversion_clear HF' as [|? ? Hb _].
    repeat (apply List.Forall_cons; [lia|]). apply List.Forall_nil.
  - inversion_clear HF as [|? ? Ha HF']. inversion_clear HF' as [|? ? Hb HF''].
    inversion_clear HF'' as [|? ? Hc Hl].
    repeat (apply List.Forall_cons; [lia|]). auto.
Qed.

Lemma b64_bytes_sextets bs : Forall bytep bs -> b64_bytes (b64_sextets bs) = bs.
Proof.
  unfold bytep.
  induction bs as [|a|a b|a b c l IH] using list_ind3; intros HF; simpl.
  - reflexivity.
  - f_equal. lia.
  - inversion_clear HF as [|? ? Ha HF']. inversion_clear HF' as [|? ? Hb _].
    f_equal; [lia|]. f_equal. lia.
  - inversion_clear HF as [|? ? Ha HF']. inversion_clear HF' as [|? ? Hb HF''].
    inversion_clear HF'' as [|? ? Hc Hl].
    rewrite IH by assumption.
    f_equal; [lia|]. f_equal; [lia|]. f_equal. lia.
Qed.

Lemma b64_values_chars vs :
  Forall sextetp vs -> b64_values (List.map b64_char vs) = Some vs.
Proof.
  induction 1 as [|v vs Hv _ IH]; simpl; [reflexivity|].
  now rewrite b64_value_char, IH.
Qed.

(** The encoded text is a whole number of four-character groups, and its
    unpadded part never has length 1 modulo 4. *)
Lemma b64_lengths bs :
  exists k r : nat,
    length (b64_sextets bs) = (4 * k + r)%nat /\
    (r + length (b64_padding bs) = 0 \/ r + length (b64_padding bs) = 4)%nat /\
    r <> 1%nat /\ (r < 4)%nat /\
    (b64_padding bs = [] \/ b64_padding bs = [61] \/ b64_padding bs = [61; 61]).
Proof.
  induction bs as [|a|a b|a b c l IH] using list_ind3; simpl.
  - exists 0%nat, 0%nat. simpl. intuition lia.
  - exists 0%nat, 2%nat. simpl. intuition lia.
  - exists 0%nat, 3%nat. simpl. intuition lia.
  - destruct IH as (k & r & Hl & Hp & Hr & Hr4 & Hpad).
    exists (S k), r. rewrite Hl. intuition lia.
Qed.

Lemma remove_padding_encode core pad :
  Z.of_nat (length (core ++ pad)) mod 4 = 0 ->
  Forall (fun c => c <> 61) core ->
  pad = [] \/ pad = [61] \/ pad = [61; 61] ->
  remove_padding (core ++ pad) = core.
Proof.
  intros Hlen Hcore Hpad. unfold remove_padding.
  rewrite Hlen. simpl. rewrite rev_app_distr.
  assert (Hhd : forall c r, rev core = c :: r -> c <> 61).
  { intros c r Hr. rewrite List.Forall_forall in Hcore. apply Hcore.
    apply in_rev. rewrite Hr. now left. }
  destruct Hpad as [-> | [-> | ->]].
  - rewrite app_nil_r. simpl.
    destruct (rev core) as [|c1 [|c2 r]] eqn:Hr; [reflexivity| |];
      specialize (Hhd _ _ eq_refl); destruct (Z.eqb_spec c1 61); congruence.
  - change (rev [61]) with [61]. cbn [app].
    destruct (rev core) as [|c2 r] eqn:Hr.
    + apply (f_equal (@rev Z)) in Hr. rewrite rev_involutive in Hr. now subst.
    + specialize (Hhd _ _ eq_refl). change (61 =? 61) with true. cbv iota.
      destruct (Z.eqb_spec c2 61); [congruence|].
      change (rev (c2 :: r) = core). rewrite <- Hr. apply rev_involutive.
  - change (rev [61; 61]) with [61; 61]. cbn [app].
    change (61 =? 61) with true. cbv iota. apply rev_involutive.
Qed.

Lemma filter_all {A} (f : A -> bool) l :
  Forall (fun x => f x = true) l -> List.filter f l = l.
Proof.
  induction 1 as [|x l Hx _ IH]; simpl; [reflexivity|]. now rewrite Hx, IH.
Qed.

Lemma atob_b64_encode bs : Forall bytep bs -> atob (b64_encode bs) = Some bs.
Proof.
  intros Hbs. unfold atob, b64_encode.
  pose proof (b64_sextets_range bs Hbs) as Hsx.
  destruct (b64_lengths bs) as (k & r & Hl & Hp & Hr & Hr4 & Hpad).
  rewrite filter_all.
  2:{ apply Forall_app. split.
      - apply List.Forall_map. eapply List.Forall_impl; [|exact Hsx].
        intros v Hv. simpl. now rewrite (proj2 (b64_char_plain v Hv)).
      - destruct Hpad as [-> | [-> | ->]]; repeat constructor. }
  rewrite remove_padding_encode; try assumption.
  - rewrite length_map, Hl.
    destruct (Z.eqb_spec (Z.of_nat (4 * k + r) mod 4) 1) as [E|_].
    + exfalso. rewrite Nat2Z.inj_add, Nat2Z.inj_mul in E. simpl in E. lia.
    + now rewrite b64_values_chars, b64_bytes_sextets.
  - rewrite length_app, length_map, Hl.
    rewrite !Nat2Z.inj_add, Nat2Z.inj_mul. simpl. lia.
  - apply List.Forall_map. eapply List.Forall_impl; [|exact Hsx].
    intros v Hv. simpl. apply b64_char_plain, Hv.
Qed.

Lemma atob_btoa bs :
  Forall bytep bs -> exists t, btoa bs = Some t /\ atob t = Some bs.
Proof.
  intros Hbs. exists (b64_encode bs). split.
  - unfold btoa. now rewrite (proj2 (forallb_is_byte bs) Hbs).
  - now apply atob_b64_encode.
Qed.

(** *** UTF-8 round trip *)


Ltac utf8_simpl :=
  cbn [d_bytes_needed d_bytes_seen d_lower d_upper d_code_point utf8_start
       andb orb negb app fst snd].

Lemma utf8_lead_ascii b : 0 <= b <= 0x7F -> utf8_lead b = (utf8_start, [b]).
Proof. intros Hb. unfold utf8_lead. zcases. Qed.

Lemma utf8_lead_2 b :
  0xC2 <= b <= 0xDF ->
  utf8_lead b =
    ({| d_code_point := b - 0xC0; d_bytes_needed := 1; d_bytes_seen := 0;
        d_lower := 0x80; d_upper := 0xBF |}, []).
Proof. intros Hb. unfold utf8_lead. zcases. Qed.

Lemma utf8_lead_3 b :
  0xE0 <= b <= 0xEF ->
  utf8_lead b =
    ({| d_code_point := b - 0xE0; d_bytes_needed := 2; d_bytes_seen := 0;
        d_lower := if b =? 0xE0 then 0xA0 else 0x80;
        d_upper := if b =? 0xED then 0x9F else 0xBF |}, []).
Proof.
  intros Hb. unfold utf8_lead.
  destruct (Z.leb_spec 0 b); [|lia]. destruct (Z.leb_spec b 0x7F); [lia|].
  destruct (Z.leb_spec 0xC2 b); [|lia]. destruct (Z.leb_spec b 0xDF); [lia|].
  destruct (Z.leb_spec 0xE0 b); [|lia]. destruct (Z.leb_spec b 0xEF); [|lia].
  reflexivity.
Qed.

Lemma utf8_lead_4 b :
  0xF0 <= b <= 0xF4 ->
  utf8_lead b =
    ({| d_code_point := b - 0xF0; d_bytes_needed := 3; d_bytes_seen := 0;
        d_lower := if b =? 0xF0 then 0x90 else 0x80;
        d_upper := if b =? 0xF4 then 0x8F else 0xBF |}, []).
Proof.
  intros Hb. unfold utf8_lead.
  destruct (Z.leb_spec 0 b); [|lia]. destruct (Z.leb_spec b 0x7F); [lia|].
  destruct (Z.leb_spec 0xC2 b); [|lia]. destruct (Z.leb_spec b 0xDF); [lia|].
  destruct (Z.leb_spec 0xE0 b); [|lia]. destruct (Z.leb_spec b 0xEF); [lia|].
  destruct (Z.leb_spec 0xF0 b); [|lia]. destruct (Z.leb_spec b 0xF4); [|lia].
  reflexivity.
Qed.

(** A continuation byte inside the expected range extends the code point. *)
Lemma utf8_continue cp needed seen lo hi b :
  needed <> 0 -> lo <= b <= hi ->
  utf8_handler {| d_code_point := cp; d_bytes_needed := needed;
                  d_bytes_seen := seen; d_lower := lo; d_upper := hi |} b =
    if seen + 1 =? needed then (utf8_start, [cp * 64 + (b - 0x80)])
    else ({| d_code_point := cp * 64 + (b - 0x80); d_bytes_needed := needed;
             d_bytes_seen := seen + 1; d_lower := 0x80; d_upper := 0xBF |}, []).
Proof.
  intros Hn Hb. unfold utf8_handler. utf8_simpl.
  destruct (Z.eqb_spec needed 0); [contradiction|].
  destruct (Z.ltb_spec b lo); [lia|]. destruct (Z.ltb_spec hi b); [lia|].
  reflexivity.
Qed.

Lemma utf8_run_encode c rest :
  scalarp c ->
  utf8_run utf8_start (utf8_encode_scalar c ++ rest) = c :: utf8_run utf8_start rest.
Proof.
  unfold scalarp, utf8_encode_scalar. intros Hc.
  destruct (Z.ltb_spec c 0x80); [|destruct (Z.ltb_spec c 0x800); [|destruct (Z.ltb_spec c 0x10000)]];
    cbn [app utf8_run].
  - change (utf8_handler utf8_start c) with (utf8_lead c).
    rewrite utf8_lead_ascii by lia. reflexivity.
  - change (utf8_handler utf8_start (0xC0 + c / 64)) with (utf8_lead (0xC0 + c / 64)).
    rewrite utf8_lead_2 by lia. rewrite utf8_continue by lia.
    change (0 + 1 =? 1) with true. cbn [app]. f_equal. lia.
  - change (utf8_handler utf8_start (0xE0 + c / 4096)) with (utf8_lead (0xE0 + c / 4096)).
    rewrite utf8_lead_3 by lia.
    rewrite utf8_continue; [|lia|zcases].
    change (0 + 1 =? 2) with false. cbv iota.
    rewrite utf8_continue by lia.
    change (0 + 1 + 1 =? 2) with true. cbn [app]. f_equal. lia.
  - change (utf8_handler utf8_start (0xF0 + c / 262144)) with (utf8_lead (0xF0 + c / 262144)).
    rewrite utf8_lead_4 by lia.
    rewrite utf8_continue; [|lia|zcases].
    change (0 + 1 =? 3) with false. cbv iota.
    rewrite utf8_continue by lia.
    change (0 + 1 + 1 =? 3) with false. cbv iota.
    rewrite utf8_continue by lia.
    change (0 + 1 + 1 + 1 =? 3) with true. cbn [app]. f_equal. lia.
Qed.

Lemma utf8_run_flat_map cps :
  Forall scalarp cps -> utf8_run utf8_start (flat_map utf8_encode_scalar cps) = cps.
Proof.
  induction 1 as [|c cps Hc _ IH]; [reflexivity|].
  cbn [flat_map]. now rewrite utf8_run_encode, IH.
Qed.

Lemma list_ind_pair {A} (P : list A -> Prop) :
  P [] -> (forall u, P [u]) ->
  (forall u v t, P (v :: t) -> P t -> P (u :: v :: t)) -> forall l, P l.
Proof.
  intros H0 H1 H2. fix IH 1.
  intros [|u l]; [exact H0|].
  pose proof (IH l) as Hl.
  destruct l as [|v t]; [apply H1 | apply H2; [exact Hl | apply IH]].
Qed.

Lemma to_scalar_values_cons u t :
  to_scalar_values (u :: t) =
    if is_high_surrogate u then
      match t with
      | v :: t' =>
          if is_low_surrogate v
          then (0x10000 + (u - 0xD800) * 0x400 + (v - 0xDC00)) :: to_scalar_values t'
          else 0xFFFD :: to_scalar_values t
      | [] => [0xFFFD]
      end
    else if is_low_surrogate u then 0xFFFD :: to_scalar_values t
    else u :: to_scalar_values t.
Proof. reflexivity. Qed.

Lemma isWellFormed_cons u t :
  isWellFormed (u :: t) =
    if is_high_surrogate u then
      match t with
      | v :: t' => is_low_surrogate v && isWellFormed t'
      | [] => false
      end
    else negb (is_low_surrogate u) && (0 <=? u) && (u <=? 0xFFFF) && isWellFormed t.
Proof. reflexivity. Qed.

Lemma utf16_of_scalar_bmp u : u < 0x10000 -> utf16_of_scalar u = [u].
Proof. intros Hu. unfold utf16_of_scalar. zcases. Qed.

Lemma utf16_of_scalar_pair u v :
  0xD800 <= u <= 0xDBFF -> 0xDC00 <= v <= 0xDFFF ->
  utf16_of_scalar (0x10000 + (u - 0xD800) * 0x400 + (v - 0xDC00)) = [u; v].
Proof.
  intros Hu Hv. unfold utf16_of_scalar. zcase.
  f_equal; [lia|]. f_equal. lia.
Qed.

(** One code unit outside the surrogate range, in front of a well-formed
    string. *)
Lemma to_scalar_values_wf_bmp u t :
  is_high_surrogate u = false ->
  isWellFormed (u :: t) = true ->
  0 <= u < 0x10000 /\ scalarp u /\ isWellFormed t = true /\
  to_scalar_values (u :: t) = u :: to_scalar_values t.
Proof.
  intros Hh. rewrite isWellFormed_cons, to_scalar_values_cons, Hh.
  rewrite !andb_true_iff, negb_true_iff, !Z.leb_le.
  intros [[[Hl H0] H1] Hwf]. rewrite Hl.
  revert Hh Hl. unfold is_high_surrogate, is_low_surrogate, scalarp.
  rewrite !andb_false_iff, !Z.leb_gt. intros Hh Hl.
  repeat split; try assumption; lia.
Qed.

Lemma to_scalar_values_wf s :
  isWellFormed s = true ->
  Forall scalarp (to_scalar_values s) /\
  flat_map utf16_of_scalar (to_scalar_values s) = s /\
  has_bom (to_scalar_values s) = has_bom s.
Proof.
  induction s as [|u|u v t IHv IHt] using list_ind_pair.
  - intros _. repeat split. apply List.Forall_nil.
  - destruct (is_high_surrogate u) eqn:Hh.
    + rewrite isWellFormed_cons, Hh. discriminate.
    + intros Hwf. destruct (to_scalar_values_wf_bmp u [] Hh Hwf) as (Hu & Hs & _ & ->).
      cbn [to_scalar_values flat_map app]. rewrite utf16_of_scalar_bmp by lia.
      repeat split. apply List.Forall_cons; [exact Hs|apply List.Forall_nil].
  - destruct (is_high_surrogate u) eqn:Hh.
    + rewrite isWellFormed_cons, to_scalar_values_cons, Hh.
      rewrite andb_true_iff. intros [Hl Hwf]. rewrite Hl.
      destruct (IHt Hwf) as (Hs & Hr & _).
      revert Hh Hl. unfold is_high_surrogate, is_low_surrogate.
      rewrite !andb_true_iff, !Z.leb_le. intros Hh Hl.
      repeat split.
      * apply List.Forall_cons; [unfold scalarp; lia|exact Hs].
      * cbn [flat_map]. rewrite Hr, utf16_of_scalar_pair by lia. reflexivity.
      * unfold has_bom. zcases.
    + intros Hwf.
      destruct (to_scalar_values_wf_bmp u (v :: t) Hh Hwf) as (Hu & Hs & Hwf' & ->).
      destruct (IHv Hwf') as (Hs' & Hr & _).
      repeat split.
      * apply List.Forall_cons; assumption.
      * cbn [flat_map]. rewrite Hr, utf16_of_scalar_bmp by lia. reflexivity.
Qed.

(** Decoding the UTF-8 encoding of a well-formed string that does not start
    with U+FEFF gives the string back. *)
Lemma TextDecoder_TextEncoder s :
  isWellFormed s = true -> has_bom s = false ->
  TextDecoder_decode (TextEncoder_encode s) = s.
Proof.
  intros Hwf Hbom. destruct (to_scalar_values_wf s Hwf) as (Hs & Hr & Hb).
  unfold TextDecoder_decode, TextEncoder_encode.
  rewrite utf8_run_flat_map by exact Hs.
  assert (strip_bom (to_scalar_values s) = to_scalar_values s) as ->; [|exact Hr].
  rewrite Hbom in Hb. unfold strip_bom, has_bom in *.
  destruct (to_scalar_values s) as [|c t]; [reflexivity|]. now rewrite Hb.
Qed.

(** The encoder always produces bytes, whatever the string. *)
Lemma utf8_encode_scalar_bytes c :
  0 <= c < 0x110000 -> Forall bytep (utf8_encode_scalar c).
Proof.
  intros Hc. unfold utf8_encode_scalar, bytep.
  zcases; repeat (apply List.Forall_cons; [lia|]); apply List.Forall_nil.
Qed.

(** * Lemmas: CryptoService and the reference platform *)

Lemma getRandomValues_length n e : length (getRandomValues n e) = n.
Proof. unfold getRandomValues. now rewrite length_map, length_seq. Qed.

Lemma getRandomValues_bytes n e : Forall bytep (getRandomValues n e).
Proof.
  unfold getRandomValues. apply List.Forall_map, List.Forall_forall.
  intros i _. unfold bytep. lia.
Qed.

Lemma TextEncoder_encode_bytes s :
  isWellFormed s = true -> Forall bytep (TextEncoder_encode s).
Proof.
  intros Hwf. destruct (to_scalar_values_wf s Hwf) as (Hs & _ & _).
  unfold TextEncoder_encode. apply List.Forall_flat_map.
  eapply List.Forall_impl; [|exact Hs].
  intros c Hc. apply utf8_encode_scalar_bytes. unfold scalarp in Hc. lia.
Qed.

(** The argument limit in terms of the plaintext. *)
Lemma combined_length (P : Platform) s (k : CryptoKey P) e :
  length (getRandomValues 12 e ++
          aes_gcm_encrypt P k (getRandomValues 12 e) (TextEncoder_encode s)) =
    (length (TextEncoder_encode s) + 28)%nat.
Proof. rewrite length_app, getRandomValues_length, aes_gcm_length. lia. Qed.

Lemma encrypt_over_limit (P : Platform) s (k : CryptoKey P) e :
  CryptoService.fits P s = false -> CryptoService.encrypt P s k e = Throw RangeError.
Proof.
  unfold CryptoService.fits, CryptoService.encrypt. intros H.
  rewrite combined_length.
  destruct (Nat.ltb_spec (max_arguments P) (length (TextEncoder_encode s) + 28));
    [reflexivity|].
  apply Nat.leb_gt in H. lia.
Qed.

Lemma fits_short (P : Platform) s :
  (length (TextEncoder_encode s) <= 4068)%nat -> CryptoService.fits P s = true.
Proof.
  intros H. unfold CryptoService.fits. apply Nat.leb_le.
  pose proof (max_arguments_min P). lia.
Qed.

(** What [decrypt], under any key, makes of the output of [encrypt]: the
    nonce and the ciphertext are recovered exactly and handed to AES-GCM. *)
Lemma decrypt_of_encrypt (P : Platform) s (k : CryptoKey P) e :
  Forall bytep (TextEncoder_encode s) ->
  CryptoService.fits P s = true ->
  exists blob,
    CryptoService.encrypt P s k e = Ok blob /\
    blob <> [] /\
    forall k',
      CryptoService.decrypt P blob k' =
        match aes_gcm_decrypt P k' (getRandomValues 12 e)
                (aes_gcm_encrypt P k (getRandomValues 12 e) (TextEncoder_encode s)) with
        | Some decryptedData => Some (TextDecoder_decode decryptedData)
        | None => None
        end.
Proof.
  intros Hpt Hfits. unfold CryptoService.encrypt, CryptoService.decrypt.
  rewrite combined_length.
  assert (Hlim : (max_arguments P <? length (TextEncoder_encode s) + 28)%nat = false).
  { apply Nat.ltb_ge. apply Nat.leb_le in Hfits. exact Hfits. }
  rewrite Hlim.
  assert (Hlen : length (getRandomValues 12 e) = 12%nat) by apply getRandomValues_length.
  assert (Hiv : Forall bytep (getRandomValues 12 e)) by apply getRandomValues_bytes.
  set (iv := getRandomValues 12 e) in *.
  set (ct := aes_gcm_encrypt P k iv (TextEncoder_encode s)).
  assert (Hct : Forall bytep ct) by (apply aes_gcm_bytes; assumption).
  assert (Hall : Forall bytep (iv ++ ct)) by (apply Forall_app; split; assumption).
  destruct (atob_btoa _ Hall) as (blob & Hb & Ha).
  exists blob. rewrite Hb. split; [reflexivity|]. split.
  - revert Hb. unfold btoa. destruct (forallb _ _); [|discriminate].
    intros [= <-]. destruct iv as [|x0 [|x1 [|x2 iv']]]; try discriminate Hlen.
    unfold b64_encode. cbn [b64_sextets List.map app]. discriminate.
  - intros k'. rewrite Ha. rewrite <- Hlen.
    rewrite firstn_app, Nat.sub_diag, firstn_all, firstn_O, app_nil_r.
    rewrite skipn_app, Nat.sub_diag, skipn_all, skipn_O, app_nil_l.
    reflexivity.
Qed.

Lemma decrypt_encrypt_general (P : Platform) s (k : CryptoKey P) e :
  Forall bytep (TextEncoder_encode s) ->
  CryptoService.fits P s = true ->
  exists blob,
    CryptoService.encrypt P s k e = Ok blob /\
    CryptoService.decrypt P blob k = Some (TextDecoder_decode (TextEncoder_encode s)).
Proof.
  intros Hpt Hfits.
  destruct (decrypt_of_encrypt P s k e Hpt Hfits) as (blob & He & _ & Hd).
  exists blob. split; [exact He|].
  rewrite Hd, aes_gcm_correct; [reflexivity|apply getRandomValues_bytes|exact Hpt].
Qed.

(** Under another key the authentication fails and [decrypt] returns
    [null]. *)
Lemma decrypt_encrypt_other_key (P : Platform) s (k k' : CryptoKey P) e blob :
  Forall bytep (TextEncoder_encode s) ->
  CryptoService.encrypt P s k e = Ok blob -> k <> k' ->
  CryptoService.decrypt P blob k' = None.
Proof.
  intros Hpt He Hne.
  destruct (CryptoService.fits P s) eqn:Hfits;
    [|rewrite (encrypt_over_limit P s k e Hfits) in He; discriminate He].
  destruct (decrypt_of_encrypt P s k e Hpt Hfits) as (blob' & He' & _ & Hd).
  rewrite He in He'. injection He' as <-.
  now rewrite Hd, aes_gcm_authentic.
Qed.

Lemma byte_value_range b : 0 <= Reference.byte_value b < 256.
Proof.
  unfold Reference.byte_value. pose proof (Byte.to_N_bounded b). lia.
Qed.

Lemma byte_value_of z : 0 <= z < 256 -> Reference.byte_value (Reference.byte_of z) = z.
Proof.
  intros Hz. unfold Reference.byte_value, Reference.byte_of.
  destruct (Byte.of_N (Z.to_N z)) as [b|] eqn:Hb.
  - rewrite (Byte.to_of_N _ Hb). lia.
  - apply Byte.of_N_None_iff in Hb. lia.
Qed.

Lemma byte_value_inj b b' : Reference.byte_value b = Reference.byte_value b' -> b = b'.
Proof.
  unfold Reference.byte_value. intros H.
  assert (Hn : Byte.to_N b = Byte.to_N b') by lia.
  pose proof (Byte.of_to_N b) as H1. rewrite Hn, Byte.of_to_N in H1. congruence.
Qed.

Lemma reference_tag_length k : length (Reference.tag k) = 16%nat.
Proof. reflexivity. Qed.

Lemma reference_tag_inj k k' : Reference.tag k = Reference.tag k' -> k = k'.
Proof.
  destruct k as [a b], k' as [a' b']. unfold Reference.tag. cbn [fst snd].
  intros [= Ha Hb]. apply byte_value_inj in Ha, Hb. congruence.
Qed.

Lemma reference_key_inj n m :
  0 <= n < 65536 -> 0 <= m < 65536 -> Reference.key n = Reference.key m -> n = m.
Proof.
  intros Hn Hm. unfold Reference.key. intros [= H1 H2].
  apply (f_equal Reference.byte_value) in H1, H2.
  rewrite !byte_value_of in H1, H2 by lia. lia.
Qed.

Lemma reference_aes_gcm_bytes (k : Reference.Key) iv pt :
  Forall bytep iv -> Forall bytep pt ->
  Forall bytep (Reference.aes_gcm_encrypt k iv pt).
Proof.
  intros _ Hpt. unfold Reference.aes_gcm_encrypt, Reference.tag. apply Forall_app.
  split; [exact Hpt|].
  apply List.Forall_cons; [apply byte_value_range|].
  apply List.Forall_cons; [apply byte_value_range|].
  cbn [repeat]. repeat (apply List.Forall_cons; [unfold bytep; lia|]). apply List.Forall_nil.
Qed.

Lemma reference_split pt (k : Reference.Key) :
  let n := (length (pt ++ Reference.tag k) - 16)%nat in
  skipn n (pt ++ Reference.tag k) = Reference.tag k /\
  firstn n (pt ++ Reference.tag k) = pt.
Proof.
  intros n. assert (Hn : n = length pt).
  { subst n. rewrite length_app, reference_tag_length. lia. }
  rewrite Hn. split.
  - rewrite skipn_app, Nat.sub_diag, skipn_all, skipn_O. reflexivity.
  - rewrite firstn_app, Nat.sub_diag, firstn_all, firstn_O, app_nil_r. reflexivity.
Qed.

Lemma reference_aes_gcm_correct (k : Reference.Key) iv pt :
  Forall bytep iv -> Forall bytep pt ->
  Reference.aes_gcm_decrypt k iv (Reference.aes_gcm_encrypt k iv pt) = Some pt.
Proof.
  intros _ _. unfold Reference.aes_gcm_decrypt, Reference.aes_gcm_encrypt.
  destruct (reference_split pt k) as [Hs Hf]. cbv zeta in Hs, Hf.
  rewrite Hs, Hf. rewrite decide_True by reflexivity. reflexivity.
Qed.

Lemma reference_aes_gcm_authentic (k k' : Reference.Key) iv pt :
  k <> k' -> Reference.aes_gcm_decrypt k' iv (Reference.aes_gcm_encrypt k iv pt) = None.
Proof.
  intros Hne. unfold Reference.aes_gcm_decrypt, Reference.aes_gcm_encrypt.
  destruct (reference_split pt k) as [Hs _]. cbv zeta in Hs. rewrite Hs.
  rewrite decide_False; [reflexivity|].
  intros H. apply reference_tag_inj in H. contradiction.
Qed.

Lemma reference_aes_gcm_length (k : Reference.Key) (iv pt : list Z) :
  length (Reference.aes_gcm_encrypt k iv pt) = (length pt + 16)%nat.
Proof. unfold Reference.aes_gcm_encrypt. rewrite length_app. reflexivity. Qed.

Lemma pin_digits pin :
  Validator.isPin pin = true ->
  exists a b c d, pin = [a; b; c; d] /\
    48 <= a <= 57 /\ 48 <= b <= 57 /\ 48 <= c <= 57 /\ 48 <= d <= 57.
Proof.
  unfold Validator.isPin. intros H. apply andb_true_iff in H as [Hlen Hd].
  apply Nat.eqb_eq in Hlen.
  destruct pin as [|a [|b [|c [|d [|x pin]]]]]; try discriminate Hlen.
  exists a, b, c, d. split; [reflexivity|].
  cbn [forallb] in Hd. unfold Validator.is_digit in Hd. lia.
Qed.

Lemma digits_unique a b c d a' b' c' d' :
  0 <= a <= 9 -> 0 <= b <= 9 -> 0 <= c <= 9 -> 0 <= d <= 9 ->
  0 <= a' <= 9 -> 0 <= b' <= 9 -> 0 <= c' <= 9 -> 0 <= d' <= 9 ->
  ((a * 10 + b) * 10 + c) * 10 + d = ((a' * 10 + b') * 10 + c') * 10 + d' ->
  a = a' /\ b = b' /\ c = c' /\ d = d'.
Proof.
  intros. assert (d = d') by lia. assert (c = c') by lia. assert (b = b') by lia. lia.
Qed.

Lemma shift_unique v v' h :
  0 <= v < 10000 -> 0 <= v' < 10000 ->
  (v + h) mod 65536 = (v' + h) mod 65536 -> v = v'.
Proof. intros. lia. Qed.

Lemma reference_pbkdf2_pins pin pin' salt iterations :
  Validator.isPin pin = true -> Validator.isPin pin' = true ->
  Reference.pbkdf2 pin salt iterations = Reference.pbkdf2 pin' salt iterations ->
  pin = pin'.
Proof.
  intros Hp Hp'.
  destruct (pin_digits pin Hp) as (a & b & c & d & -> & Ha & Hb & Hc & Hd).
  destruct (pin_digits pin' Hp') as (a' & b' & c' & d' & -> & Ha' & Hb' & Hc' & Hd').
  unfold Reference.pbkdf2. cbn [fold_left].
  set (h := fold_left _ salt iterations).
  intros H. apply reference_key_inj in H; [|lia|lia].
  apply shift_unique in H; [|lia|lia].
  destruct (digits_unique (a - 48) (b - 48) (c - 48) (d - 48)
              (a' - 48) (b' - 48) (c' - 48) (d' - 48)) as (Ea & Eb & Ec & Ed);
    try lia.
  assert (a = a') by lia. assert (b = b') by lia.
  assert (c = c') by lia. assert (d = d') by lia. congruence.
Qed.

Lemma reference_JSON_bytes bs :
  Forall bytep bs ->
  Reference.JSON_parse (Reference.JSON_stringify (JArr (List.map JNum bs))) =
    Some (JArr (List.map JNum bs)).
Proof.
  intros _. unfold Reference.JSON_parse, Reference.JSON_stringify.
  destruct (decide _) as [E|_]; [discriminate E|].
  do 2 f_equal.
  induction bs as [|b bs IH]; simpl; [reflexivity|]. rewrite IH.
  do 2 f_equal. lia.
Qed.

Lemma reference_JSON_stringify_nonempty v : Reference.JSON_stringify v <> [].
Proof. destruct v; discriminate. Qed.

Lemma reference_new_Uint8Array_bytes bs :
  Forall bytep bs -> Reference.new_Uint8Array (JArr (List.map JNum bs)) = Ok bs.
Proof.
  intros Hbs. unfold Reference.new_Uint8Array. f_equal.
  induction Hbs as [|b bs Hb _ IH]; simpl; [reflexivity|].
  rewrite IH. f_equal. unfold bytep in Hb. apply Z.mod_small. lia.
Qed.

(** The reference platform. *)
Definition reference_platform : Platform :=
  Build_Platform Reference.Key Reference.pbkdf2 Reference.aes_gcm_encrypt
    Reference.aes_gcm_decrypt
    Reference.JSON_stringify Reference.JSON_parse Reference.new_Uint8Array
    Reference.js_String Reference.max_arguments
    reference_aes_gcm_bytes reference_aes_gcm_correct reference_aes_gcm_authentic
    reference_JSON_bytes eq_refl reference_JSON_stringify_nonempty
    reference_new_Uint8Array_bytes (fun s => eq_refl)
    reference_aes_gcm_length reference_pbkdf2_pins
    (le_n Reference.max_arguments).

(** * Properties: the write scheduler *)

Import StorageService.

Section Scheduler.
Context (P : Platform).

(** What holds of the service in every reachable state, failures included. *)
Record Inv (s : state) : Prop := {
  inv_one : (length (running s) <= 1)%nat;
  inv_idle : isSaving s = false -> running s = [];
  inv_save : forall save, In save (running s) ->
    In (awaiting save) (snap_calls (data save)) /\
    incl (snap_calls (data save)) (applied s);
  inv_file : forall f, db_file s = Some f ->
    incl (snap_calls f) (applied s) /\
    forall save, In save (running s) -> incl (snap_calls f) (snap_calls (data save));
  inv_waited : forall call, In (call, Resolved true) (settled s) ->
    exists f, db_file s = Some f /\ In call (snap_calls f)
}.

Lemma Inv_opened d : Inv (opened d).
Proof.
  split; simpl; try easy.
  - lia.
  - intros f [= <-]. simpl. split; [apply incl_nil_l|easy].
Qed.

Lemma Inv_settle_rejected s call e : Inv s -> Inv (settle call (Rejected e) s).
Proof.
  intros [H1 H2 H3 H4 H5]. split; simpl; try assumption.
  intros c [Hc|Hc]; [discriminate Hc|auto].
Qed.

Lemma Inv_step s ev : Inv s -> Inv (step P s ev).
Proof.
  intros Hs. pose proof Hs as [H1 H2 H3 H4 H5].
  destruct ev as [call sql params| |]; simpl.
  - unfold execute. destruct (isInitialized s); simpl;
      [|now apply Inv_settle_rejected].
    destruct (db_run P sql params (db s)) as [d|e];
      [|now apply Inv_settle_rejected].
    unfold scheduleSave, saveDbToIndexedDB. simpl. destruct (isSaving s) eqn:Hsav.
    + split; simpl.
      * exact H1.
      * discriminate.
      * intros save Hin. destruct (H3 save Hin) as [Ha Hb].
        split; [exact Ha|]. now apply incl_tl.
      * intros f Hf. destruct (H4 f Hf) as [Ha Hb]. split; [now apply incl_tl|exact Hb].
      * intros c [Hc|Hc]; [discriminate Hc|auto].
    + rewrite (H2 eq_refl) in *. split; simpl.
      * lia.
      * discriminate.
      * intros save [<-|[]]. simpl. split; [now left|apply incl_refl].
      * intros f Hf. destruct (H4 f Hf) as [Ha _].
        split; [now apply incl_tl|]. intros save [<-|[]]. simpl. now apply incl_tl.
      * exact H5.
  - destruct (running s) as [|save rest] eqn:Hrun; [exact Hs|].
    assert (rest = []) as -> by (destruct rest; [reflexivity|simpl in H1; lia]).
    destruct (H3 save (or_introl eq_refl)) as [Hown Hsub].
    unfold resume, scheduleSave, saveDbToIndexedDB. simpl. destruct (saveQueue s) eqn:Hq; simpl.
    + split; simpl.
      * lia.
      * discriminate.
      * intros sv [<-|[]]. simpl. split; [now apply Hsub|apply incl_refl].
      * intros f [= <-]. split; [exact Hsub|]. intros sv [<-|[]]. exact Hsub.
      * intros c Hc. exists (data save). split; [reflexivity|].
        destruct (H5 c Hc) as (f & Hf & Hin).
        destruct (H4 f Hf) as [_ Hb]. apply (Hb save); [now left|exact Hin].
    + split; simpl.
      * lia.
      * reflexivity.
      * intros sv [].
      * intros f [= <-]. split; [exact Hsub|]. intros sv [].
      * intros c [[= <-]|Hc]; exists (data save); (split; [reflexivity|]).
        -- exact Hown.
        -- destruct (H5 c Hc) as (f & Hf & Hin).
           destruct (H4 f Hf) as [_ Hb]. apply (Hb save); [now left|exact Hin].
  - destruct (running s) as [|save rest] eqn:Hrun; [exact Hs|].
    assert (rest = []) as -> by (destruct rest; [reflexivity|simpl in H1; lia]).
    split; simpl.
    + lia.
    + reflexivity.
    + intros sv [].
    + intros f Hf. destruct (H4 f Hf) as [Ha _]. split; [exact Ha|]. intros sv [].
    + intros c [Hc|Hc]; [discriminate Hc|auto].
Qed.

Lemma Inv_run s trace : Inv s -> Inv (run P s trace).
Proof.
  revert s. induction trace as [|ev trace IH]; intros s Hs; [exact Hs|].
  apply IH, Inv_step, Hs.
Qed.

(** What holds in addition as long as no durable write has failed: the
    durable copy is current when nothing runs, and while a save runs either
    its snapshot is current or the pending flag is set. *)
Definition Covered (s : state) : Prop :=
  match running s with
  | [] => isSaving s = false /\ saveQueue s = false /\ db_file s = Some (export s)
  | [save] => isSaving s = true /\ (data save = export s \/ saveQueue s = true)
  | _ => False
  end.

Lemma Covered_opened d : Covered (opened d).
Proof. now repeat split. Qed.

Lemma Covered_step s ev :
  ev <> TransactionError -> Covered s -> Covered (step P s ev).
Proof.
  unfold Covered. intros Hev Hs. destruct ev as [call sql params| |]; simpl.
  - unfold execute. destruct (isInitialized s); simpl; [|exact Hs].
    destruct (db_run P sql params (db s)) as [d|e]; [|exact Hs].
    unfold scheduleSave, saveDbToIndexedDB. simpl.
    destruct (isSaving s) eqn:Hsav; simpl;
      (destruct (running s) as [|save [|save' rest]]; [| |contradiction]); simpl.
    + now destruct Hs.
    + split; [reflexivity|now right].
    + split; [reflexivity|now left].
    + now destruct Hs.
  - destruct (running s) as [|save [|save' rest]] eqn:Hrun; [| |contradiction].
    + now rewrite Hrun.
    + unfold resume, scheduleSave, saveDbToIndexedDB. simpl. destruct Hs as (Hsav & Hd).
      destruct (saveQueue s) eqn:Hq; simpl.
      * split; [reflexivity|now left].
      * destruct Hd as [->|Hd]; [|discriminate]. now repeat split.
  - contradiction.
Qed.

Lemma Covered_run s trace :
  error_free trace = true -> Covered s -> Covered (run P s trace).
Proof.
  revert s. induction trace as [|ev trace IH]; intros s Hfree Hs; [exact Hs|].
  simpl in Hfree. apply andb_true_iff in Hfree as [Hev Hfree].
  apply IH; [exact Hfree|]. apply Covered_step; [|exact Hs].
  intros ->. discriminate Hev.
Qed.

(** Left alone, a covered service becomes durable within two completed
    writes: the running one, and the one the pending flag asks for. *)
Lemma Covered_drain s :
  Covered s ->
  let s' := run P s [TransactionComplete; TransactionComplete] in
  running s' = [] /\ isSaving s' = false /\ saveQueue s' = false /\
  db_file s' = Some (export s) /\ db s' = db s.
Proof.
  unfold Covered. intros Hs. simpl.
  destruct (running s) as [|save [|save' rest]] eqn:Hrun; [| |contradiction].
  - rewrite Hrun. destruct Hs as (? & ? & ?). now rewrite Hrun.
  - unfold resume, scheduleSave, saveDbToIndexedDB. simpl. destruct Hs as (Hsav & Hd).
    destruct (saveQueue s) eqn:Hq; simpl.
    + now repeat split.
    + destruct Hd as [->|Hd]; [|discriminate]. now repeat split.
Qed.

(** Once a durable write has failed the flag [isSaving] is never lowered
    again: every later request is only noted, no save starts, and the
    durable copy stays as it was. *)
Definition wedged (s : state) : Prop := isSaving s = true /\ running s = [].

Lemma wedged_step s ev :
  wedged s ->
  wedged (step P s ev) /\ db_file (step P s ev) = db_file s.
Proof.
  unfold wedged. intros [Hsav Hrun]. destruct ev as [call sql params| |]; simpl.
  - unfold execute. destruct (isInitialized s); simpl; [|easy].
    destruct (db_run P sql params (db s)) as [d|e]; [|easy].
    unfold scheduleSave, saveDbToIndexedDB. simpl. rewrite Hsav. simpl. easy.
  - now rewrite Hrun.
  - now rewrite Hrun.
Qed.

Lemma wedged_run s trace :
  wedged s ->
  wedged (run P s trace) /\ db_file (run P s trace) = db_file s.
Proof.
  revert s. induction trace as [|ev trace IH]; intros s Hs; [easy|].
  simpl. destruct (wedged_step s ev Hs) as [Hw Hf].
  destruct (IH _ Hw) as [Hw' Hf']. split; [exact Hw'|]. now rewrite Hf', Hf.
Qed.

Lemma run_app s t1 t2 : run P s (t1 ++ t2) = run P (run P s t1) t2.
Proof. unfold run. apply fold_left_app. Qed.

(** A wedged service starts no durable write. *)
Lemma wedged_writes s trace : wedged s -> writes_during P s trace = 0%nat.
Proof.
  revert s. induction trace as [|ev trace IH]; intros s Hs; [reflexivity|].
  cbn [writes_during]. destruct (wedged_step s ev Hs) as [[Hsav' Hrun'] _].
  rewrite (IH _ (conj Hsav' Hrun')). unfold writes_started. rewrite Hrun'.
  destruct Hs as [_ ->]. now destruct ev.
Qed.

Lemma scheduleSave_instance call waited s :
  db (scheduleSave call waited s) = db s /\
  isInitialized (scheduleSave call waited s) = isInitialized s.
Proof.
  unfold scheduleSave, saveDbToIndexedDB. destruct (isSaving s); split; reflexivity.
Qed.

Lemma resume_instance call s :
  db (resume call s) = db s /\ isInitialized (resume call s) = isInitialized s.
Proof.
  unfold resume. cbn [saveQueue set_flags].
  destruct (saveQueue s); [|split; reflexivity].
  destruct (scheduleSave_instance call true
              (set_flags false false (set_flags false true s))) as [-> ->].
  split; reflexivity.
Qed.

(** What a successful statement leaves. *)
Lemma execute_ok call sql params s d :
  isInitialized s = true -> db_run P sql params (db s) = Ok d ->
  db (execute P call sql params s) = d /\
  isInitialized (execute P call sql params s) = true.
Proof.
  intros Hi Hd. unfold execute. rewrite Hi, Hd. cbn [negb].
  destruct (scheduleSave_instance call false (mutate call d s)) as [-> ->].
  split; [reflexivity|exact Hi].
Qed.

(** No statement creates or drops a table. *)
Lemma db_run_tables sql params d d' :
  db_run P sql params d = Ok d' ->
  has_events d' = has_events d /\ has_settings d' = has_settings d.
Proof.
  unfold db_run. destruct (table_exists sql d); cbn [negb]; [|discriminate].
  destruct (bind_params P sql params) as [xs|err]; cbn [bind]; [|discriminate].
  destruct sql; try (intros [= <-]; split; reflexivity).
  - unfold insert_note. destruct (key_taken _ _ _); [discriminate|].
    intros [= <-]. split; reflexivity.
  - unfold insert_note. destruct (key_taken _ _ _); [discriminate|].
    intros [= <-]. split; reflexivity.
  - unfold insert_event. destruct (_ || _); [discriminate|].
    intros [= <-]. split; reflexivity.
  - unfold insert_event. destruct (_ || _); [discriminate|].
    intros [= <-]. split; reflexivity.
  - destruct (_ && _); [discriminate|]. intros [= <-]. split; reflexivity.
  - destruct (is_null _); [discriminate|]. intros [= <-]. split; reflexivity.
Qed.

Lemma step_tables s ev :
  has_events (db (step P s ev)) = has_events (db s) /\
  has_settings (db (step P s ev)) = has_settings (db s).
Proof.
  destruct ev as [call sql params| |]; cbn [step].
  - unfold execute. destruct (isInitialized s); cbn [negb]; [|split; reflexivity].
    destruct (db_run P sql params (db s)) as [d|err] eqn:Hd; [|split; reflexivity].
    rewrite (proj1 (scheduleSave_instance _ _ _)). exact (db_run_tables _ _ _ _ Hd).
  - destruct (running s) as [|save rest]; [split; reflexivity|].
    rewrite (proj1 (resume_instance _ _)). split; reflexivity.
  - destruct (running s) as [|save rest]; split; reflexivity.
Qed.

Lemma run_tables s trace :
  has_events (db (run P s trace)) = has_events (db s) /\
  has_settings (db (run P s trace)) = has_settings (db s).
Proof.
  revert s. induction trace as [|ev trace IH]; intros s; [split; reflexivity|].
  change (run P s (ev :: trace)) with (run P (step P s ev) trace).
  destruct (IH (step P s ev)) as [-> ->]. apply step_tables.
Qed.

Lemma isInitialized_run s trace :
  isInitialized (run P s trace) = isInitialized s.
Proof.
  revert s. induction trace as [|ev trace IH]; intros s; [reflexivity|].
  simpl. rewrite IH. destruct ev as [call sql params| |]; simpl.
  - unfold execute. destruct (isInitialized s) eqn:Hi; simpl; [|exact Hi].
    destruct (db_run P sql params (db s)); simpl; [|exact Hi].
    unfold scheduleSave, saveDbToIndexedDB. simpl. now destruct (isSaving s).
  - destruct (running s) as [|save rest]; [reflexivity|].
    unfold resume, scheduleSave, saveDbToIndexedDB. simpl. now destruct (saveQueue s).
  - now destruct (running s).
Qed.

Lemma outcome_of_settle call o s : outcome_of call (settle call o s) = Some o.
Proof.
  unfold outcome_of, settle. cbn [settled List.find fst].
  rewrite Nat.eqb_refl. reflexivity.
Qed.

(** What [init] leaves, case by case. *)
Lemma init_first_run call writable :
  init P call true true writable (created None) =
    if writable then
      {| db := empty_database; applied := [call]; isInitialized := true; isSaving := false;
         saveQueue := false; running := [];
         db_file := Some {| snap_db := empty_database; snap_calls := [call] |};
         settled := [(call, Resolved true)] |}
    else
      {| db := empty_database; applied := [call]; isInitialized := false; isSaving := true;
         saveQueue := false; running := []; db_file := None;
         settled := [(call, Rejected WriteError)] |}.
Proof.
  unfold init. cbn [isInitialized created negb loadDbFromIndexedDB db_file].
  set (s1 := createSchema P call _).
  assert (H1 : s1 = {| db := empty_database; applied := [call]; isInitialized := true;
                       isSaving := true; saveQueue := false;
                       running := [{| data := {| snap_db := empty_database;
                                                 snap_calls := [call] |};
                                      awaiting := call |}];
                       db_file := None; settled := [] |}) by reflexivity.
  clearbody s1. subst s1. cbn [running].
  destruct writable.
  - change (step P _ TransactionComplete) with
      (settle call (Resolved true)
         {| db := empty_database; applied := [call]; isInitialized := true; isSaving := false;
            saveQueue := false; running := [];
            db_file := Some {| snap_db := empty_database; snap_calls := [call] |};
            settled := [] |}).
    rewrite outcome_of_settle. reflexivity.
  - change (step P _ TransactionError) with
      (settle call (Rejected WriteError)
         {| db := empty_database; applied := [call]; isInitialized := true; isSaving := true;
            saveQueue := false; running := []; db_file := None; settled := [] |}).
    rewrite outcome_of_settle. reflexivity.
Qed.

Lemma init_stored call writable dbFile :
  init P call true true writable (created (Some dbFile)) =
    {| db := snap_db dbFile; applied := snap_calls dbFile; isInitialized := true;
       isSaving := false; saveQueue := false; running := [];
       db_file := Some dbFile; settled := [] |}.
Proof. reflexivity. Qed.


Lemma init_again call engine readable writable s :
  isInitialized s = true -> init P call engine readable writable s = s.
Proof. intros H. unfold init. rewrite H. reflexivity. Qed.

End Scheduler.

(** The note that INSERT INTO notes VALUES (?, ...) stores when only the
    identifier is bound. *)
Definition bare_note (id : list Z) : Notes.row :=
  {| Notes.id := VText id; Notes.title_encrypted := VNull;
     Notes.content_encrypted := VNull; Notes.created_at := VNull;
     Notes.updated_at := VNull; Notes.tags_encrypted := VNull;
     Notes.is_favorite := VNull |}.

(** Claim C3 against the code.  At most one durable write is running in
    every state the service reaches from an opened database; but a write
    request is dropped when a durable write fails.  Two [execute] calls in
    a row, the second coalesced behind the save of the first, and then the
    failure of that save: the second call has returned normally to its
    caller, its note is the content of the in-memory table, the pending
    flag it raised is never looked at again, and whatever happens later no
    durable write starts and the durable copy stays the database as it was
    opened, without the note. *)
Theorem write_request_dropped_after_failed_write (P : Platform) (d : Database)
    (later : list event) :
  let s := run P (opened d)
             [Execute 1 DeleteAllNotes []; Execute 2 InsertNoteValues [JStr (lit "n1")];
              TransactionError] in
  (forall trace, (length (running (run P (opened d) trace)) <= 1)%nat) /\
  outcome_of 1 s = Some (Rejected WriteError) /\
  outcome_of 2 s = Some (Resolved false) /\
  notes (db s) = [bare_note (lit "n1")] /\
  saveQueue s = true /\ isSaving s = true /\ running s = [] /\
  let s' := run P s later in
  writes_during P s later = 0%nat /\
  running s' = [] /\
  db_file s' = Some {| snap_db := d; snap_calls := [] |}.
Proof.
  intros s.
  split; [intros trace; apply (inv_one _ (Inv_run P (opened d) trace (Inv_opened d)))|].
  assert (Hw : wedged s) by (split; reflexivity).
  do 6 (split; [reflexivity|]).
  intros s'. split; [exact (wedged_writes P s later Hw)|].
  destruct (wedged_run P s later Hw) as [[_ Hrun] Hfile].
  split; [exact Hrun|]. subst s'. rewrite Hfile. reflexivity.
Qed.




(** Claim C5 against the code.  When the durable write started by an
    [execute] call fails, the in-memory instance keeps the mutation, but
    the call itself is rejected with the write error, and [isSaving] is
    left raised with no save running: whatever happens later, no durable
    write starts again and the durable copy stays as it was when the
    database was opened. *)
Theorem write_failure_stops_all_saving (P : Platform) (d : Database) (call : nat)
    (later : list event) :
  let s := run P (opened d) [Execute call DeleteAllNotes []; TransactionError] in
  settled s = [(call, Rejected WriteError)] /\
  notes (db s) = [] /\
  isSaving s = true /\ running s = [] /\
  let s' := run P s later in
  isSaving s' = true /\ running s' = [] /\
  db_file s' = Some {| snap_db := d; snap_calls := [] |}.
Proof.
  simpl. repeat split.
  all: set (s := settle call _ _);
    destruct (wedged_run P s later (conj eq_refl eq_refl)) as [[Hsav Hrun] Hfile];
    assumption.
Qed.

(** * Properties: encryption and unlock *)

Import CryptoService AuthController.

(** A well-formed string without a leading U+FEFF that is within the
    argument limit survives encryption followed by decryption under the
    same key. *)
Lemma decrypt_encrypt_wellformed (P : Platform) (s : list Z) (k : CryptoKey P) (e : Entropy) :
  isWellFormed s = true -> has_bom s = false -> fits P s = true ->
  exists blob, encrypt P s k e = Ok blob /\ decrypt P blob k = Some s.
Proof.
  intros Hwf Hbom Hfits.
  destruct (decrypt_encrypt_general P s k e (TextEncoder_encode_bytes s Hwf) Hfits)
    as (blob & He & Hd).
  exists blob. split; [exact He|]. now rewrite Hd, TextDecoder_TextEncoder.
Qed.

(** An ASCII string is its own UTF-8 encoding. *)
Lemma TextEncoder_encode_ascii s :
  Forall (fun u => 0 <= u < 128) s -> TextEncoder_encode s = s.
Proof.
  unfold TextEncoder_encode. induction 1 as [|u t Hu _ IH]; [reflexivity|].
  rewrite to_scalar_values_cons.
  unfold is_high_surrogate, is_low_surrogate.
  destruct (Z.leb_spec 0xD800 u); [lia|]. destruct (Z.leb_spec 0xDC00 u); [lia|].
  cbn [andb flat_map]. rewrite IH. unfold utf8_encode_scalar.
  destruct (Z.ltb_spec u 0x80); [reflexivity|lia].
Qed.

(** A string of [n] letters A: [n] bytes. *)
Lemma TextEncoder_encode_repeat n : TextEncoder_encode (repeat 0x41 n) = repeat 0x41 n.
Proof.
  apply TextEncoder_encode_ascii. apply List.Forall_forall.
  intros u Hu. apply repeat_spec in Hu. lia.
Qed.

(** Claim C1 does not hold of the code, in two ways.  A leading U+FEFF is
    lost: the string U+FEFF "a", which is well formed, is encrypted without
    error on every platform and decrypts under the same key to "a" (the
    decoder is created with [ignoreBOM] false and drops the mark).  And
    [encrypt] takes no long string: whenever the nonce, the UTF-8 bytes and
    the tag are more than the engine passes as arguments it throws a
    RangeError, as for the string of [max_arguments] letters A, so that
    there is no blob to decrypt. *)
Theorem decrypt_encrypt_not_identity :
  (exists s plain : list Z,
     plain <> s /\ isWellFormed s = true /\
     forall (P : Platform) (k : CryptoKey P) (e : Entropy),
     exists blob, encrypt P s k e = Ok blob /\ decrypt P blob k = Some plain) /\
  (forall (P : Platform) (s : list Z) (k : CryptoKey P) (e : Entropy),
     fits P s = false -> encrypt P s k e = Throw RangeError) /\
  (forall (P : Platform) (k : CryptoKey P) (e : Entropy),
     isWellFormed (repeat 0x41 (max_arguments P)) = true /\
     has_bom (repeat 0x41 (max_arguments P)) = false /\
     encrypt P (repeat 0x41 (max_arguments P)) k e = Throw RangeError).
Proof.
  split; [|split].
  - exists [0xFEFF; 0x61], [0x61]. split; [discriminate|]. split; [reflexivity|].
    intros P k e.
    destruct (decrypt_encrypt_general P [0xFEFF; 0x61] k e) as (blob & He & Hd).
    + apply TextEncoder_encode_bytes. reflexivity.
    + apply fits_short, Nat.leb_le. vm_compute. reflexivity.
    + exists blob. split; [exact He|]. rewrite Hd. reflexivity.
  - intros P s k e. apply encrypt_over_limit.
  - intros P k e. split; [|split].
    + induction (max_arguments P) as [|n IH]; [reflexivity|].
      cbn [repeat]. rewrite isWellFormed_cons. exact IH.
    + destruct (max_arguments P); reflexivity.
    + apply encrypt_over_limit. unfold fits.
      rewrite TextEncoder_encode_repeat, repeat_length. apply Nat.leb_gt. lia.
Qed.

(** An unpaired surrogate does not survive either: the encoder replaces it
    by U+FFFD. *)
Lemma decrypt_encrypt_replaces_lone_surrogate (P : Platform) (k : CryptoKey P) (e : Entropy) :
  exists blob, encrypt P [0xD800] k e = Ok blob /\ decrypt P blob k = Some [0xFFFD].
Proof.
  destruct (decrypt_encrypt_general P [0xD800] k e) as (blob & He & Hd).
  - apply forallb_is_byte. reflexivity.
  - apply fits_short, Nat.leb_le. vm_compute. reflexivity.
  - exists blob. split; [exact He|]. rewrite Hd. reflexivity.
Qed.

Lemma encrypt_nonempty (P : Platform) s (k : CryptoKey P) e blob :
  Forall bytep (TextEncoder_encode s) ->
  encrypt P s k e = Ok blob -> blob <> [].
Proof.
  intros Hpt He.
  destruct (fits P s) eqn:Hfits;
    [|rewrite (encrypt_over_limit P s k e Hfits) in He; discriminate He].
  destruct (decrypt_of_encrypt P s k e Hpt Hfits) as (blob' & He' & Hne & _).
  rewrite He in He'. now injection He' as <-.
Qed.

(** [setupNewPIN] from a state that is new: what it stores and returns. *)
Lemma setupNewPIN_new (P : Platform) pin e ls (c : AuthController.state P) :
  isNewUser c = true ->
  let key := deriveKeyFromPIN P pin (generateSalt e) in
  exists token,
    encrypt P (lit "verified") key (advance 16 e) = Ok token /\
    decrypt P token key = Some (lit "verified") /\
    token <> [] /\
    setupNewPIN P pin e ls c =
      Ok (c, credentials P e token ls, [alert_setup_complete; location_reload]).
Proof.
  intros Hnew key.
  destruct (decrypt_encrypt_wellformed P (lit "verified") key (advance 16 e))
    as (token & He & Hd); [reflexivity|reflexivity|apply fits_short, Nat.leb_le; vm_compute; reflexivity|].
  exists token. repeat split; try assumption.
  - eapply encrypt_nonempty; [|exact He]. apply TextEncoder_encode_bytes. reflexivity.
  - unfold setupNewPIN. rewrite Hnew. cbn [negb]. fold key. rewrite He. reflexivity.
Qed.

Lemma load_credentials (P : Platform) e token ls :
  token <> [] -> load P (credentials P e token ls) = awaitingPIN P.
Proof.
  intros Hne. unfold load, init, credentials.
  rewrite lookup_insert_eq.
  rewrite lookup_insert_ne by discriminate. rewrite lookup_insert_eq.
  pose proof (JSON_stringify_nonempty P (JArr (List.map JNum (generateSalt e)))) as Hs.
  destruct (JSON_stringify P _); [contradiction|].
  destruct token; [contradiction|]. reflexivity.
Qed.

Lemma handleUnlockAttempt_credentials (P : Platform) e token ls pin (c : AuthController.state P) :
  handleUnlockAttempt P (credentials P e token ls) pin c =
    let key := deriveKeyFromPIN P pin (generateSalt e) in
    if decide (decrypt P token key = Some (lit "verified")) then
      Ok ({| isLocked := false; isNewUser := isNewUser c; masterKey := Some key |},
          [dispatch_app_unlocked P key])
    else Ok (c, [dispatch_unlock_failed]).
Proof.
  unfold handleUnlockAttempt, credentials.
  rewrite lookup_insert_eq.
  rewrite lookup_insert_ne by discriminate. rewrite lookup_insert_eq.
  cbn [nullable_string].
  rewrite JSON_bytes by apply getRandomValues_bytes.
  rewrite new_Uint8Array_bytes by apply getRandomValues_bytes.
  reflexivity.
Qed.

(** With no credential record stored, a page load ends in Uninitialized. *)
Lemma load_without_credentials (P : Platform) (ls : LocalStorage) :
  ls !! "user_salt"%string = None \/ ls !! "verification_data"%string = None ->
  load P ls = uninitialized P.
Proof.
  intros H. unfold load, init.
  destruct H as [-> | ->]; simpl; [reflexivity|].
  now rewrite orb_true_r.
Qed.

(** Once a credential record exists there is no second setup: the guard
    returns before anything is drawn, stored or shown. *)
Lemma setupNewPIN_not_new (P : Platform) pin e ls (c : AuthController.state P) :
  isNewUser c = false -> setupNewPIN P pin e ls c = Ok (c, ls, []).
Proof. intros H. unfold setupNewPIN. now rewrite H. Qed.

(** A PIN is its own UTF-8 encoding. *)
Lemma isPin_encode pin : Validator.isPin pin = true -> TextEncoder_encode pin = pin.
Proof.
  intros H. destruct (pin_digits pin H) as (a & b & c & d & -> & Ha & Hb & Hc & Hd).
  apply TextEncoder_encode_ascii.
  repeat (apply List.Forall_cons; [lia|]). apply List.Forall_nil.
Qed.

(** Different PINs derive different keys, for each salt. *)
Lemma deriveKeyFromPIN_pins (P : Platform) pin pin' salt :
  Validator.isPin pin = true -> Validator.isPin pin' = true -> pin' <> pin ->
  deriveKeyFromPIN P pin' salt <> deriveKeyFromPIN P pin salt.
Proof.
  intros Hp Hp' Hne E. unfold deriveKeyFromPIN in E.
  rewrite (isPin_encode pin Hp), (isPin_encode pin' Hp') in E.
  apply Hne. exact (pbkdf2_pins P pin' pin salt 200000 Hp' Hp E).
Qed.

(** Claim C2.  For PINs in the sense of [Validator.isPin] (four digits):
    after [setupNewPIN(pin)] has stored the salt and the verification token
    and the page has reloaded (state AwaitingPIN), an unlock attempt with
    the same pin derives the same key, decrypts the token to the text
    "verified", sets [isLocked] to false, keeps the key as [masterKey] and
    dispatches it with [app-unlocked]; an attempt with any other PIN fails:
    the state stays AwaitingPIN ([isLocked] true, no key held or
    dispatched) and only the unspecific [unlock-failed] is dispatched. *)
Theorem unlock_after_setup (P : Platform) (pin pin' : list Z) (e : Entropy)
    (ls : LocalStorage) :
  Validator.isPin pin = true -> Validator.isPin pin' = true -> pin' <> pin ->
  let salt := generateSalt e in
  let key := deriveKeyFromPIN P pin salt in
  exists ls',
    setupNewPIN P pin e ls (uninitialized P) =
      Ok (uninitialized P, ls', [alert_setup_complete; location_reload]) /\
    load P ls' = awaitingPIN P /\
    handleUnlockAttempt P ls' pin (load P ls') =
      Ok (unlocked P key, [dispatch_app_unlocked P key]) /\
    handleUnlockAttempt P ls' pin' (load P ls') =
      Ok (awaitingPIN P, [dispatch_unlock_failed]).
Proof.
  intros Hp Hp' Hne salt key.
  destruct (setupNewPIN_new P pin e ls (uninitialized P) eq_refl)
    as (token & He & Hd & Htok & Hsetup).
  exists (credentials P e token ls).
  rewrite (load_credentials P e token ls Htok), !handleUnlockAttempt_credentials.
  cbv zeta. subst salt key.
  repeat split.
  - exact Hsetup.
  - destruct (decide _) as [_|Hn]; [reflexivity|contradiction].
  - assert (Hfail : decrypt P token (deriveKeyFromPIN P pin' (generateSalt e)) = None).
    { eapply decrypt_encrypt_other_key; [|exact He|].
      - apply TextEncoder_encode_bytes. reflexivity.
      - intros E. exact (deriveKeyFromPIN_pins P pin pin' _ Hp Hp' Hne (eq_sym E)). }
    rewrite Hfail. destruct (decide _) as [E|_]; [discriminate E|reflexivity].
Qed.

(** Claim C2 on the reference platform: set up with "1234", then attempts
    with "1234" and with "0000". *)
Lemma unlock_after_setup_witness :
  let P := reference_platform in
  let salt := generateSalt Reference.entropy in
  Validator.isPin (lit "1234") = true /\ Validator.isPin (lit "0000") = true /\
  lit "0000" <> lit "1234" /\
  exists ls',
    setupNewPIN P (lit "1234") Reference.entropy ∅ (uninitialized P) =
      Ok (uninitialized P, ls', [alert_setup_complete; location_reload]) /\
    load P ls' = awaitingPIN P /\
    handleUnlockAttempt P ls' (lit "1234") (load P ls') =
      Ok (unlocked P (deriveKeyFromPIN P (lit "1234") salt),
          [dispatch_app_unlocked P (deriveKeyFromPIN P (lit "1234") salt)]) /\
    handleUnlockAttempt P ls' (lit "0000") (load P ls') =
      Ok (awaitingPIN P, [dispatch_unlock_failed]).
Proof.
  assert (H : lit "0000" <> lit "1234") by discriminate.
  split; [reflexivity|]. split; [reflexivity|]. split; [exact H|].
  exact (unlock_after_setup reference_platform (lit "1234") (lit "0000")
           Reference.entropy ∅ eq_refl eq_refl H).
Defined.

(** Claim C8, as amended.  From the Uninitialized state, [setupNewPIN(pin)]
    draws a 16-byte salt, derives the key from the pin and the salt,
    encrypts the text "verified" under it (a token that decrypts back
    under that key), stores the salt and the token under their two names
    in [localStorage] and nothing else, and then reloads the page without
    keeping or dispatching the key: the controller is returned unchanged
    and the reloaded page is in AwaitingPIN. *)
Theorem setupNewPIN_persists_then_reloads (P : Platform) (pin : list Z) (e : Entropy)
    (ls : LocalStorage) :
  let salt := generateSalt e in
  let key := deriveKeyFromPIN P pin salt in
  exists token ls',
    length salt = 16%nat /\
    encrypt P (lit "verified") key (advance 16 e) = Ok token /\
    decrypt P token key = Some (lit "verified") /\
    setupNewPIN P pin e ls (uninitialized P) =
      Ok (uninitialized P, ls', [alert_setup_complete; location_reload]) /\
    ls' !! "user_salt"%string = Some (JSON_stringify P (JArr (List.map JNum salt))) /\
    ls' !! "verification_data"%string = Some token /\
    (forall name, name <> "user_salt"%string -> name <> "verification_data"%string ->
       ls' !! name = ls !! name) /\
    load P ls' = awaitingPIN P.
Proof.
  intros salt key.
  destruct (setupNewPIN_new P pin e ls (uninitialized P) eq_refl)
    as (token & He & Hd & Htok & Hsetup).
  exists token, (credentials P e token ls).
  split; [apply getRandomValues_length|].
  repeat split; try assumption.
  - unfold credentials. rewrite lookup_insert_ne by discriminate.
    apply lookup_insert_eq.
  - unfold credentials. apply lookup_insert_eq.
  - intros name H1 H2. unfold credentials.
    rewrite !lookup_insert_ne by congruence. reflexivity.
  - apply load_credentials, Htok.
Qed.

(** Claim C8 as stated fails: after [setupNewPIN] the controller holds no
    key and is still locked, [app-unlocked] was not dispatched, a reload
    was requested, and the reloaded controller holds no key either. *)
Lemma setupNewPIN_holds_no_key :
  exists pin : list Z,
    forall (P : Platform) (e : Entropy) (ls : LocalStorage),
    exists c' ls' effects,
      setupNewPIN P pin e ls (uninitialized P) = Ok (c', ls', effects) /\
      masterKey c' = None /\ isLocked c' = true /\
      (forall key, ~ In (dispatch_app_unlocked P key) effects) /\
      In location_reload effects /\
      masterKey (load P ls') = None /\ isLocked (load P ls') = true.
Proof.
  exists (lit "1234"). intros P e ls.
  destruct (setupNewPIN_new P (lit "1234") e ls (uninitialized P) eq_refl)
    as (token & _ & _ & Htok & Hsetup).
  exists (uninitialized P), (credentials P e token ls),
    [alert_setup_complete; location_reload].
  rewrite (load_credentials P e token ls Htok). repeat split; try assumption.
  - intros key [H|[H|[]]]; discriminate H.
  - right. now left.
Qed.

(** * Properties: the Note and Event models *)

Import CryptoService StorageService.

(** Without the events table every range query throws, and every
    statement on the table is refused. *)
Lemma findByDateRange_no_table (P : Platform) (s : state)
    (startDate endDate : Z) (masterKey : CryptoKey P) :
  isInitialized s = true -> has_events (db s) = false ->
  Event.findByDateRange P s startDate endDate masterKey = Throw SqlError.
Proof.
  intros Hinit Htable. unfold Event.findByDateRange, query.
  rewrite Hinit, Htable. reflexivity.
Qed.

Lemma insert_event_no_table (P : Platform) (s : state) call params :
  isInitialized s = true -> has_events (db s) = false ->
  outcome_of call (execute P call InsertEvent params s) = Some (Rejected SqlError).
Proof.
  intros Hinit Htable. unfold execute, db_run. rewrite Hinit.
  cbn [negb table_exists]. rewrite Htable. cbn [negb].
  apply outcome_of_settle.
Qed.

(** Claim C9 against the code.  [createSchema] hands the whole schema
    script to [execute], which calls [db.run(sql, params)] with
    [params = []]; with parameters given the engine runs the first
    statement of the text only, so a first run creates the notes table and
    no other.  On the service a successful first [init] leaves, and after
    anything the callers and the durable store do from there, no event can
    be stored (the INSERT is rejected) and [Event.findByDateRange] throws
    for every range instead of returning events; the same holds on every
    later run, which loads a database file without the events table. *)
Theorem findByDateRange_without_events_table (P : Platform) (call : nat)
    (trace : list event) (startDate endDate : Z) (masterKey : CryptoKey P) :
  (let s := run P (init P call true true true (created None)) trace in
   isInitialized s = true /\
   has_events (db s) = false /\
   (forall call' params,
      outcome_of call' (execute P call' InsertEvent params s) =
        Some (Rejected SqlError)) /\
   Event.findByDateRange P s startDate endDate masterKey = Throw SqlError) /\
  (forall dbFile : Snapshot,
     has_events (snap_db dbFile) = false ->
     let s := run P (init P call true true true (created (Some dbFile))) trace in
     isInitialized s = true /\
     has_events (db s) = false /\
     Event.findByDateRange P s startDate endDate masterKey = Throw SqlError).
Proof.
  split.
  - intros s.
    assert (Hi : isInitialized s = true).
    { subst s. rewrite isInitialized_run, init_first_run. reflexivity. }
    assert (Ht : has_events (db s) = false).
    { subst s. rewrite (proj1 (run_tables P _ trace)), init_first_run. reflexivity. }
    split; [exact Hi|]. split; [exact Ht|]. split.
    + intros call' params. now apply insert_event_no_table.
    + now apply findByDateRange_no_table.
  - intros dbFile Hfile s.
    assert (Hi : isInitialized s = true).
    { subst s. rewrite isInitialized_run, init_stored. reflexivity. }
    assert (Ht : has_events (db s) = false).
    { subst s. rewrite (proj1 (run_tables P _ trace)), init_stored. exact Hfile. }
    split; [exact Hi|]. split; [exact Ht|]. now apply findByDateRange_no_table.
Qed.

(** Three stored events, at times 30, 10 and 20 in storage order. *)
Definition sample_event (name : string) (time : Z) : Events.row :=
  {| Events.id := VText (lit name); Events.title_encrypted := VText (lit "!");
     Events.description_encrypted := VNull; Events.start_time := VInt time;
     Events.end_time := VNull; Events.is_all_day := VInt 0;
     Events.calendar_type := VText (lit "gregorian"); Events.rrule_encrypted := VNull |}.

(** A database with the three tables, as a corrected schema would make
    it. *)
Definition sample_events : Database :=
  {| notes := [];
     events := [sample_event "c" 30; sample_event "a" 10; sample_event "b" 20];
     settings := []; has_events := true; has_settings := true |}.

(** Text that is not Base64: [atob] throws on it, whatever the key. *)
Lemma decrypt_not_base64 (P : Platform) (key : CryptoKey P) :
  decrypt P (lit "!") key = None.
Proof. reflexivity. Qed.

(** Claim C6, as amended.  A field whose decryption fails does not fail the
    read of its row: [Event.decryptRow] always returns an event, whose
    title, description and recurrence rule are what [decrypt] returned for
    each of them separately ([null] for a failed one); [Note.decryptRow]
    returns a note with [null] tags when the tags fail to decrypt, its
    title and content being what [decrypt] returned for each ([null] for a
    failed one); a note read is rejected only when the tags decrypt to text
    that [JSON.parse] refuses.  A failed field is never replaced by an
    empty string. *)
Theorem decryption_failure_yields_null_fields (P : Platform) (masterKey : CryptoKey P) :
  (forall row : Events.row,
     let event := Event.decryptRow P row masterKey in
     Event.id event = Events.id row /\
     Event.startTime event = Events.start_time row /\
     Event.title event = decrypt P (js_text P (Events.title_encrypted row)) masterKey /\
     Event.description event =
       decrypt P (js_text P (Events.description_encrypted row)) masterKey /\
     (decrypt P (js_text P (Events.rrule_encrypted row)) masterKey = None ->
      Event.rrule event = None)) /\
  (forall row : Notes.row,
     decrypt P (js_text P (Notes.tags_encrypted row)) masterKey = None ->
     Note.decryptRow P row masterKey =
       Ok {| Note.id := Notes.id row;
             Note.title := decrypt P (js_text P (Notes.title_encrypted row)) masterKey;
             Note.content := decrypt P (js_text P (Notes.content_encrypted row)) masterKey;
             Note.tags := JNull;
             Note.createdAt := Notes.created_at row;
             Note.updatedAt := Notes.updated_at row;
             Note.isFavorite := bool_decide (Notes.is_favorite row = VInt 1) |}) /\
  (forall (row : Notes.row) tags_text tags,
     decrypt P (js_text P (Notes.tags_encrypted row)) masterKey = Some tags_text ->
     JSON_parse P tags_text = Some tags ->
     exists note,
       Note.decryptRow P row masterKey = Ok note /\
       Note.title note = decrypt P (js_text P (Notes.title_encrypted row)) masterKey /\
       Note.content note = decrypt P (js_text P (Notes.content_encrypted row)) masterKey /\
       Note.tags note = tags) /\
  (forall (row : Notes.row) e,
     Note.decryptRow P row masterKey = Throw e ->
     e = SyntaxError /\
     exists tags_text,
       decrypt P (js_text P (Notes.tags_encrypted row)) masterKey = Some tags_text /\
       JSON_parse P tags_text = None).
Proof.
  repeat split.
  - unfold Event.decryptRow. simpl.
    intros ->. now destruct (truthy _).
  - intros row Hfail. unfold Note.decryptRow. rewrite Hfail. simpl.
    now rewrite JSON_null.
  - intros row text tags Hd Hp. unfold Note.decryptRow. rewrite Hd. simpl.
    rewrite Hp. eexists. split; [reflexivity|]. now repeat split.
  - revert H. unfold Note.decryptRow.
    destruct (JSON_parse P _); [discriminate|]. now intros [= <-].
  - revert H. unfold Note.decryptRow.
    destruct (decrypt P (js_text P (Notes.tags_encrypted row)) masterKey)
      as [text|] eqn:Hd; simpl.
    + destruct (JSON_parse P text) eqn:Hp; [discriminate|]. intros _. now exists text.
    + now rewrite JSON_null.
Qed.

(** A stored note whose title is not even Base64, next to a content that
    was encrypted properly. *)
Definition damaged_note (content_encrypted : list Z) : Notes.row :=
  {| Notes.id := VText (lit "n1"); Notes.title_encrypted := VText (lit "!");
     Notes.content_encrypted := VText content_encrypted;
     Notes.created_at := VInt 1; Notes.updated_at := VInt 2;
     Notes.tags_encrypted := VText (lit "!"); Notes.is_favorite := VInt 0 |}.

(** Claim C6 as stated fails: reading the damaged note through
    [Note.findById] succeeds on every platform and returns a note whose
    title is [null] while its content is the properly decrypted "B". *)
Lemma damaged_note_is_returned_with_null_title :
  exists title_encrypted : list Z,
    forall (P : Platform) (masterKey : CryptoKey P) (e : Entropy),
    exists content_encrypted,
      encrypt P (lit "B") masterKey e = Ok content_encrypted /\
      decrypt P title_encrypted masterKey = None /\
      Note.findById P
        (opened {| notes := [damaged_note content_encrypted]; events := [];
                   settings := []; has_events := false; has_settings := false |})
        (VText (lit "n1")) masterKey =
      Ok (Some {| Note.id := VText (lit "n1"); Note.title := None;
                  Note.content := Some (lit "B"); Note.tags := JNull;
                  Note.createdAt := VInt 1; Note.updatedAt := VInt 2;
                  Note.isFavorite := false |}).
Proof.
  exists (lit "!"). intros P masterKey e.
  destruct (decrypt_encrypt_wellformed P (lit "B") masterKey e eq_refl eq_refl)
    as (blob & He & Hd); [apply fits_short, Nat.leb_le; vm_compute; reflexivity|].
  exists blob. split; [exact He|]. split; [reflexivity|].
  unfold Note.findById, query. simpl.
  unfold Note.decryptRow, damaged_note, js_text. simpl.
  rewrite !js_String_string, Hd.
  change (decrypt P (lit "!") masterKey) with (@None (list Z)). simpl.
  now rewrite JSON_null.
Qed.

(** Claim C6 (amended) on the reference platform: a note none of whose
    fields decrypts is returned with every such field [null]. *)
Lemma decryption_failure_yields_null_fields_witness :
  let P := reference_platform in
  let row := damaged_note (lit "!") in
  decrypt P (js_text P (Notes.tags_encrypted row)) (Reference.key 7) = None /\
  Note.decryptRow P row (Reference.key 7) =
    Ok {| Note.id := VText (lit "n1"); Note.title := None; Note.content := None;
          Note.tags := JNull; Note.createdAt := VInt 1; Note.updatedAt := VInt 2;
          Note.isFavorite := false |}.
Proof.
  split; [reflexivity|].
  exact (proj1 (proj2 (decryption_failure_yields_null_fields reference_platform (Reference.key 7)))
           (damaged_note (lit "!")) eq_refl).
Defined.

(** * Properties: backup import *)

Import SettingsController.

(** The statements the import sends. *)
Definition import_statement (sql : Sql) : bool :=
  match sql with
  | DeleteAllNotes | DeleteAllEvents | InsertNoteValues | InsertEventValues => true
  | _ => false
  end.

(** What every step of the import preserves of the world it started in. *)
Record framed (w w' : world) : Prop := {
  frame_settings : settings (database w') = settings (database w);
  frame_ready : ready w' = ready w;
  frame_storage : forall name : string,
    name <> "user_salt"%string -> name <> "verification_data"%string ->
    storage w' !! name = storage w !! name;
  frame_journal : exists extra,
    journal w' = journal w ++ extra /\ forallb import_statement extra = true;
  frame_quiet : journal w' = journal w -> database w' = database w
}.

Lemma framed_refl w : framed w w.
Proof.
  split; try reflexivity. exists []. now rewrite app_nil_r.
Qed.

Lemma app_same_nil {A} (l x : list A) : l ++ x = l -> x = [].
Proof.
  intros H. apply (app_inv_head l). now rewrite app_nil_r.
Qed.

Lemma framed_trans w1 w2 w3 : framed w1 w2 -> framed w2 w3 -> framed w1 w3.
Proof.
  intros [A1 A2 A3 (x1 & A4 & A5) A6] [B1 B2 B3 (x2 & B4 & B5) B6]. split.
  - now rewrite B1.
  - now rewrite B2.
  - intros name H1 H2. now rewrite B3, A3.
  - exists (x1 ++ x2). rewrite B4, A4, <- app_assoc. split; [reflexivity|].
    rewrite forallb_app, A5, B5. reflexivity.
  - intros Hj. rewrite B4, A4, <- app_assoc in Hj.
    apply app_same_nil, app_eq_nil in Hj as [-> ->].
    rewrite app_nil_r in A4, B4. now rewrite (B6 B4), (A6 A4).
Qed.

Section Restore.
Context (P : Platform).

Lemma db_run_settings sql params d d' :
  import_statement sql = true -> db_run P sql params d = Ok d' ->
  settings d' = settings d.
Proof.
  unfold db_run. destruct (table_exists sql d); cbn [negb]; [|discriminate].
  destruct (bind_params P sql params) as [xs|e]; [|discriminate].
  simpl. destruct sql; try discriminate; intros _.
  - unfold insert_note. destruct (key_taken _ _ _); [discriminate|]. now intros [= <-].
  - now intros [= <-].
  - unfold insert_event. destruct (_ || _); [discriminate|]. now intros [= <-].
  - now intros [= <-].
Qed.

Lemma execute_framed sql params write_ok w :
  import_statement sql = true ->
  framed w (snd (execute P sql params write_ok w)).
Proof.
  intros Hsql. unfold execute.
  destruct (ready w) eqn:Hready; simpl; [|apply framed_refl].
  destruct (db_run P sql params (database w)) as [d|e] eqn:Hrun; simpl;
    [|apply framed_refl].
  split; simpl.
  - eapply db_run_settings; eassumption.
  - now rewrite Hready.
  - reflexivity.
  - exists [sql]. split; [reflexivity|]. simpl. now rewrite Hsql.
  - intros Hj. apply app_same_nil in Hj. discriminate Hj.
Qed.

(** A statement that ran is in the journal, whatever became of its write. *)
Lemma execute_journal sql params write_ok w :
  let r := execute P sql params write_ok w in
  (journal (snd r) = journal w /\ exists e, fst r = Throw e) \/
  journal (snd r) = journal w ++ [sql].
Proof.
  unfold execute. destruct (ready w); simpl; [|left; eauto].
  destruct (db_run P sql params (database w)); simpl; [now right|left; eauto].
Qed.

Lemma insert_all_framed sql rows writes w :
  import_statement sql = true ->
  framed w (snd (insert_all P sql rows writes w)).
Proof.
  intros Hsql. revert writes w.
  induction rows as [|row rows IH]; intros writes w; simpl; [apply framed_refl|].
  destruct (Object_values row) as [values|e]; simpl; [|apply framed_refl].
  pose proof (execute_framed sql values (hd true writes) w Hsql) as Hex.
  destruct (execute P sql values (hd true writes) w) as [[u|e] w']; simpl in *.
  - eapply framed_trans; [exact Hex|apply IH].
  - exact Hex.
Qed.

Lemma clear_database_framed writes w :
  framed w (snd (clear_database P writes w)).
Proof.
  unfold clear_database.
  pose proof (execute_framed DeleteAllNotes [] (hd true writes) w eq_refl) as H1.
  destruct (execute P DeleteAllNotes [] (hd true writes) w) as [[u1|e1] w1];
    simpl in *; [|exact H1].
  pose proof (execute_framed DeleteAllEvents [] (hd true (tl writes)) w1 eq_refl) as H2.
  destruct (execute P DeleteAllEvents [] (hd true (tl writes)) w1) as [[u2|e2] w2];
    simpl in *; exact (framed_trans _ _ _ H1 H2).
Qed.

Lemma insert_backup_framed backupData writes w :
  framed w (snd (insert_backup P backupData writes w)).
Proof.
  unfold insert_backup.
  destruct (backup_rows backupData "notes") as [rows|e]; simpl; [|apply framed_refl].
  pose proof (insert_all_framed InsertNoteValues rows writes w eq_refl) as H1.
  destruct (insert_all P InsertNoteValues rows writes w) as [[ws|e1] w1];
    simpl in *; [|exact H1].
  destruct (backup_rows backupData "events") as [evs|e]; simpl; [|exact H1].
  pose proof (insert_all_framed InsertEventValues evs ws w1 eq_refl) as H2.
  destruct (insert_all P InsertEventValues evs ws w1) as [[ws'|e2] w2];
    simpl in *; exact (framed_trans _ _ _ H1 H2).
Qed.

Lemma replace_credentials_framed backupData w :
  framed w (snd (replace_credentials P backupData w)).
Proof.
  unfold replace_credentials.
  destruct (backup_credentials backupData) as [[salt vd]|e]; simpl;
    [|apply framed_refl].
  split; simpl; try reflexivity.
  - intros name Hs Hv. now rewrite !lookup_insert_ne by congruence.
  - exists []. now rewrite app_nil_r.
Qed.

Lemma restore_framed backupData writes w :
  framed w (snd (restore P backupData writes w)).
Proof.
  unfold restore.
  pose proof (clear_database_framed writes w) as H1.
  destruct (clear_database P writes w) as [[ws|e1] w1]; simpl in *; [|exact H1].
  pose proof (insert_backup_framed backupData ws w1) as H2.
  destruct (insert_backup P backupData ws w1) as [[u|e2] w2]; simpl in *;
    [|exact (framed_trans _ _ _ H1 H2)].
  exact (framed_trans _ _ _ (framed_trans _ _ _ H1 H2)
           (replace_credentials_framed backupData w2)).
Qed.

(** The first statement a restore executes, if it executes any, is
    DELETE FROM notes; the inserts come after both deletions. *)
Lemma restore_journal backupData writes w :
  journal (snd (restore P backupData writes w)) = journal w \/
  exists rest,
    journal (snd (restore P backupData writes w)) =
      journal w ++ DeleteAllNotes :: rest /\
    (rest = [] \/ exists rest', rest = DeleteAllEvents :: rest').
Proof.
  unfold restore, clear_database.
  pose proof (execute_journal DeleteAllNotes [] (hd true writes) w) as H1.
  destruct (execute P DeleteAllNotes [] (hd true writes) w) as [[u1|e1] w1];
    simpl in H1 |- *.
  2:{ destruct H1 as [[H1 _]|H1]; [now left|].
      right. exists []. split; [exact H1|now left]. }
  destruct H1 as [[_ [e He]]|H1]; [discriminate He|].
  pose proof (execute_journal DeleteAllEvents [] (hd true (tl writes)) w1) as H2.
  destruct (execute P DeleteAllEvents [] (hd true (tl writes)) w1) as [[u2|e2] w2];
    simpl in H2 |- *.
  2:{ right. destruct H2 as [[H2 _]|H2]; rewrite H2, H1.
      - exists []. split; [reflexivity|now left].
      - exists [DeleteAllEvents]. rewrite <- app_assoc.
        split; [reflexivity|]. right. now exists []. }
  destruct H2 as [[_ [e He]]|H2]; [discriminate He|].
  assert (Hrest : framed w2 (snd
            match insert_backup P backupData (tl (tl writes)) w2 with
            | (Ok _, w3) => replace_credentials P backupData w3
            | (Throw e, w3) => (Throw e, w3)
            end)).
  { pose proof (insert_backup_framed backupData (tl (tl writes)) w2) as H3.
    destruct (insert_backup P backupData (tl (tl writes)) w2) as [[u|e3] w3];
      simpl in *; [|exact H3].
    exact (framed_trans _ _ _ H3 (replace_credentials_framed backupData w3)). }
  destruct Hrest as [_ _ _ (extra & Hj & _) _].
  right. exists (DeleteAllEvents :: extra). rewrite Hj, H2, H1, <- !app_assoc.
  split; [reflexivity|]. right. now exists extra.
Qed.

(** [importData] either leaves the world untouched, or has read the backup
    and is [restore]. *)
Lemma importData_cases file pin confirmed writes w :
  let r := importData P file pin confirmed writes w in
  snd r = w /\ (forall u, r <> (ImportedAndReloading, u)) \/
  exists encryptedBackup backupData,
    file = Some encryptedBackup /\ length pin = 4%nat /\ confirmed = true /\
    read_backup P encryptedBackup pin w = Ok backupData /\
    snd r = snd (restore P backupData writes w).
Proof.
  unfold importData. destruct file as [enc|]; [|now left].
  destruct (Nat.eqb_spec (length pin) 4) as [Hlen|Hlen]; simpl; [|now left].
  destruct confirmed; simpl; [|now left].
  destruct (read_backup P enc pin w) as [backupData|e] eqn:Hread; [|now left].
  right. exists enc, backupData. repeat split; try assumption.
  now destruct (restore P backupData writes w) as [[u|e] w'].
Qed.

(** [execute] above is [StorageService.execute] awaited to its end on a
    service that is saving nothing: the same instance results, and the
    call returns as the scheduler settles it. *)
Lemma execute_is_awaited_execute (sql : Sql) (params : list json) (write_ok : bool)
    (s : StorageService.state)
    (call : nat) (ls : LocalStorage) (j : list Sql) :
  StorageService.isSaving s = false -> StorageService.running s = [] ->
  StorageService.saveQueue s = false ->
  let w := {| database := StorageService.db s; ready := StorageService.isInitialized s;
              storage := ls; journal := j |} in
  let s' := StorageService.run P s
              [StorageService.Execute call sql params;
               (if write_ok then StorageService.TransactionComplete
                else StorageService.TransactionError)] in
  database (snd (execute P sql params write_ok w)) = StorageService.db s' /\
  hd_error (StorageService.settled s') =
    Some (call, match fst (execute P sql params write_ok w) with
                | Ok _ => StorageService.Resolved true
                | Throw e => StorageService.Rejected e
                end).
Proof.
  intros Hsav Hrun Hq. simpl.
  unfold execute, StorageService.execute. simpl.
  destruct (StorageService.isInitialized s); simpl.
  2:{ destruct write_ok; simpl; rewrite Hrun; simpl; now split. }
  destruct (db_run P sql params (StorageService.db s)) as [d|e]; simpl.
  2:{ destruct write_ok; simpl; rewrite Hrun; simpl; now split. }
  unfold StorageService.scheduleSave, StorageService.saveDbToIndexedDB. simpl. rewrite Hsav. simpl.
  destruct write_ok; simpl; rewrite Hrun; simpl.
  - unfold StorageService.resume. simpl. rewrite Hq. now simpl.
  - now split.
Qed.

End Restore.

(** A backup with one note and one event, restored over a database with
    the three tables that holds another note and a setting: the old note is gone, the rows of the
    backup are in, the setting is untouched and the credentials are those
    of the backup. *)
Example restore_sample :
  let text := fun s : string => JStr (lit s) in
  let key := fun s : string => lit s in
  let backup :=
    JObj [(key "version", JNum 1);
          (key "salt", text "[9,9]");
          (key "verificationData", text "dG9rZW4=");
          (key "data",
           JObj [(key "notes",
                  JArr [JObj [(key "id", text "n2"); (key "title_encrypted", text "T");
                              (key "content_encrypted", text "C"); (key "created_at", JNum 5);
                              (key "updated_at", JNum 6); (key "tags_encrypted", text "G");
                              (key "is_favorite", JNum 1)]]);
                 (key "events",
                  JArr [JObj [(key "id", text "e1"); (key "title_encrypted", text "T");
                              (key "description_encrypted", JNull); (key "start_time", JNum 20);
                              (key "end_time", JNull); (key "is_all_day", JNum 0);
                              (key "calendar_type", text "gregorian");
                              (key "rrule_encrypted", JNull)]])])] in
  let old_note :=
    {| Notes.id := VText (lit "n1"); Notes.title_encrypted := VText (lit "t");
       Notes.content_encrypted := VText (lit "c"); Notes.created_at := VInt 1;
       Notes.updated_at := VInt 2; Notes.tags_encrypted := VText (lit "g");
       Notes.is_favorite := VInt 0 |} in
  let w := {| database := {| notes := [old_note]; events := [];
                             settings := [(VText (lit "theme"), VText (lit "dark"))];
                             has_events := true; has_settings := true |};
              ready := true;
              storage := {[ "user_salt"%string := lit "[1,2]" ]};
              journal := [] |} in
  let r := restore reference_platform backup [] w in
  fst r = Ok tt /\
  List.map Notes.id (notes (database (snd r))) = [VText (lit "n2")] /\
  List.map Events.start_time (events (database (snd r))) = [VInt 20] /\
  settings (database (snd r)) = [(VText (lit "theme"), VText (lit "dark"))] /\
  storage (snd r) !! "user_salt"%string = Some (lit "[9,9]") /\
  storage (snd r) !! "verification_data"%string = Some (lit "dG9rZW4=") /\
  journal (snd r) = [DeleteAllNotes; DeleteAllEvents; InsertNoteValues; InsertEventValues].
Proof. repeat split. Qed.

(** Claim C10.  Whatever the file, the PIN, the answers of the user and the
    fate of the durable writes, a backup import leaves the rows of the
    settings table and every [localStorage] entry other than the salt and
    the verification token as they were; the statements it executes are
    only DELETE and INSERT on the notes and events tables. *)
Theorem import_touches_only_notes_events_credentials (P : Platform)
    (file : option (list Z)) (pin : list Z) (confirmed : bool) (writes : list bool)
    (w : world) :
  let w' := snd (importData P file pin confirmed writes w) in
  settings (database w') = settings (database w) /\
  (forall name : string,
     name <> "user_salt"%string -> name <> "verification_data"%string ->
     storage w' !! name = storage w !! name) /\
  exists statements,
    journal w' = journal w ++ statements /\
    Forall (fun sql => sql = DeleteAllNotes \/ sql = DeleteAllEvents \/
                       sql = InsertNoteValues \/ sql = InsertEventValues) statements.
Proof.
  intros w'.
  assert (H : framed w w').
  { destruct (importData_cases P file pin confirmed writes w)
      as [[Hw _]|(enc & data & _ & _ & _ & _ & Hw)]; subst w'; rewrite Hw.
    - apply framed_refl.
    - apply restore_framed. }
  destruct H as [H1 _ H3 (extra & H4 & H5) _].
  split; [exact H1|]. split; [exact H3|].
  exists extra. split; [exact H4|].
  apply List.Forall_forall. intros sql Hin.
  rewrite forallb_forall in H5. specialize (H5 sql Hin).
  destruct sql; try discriminate H5; tauto.
Qed.

Import CryptoService.

Lemma read_backup_ok (P : Platform) enc pin w backupData :
  read_backup P enc pin w = Ok backupData ->
  exists parsed tempSalt text,
    JSON_parse P (nullable_string (storage w !! "user_salt"%string)) = Some parsed /\
    new_Uint8Array P parsed = Ok tempSalt /\
    decrypt P enc (deriveKeyFromPIN P pin tempSalt) = Some text /\
    text <> [] /\
    JSON_parse P text = Some backupData.
Proof.
  unfold read_backup.
  destruct (JSON_parse P (nullable_string _)) as [parsed|] eqn:Hs; [|discriminate].
  destruct (new_Uint8Array P parsed) as [tempSalt|e] eqn:Ha; [|discriminate]. simpl.
  destruct (decrypt P enc (deriveKeyFromPIN P pin tempSalt)) as [[|u text]|] eqn:Hd;
    simpl; try discriminate.
  destruct (JSON_parse P (u :: text)) as [data|] eqn:Hp; [|discriminate].
  intros [= <-]. exists parsed, tempSalt, (u :: text). now repeat split.
Qed.

(** Claim C7.  In a backup import that got past its input checks and the
    confirmation, if the decryption of the file fails, or the decrypted
    text is refused by [JSON.parse], the import ends in its error alert
    and the instance, [localStorage] and the list of executed statements
    are exactly as before.  Conversely, if any statement was executed or
    the instance changed, then the file was decrypted under the key
    derived from the PIN and the stored salt, the text was parsed, what
    ran is the restore of the parsed backup, and the first statement it
    executed is DELETE FROM notes. *)
Theorem import_destroys_nothing_before_decrypt_and_parse (P : Platform)
    (file : option (list Z)) (pin : list Z) (confirmed : bool) (writes : list bool)
    (w : world) :
  let r := importData P file pin confirmed writes w in
  (forall enc parsed tempSalt,
     file = Some enc -> length pin = 4%nat -> confirmed = true ->
     JSON_parse P (nullable_string (storage w !! "user_salt"%string)) = Some parsed ->
     new_Uint8Array P parsed = Ok tempSalt ->
     let backupJson := decrypt P enc (deriveKeyFromPIN P pin tempSalt) in
     (backupJson = None -> r = (Failed DecryptionFailed, w)) /\
     (forall text, backupJson = Some text -> JSON_parse P text = None ->
        r = (Failed DecryptionFailed, w) \/ r = (Failed SyntaxError, w))) /\
  (journal (snd r) <> journal w \/ database (snd r) <> database w ->
     exists enc parsed tempSalt text backupData,
       file = Some enc /\
       JSON_parse P (nullable_string (storage w !! "user_salt"%string)) = Some parsed /\
       new_Uint8Array P parsed = Ok tempSalt /\
       decrypt P enc (deriveKeyFromPIN P pin tempSalt) = Some text /\
       JSON_parse P text = Some backupData /\
       snd r = snd (restore P backupData writes w) /\
       exists rest, journal (snd r) = journal w ++ DeleteAllNotes :: rest).
Proof.
  intros r. split.
  - intros enc parsed tempSalt -> Hlen -> Hparse Hsalt backupJson.
    subst r backupJson. unfold importData, read_backup.
    rewrite Hlen, Hparse, Hsalt. simpl. split.
    + now intros ->.
    + intros text -> Hnone. destruct text as [|u text]; simpl; [now left|].
      rewrite Hnone. now right.
  - intros Hchanged. subst r.
    destruct (importData_cases P file pin confirmed writes w)
      as [[Hw _]|(enc & data & Hf & _ & _ & Hread & Hw)].
    { rewrite Hw in Hchanged. now destruct Hchanged. }
    destruct (read_backup_ok P enc pin w data Hread)
      as (parsed & tempSalt & text & Hs & Ha & Hd & _ & Hp).
    exists enc, parsed, tempSalt, text, data. repeat split; try assumption.
    rewrite Hw in *.
    destruct (restore_journal P data writes w) as [Hj|(rest & Hj & _)];
      [|now exists rest].
    destruct Hchanged as [Hc|Hc]; [contradiction|].
    exfalso. apply Hc.
    now apply (frame_quiet _ _ (restore_framed P data writes w)).
Qed.

(** Claim C7 on the reference platform: a file that is not Base64 fails to
    decrypt, and the import leaves the world as it was. *)
Lemma import_destroys_nothing_before_decrypt_and_parse_witness :
  let P := reference_platform in
  let w := {| database := empty_database;
              ready := true;
              storage := {[ "user_salt"%string := Reference.JSON_stringify (JArr [JNum 1; JNum 2]) ]};
              journal := [] |} in
  importData P (Some (lit "!")) (lit "1234") true [] w = (Failed DecryptionFailed, w).
Proof.
  intros P w.
  refine (proj1 (proj1 (import_destroys_nothing_before_decrypt_and_parse
            P (Some (lit "!")) (lit "1234") true [] w)
            (lit "!") (JArr [JNum 1; JNum 2]) [1; 2]
            eq_refl eq_refl eq_refl _ eq_refl) eq_refl).
  reflexivity.
Defined.

(** * Properties beyond the claims *)

(** ** CryptoService *)

Lemma to_scalar_values_string s :
  is_string s = true -> Forall (fun c => 0 <= c < 0x110000) (to_scalar_values s).
Proof.
  induction s as [| u | u v t IH1 IH2] using list_ind_pair; intros Hs.
  - constructor.
  - unfold is_string in Hs. simpl in Hs. rewrite andb_true_r in Hs.
    apply andb_true_iff in Hs as [H1 H2].
    rewrite to_scalar_values_cons. unfold is_high_surrogate, is_low_surrogate.
    repeat zcase; simpl; repeat (apply List.Forall_cons; [lia|]); apply List.Forall_nil.
  - assert (Hu : 0 <= u <= 0xFFFF /\ 0 <= v <= 0xFFFF /\ is_string (v :: t) = true /\
                 is_string t = true).
    { unfold is_string in *. simpl in Hs. simpl.
      apply andb_true_iff in Hs as [H1 Hs]. apply andb_true_iff in Hs as [H2 Hs].
      rewrite H2, Hs. split; [lia|]. split; [lia|]. split; reflexivity. }
    destruct Hu as (Hu & Hv & Hvt & Ht).
    rewrite to_scalar_values_cons.
    destruct (is_high_surrogate u) eqn:Hh.
    + destruct (is_low_surrogate v) eqn:Hl.
      * apply List.Forall_cons; [|apply IH2, Ht].
        unfold is_high_surrogate, is_low_surrogate in *. lia.
      * apply List.Forall_cons; [lia|apply IH1, Hvt].
    + destruct (is_low_surrogate u); (apply List.Forall_cons; [lia|apply IH1, Hvt]).
Qed.

Lemma TextEncoder_encode_string s :
  is_string s = true -> Forall bytep (TextEncoder_encode s).
Proof.
  intros Hs. unfold TextEncoder_encode. apply List.Forall_flat_map.
  eapply List.Forall_impl; [|apply to_scalar_values_string, Hs].
  intros c Hc. apply utf8_encode_scalar_bytes, Hc.
Qed.

Lemma isWellFormed_string s : isWellFormed s = true -> is_string s = true.
Proof.
  induction s as [| u | u v t IH1 IH2] using list_ind_pair; intros Hs.
  - reflexivity.
  - rewrite isWellFormed_cons in Hs. unfold is_string. simpl.
    destruct (is_high_surrogate u); [discriminate|]. lia.
  - rewrite isWellFormed_cons in Hs. unfold is_string in *. simpl.
    destruct (is_high_surrogate u) eqn:Hh.
    + apply andb_true_iff in Hs as [Hl Ht]. rewrite (IH2 Ht).
      unfold is_high_surrogate, is_low_surrogate in *. lia.
    + apply andb_true_iff in Hs as [Hs Ht]. apply IH1 in Ht. simpl in Ht. rewrite Ht. lia.
Qed.

(** What [encrypt] produces, for every string within the argument limit. *)
Lemma encrypt_string (P : Platform) s (k : CryptoKey P) e :
  is_string s = true -> CryptoService.fits P s = true ->
  exists blob,
    CryptoService.encrypt P s k e = Ok blob /\
    atob blob =
      Some (getRandomValues 12 e ++
            aes_gcm_encrypt P k (getRandomValues 12 e) (TextEncoder_encode s)).
Proof.
  intros Hs Hfits. unfold CryptoService.encrypt.
  rewrite combined_length.
  assert (Hlim : (max_arguments P <? length (TextEncoder_encode s) + 28)%nat = false).
  { apply Nat.ltb_ge. apply Nat.leb_le in Hfits. exact Hfits. }
  rewrite Hlim.
  assert (Hall : Forall bytep
            (getRandomValues 12 e ++
             aes_gcm_encrypt P k (getRandomValues 12 e) (TextEncoder_encode s))).
  { apply Forall_app. split; [apply getRandomValues_bytes|].
    apply aes_gcm_bytes; [apply getRandomValues_bytes|apply TextEncoder_encode_string, Hs]. }
  destruct (atob_btoa _ Hall) as (blob & Hb & Ha).
  exists blob. rewrite Hb. split; [reflexivity|exact Ha].
Qed.

Lemma app_eq_length {A} (a a' b b' : list A) :
  length a = length a' -> a ++ b = a' ++ b' -> a = a' /\ b = b'.
Proof.
  revert a'. induction a as [|x a IH]; intros [|x' a'] Hl H; try discriminate Hl.
  - split; [reflexivity|exact H].
  - simpl in H. injection H as -> H. injection Hl as Hl.
    destruct (IH a' Hl H) as [-> ->]. split; reflexivity.
Qed.

(** X26.  The round trip of [encrypt] and [decrypt], where it holds: for
    every key and state of the random generator, and every string that is
    well-formed UTF-16 (no unpaired surrogate), does not start with U+FEFF
    and is within the argument limit of [encrypt], [encrypt] returns a
    text and [decrypt] of that text under the same key returns exactly the
    string. *)
Theorem decrypt_encrypt_roundtrip (P : Platform) (s : list Z) (k : CryptoKey P)
    (e : Entropy) :
  isWellFormed s = true -> has_bom s = false -> CryptoService.fits P s = true ->
  exists blob,
    CryptoService.encrypt P s k e = Ok blob /\
    CryptoService.decrypt P blob k = Some s.
Proof. apply decrypt_encrypt_wellformed. Qed.

(** A string with a letter of two bytes, one of three and a surrogate
    pair. *)
Lemma decrypt_encrypt_roundtrip_witness :
  let P := reference_platform in
  let s := [0x68; 0xE9; 0x20AC; 0xD83D; 0xDE00] in
  isWellFormed s = true /\ has_bom s = false /\ CryptoService.fits P s = true /\
  TextEncoder_encode s = [0x68; 0xC3; 0xA9; 0xE2; 0x82; 0xAC; 0xF0; 0x9F; 0x98; 0x80] /\
  exists blob,
    CryptoService.encrypt P s (Reference.key 7) Reference.entropy = Ok blob /\
    CryptoService.decrypt P blob (Reference.key 7) = Some s.
Proof.
  split; [reflexivity|]. split; [reflexivity|]. split; [reflexivity|].
  split; [reflexivity|].
  apply (decrypt_encrypt_roundtrip reference_platform [0x68; 0xE9; 0x20AC; 0xD83D; 0xDE00]
           (Reference.key 7) Reference.entropy);
    reflexivity.
Defined.

(** X1.  [encrypt] throws for length only.  For a JavaScript string whose
    UTF-8 bytes, with the twelve bytes of the nonce and the sixteen of the
    tag, are no more than the engine takes as arguments of one call, it
    returns a Base64 text, and that text decodes to the twelve random
    bytes of the nonce followed by the AES-GCM output for the UTF-8 bytes
    of the string under that nonce.  For a longer string
    [String.fromCharCode.apply] throws a RangeError and nothing is
    returned. *)
Theorem encrypt_returns_nonce_and_ciphertext (P : Platform) (s : list Z)
    (k : CryptoKey P) (e : Entropy) :
  is_string s = true ->
  (CryptoService.fits P s = true ->
   exists blob combined,
     CryptoService.encrypt P s k e = Ok blob /\
     atob blob = Some combined /\
     length combined = (length (TextEncoder_encode s) + 28)%nat /\
     firstn 12 combined = getRandomValues 12 e /\
     length (firstn 12 combined) = 12%nat /\
     skipn 12 combined =
       aes_gcm_encrypt P k (getRandomValues 12 e) (TextEncoder_encode s)) /\
  (CryptoService.fits P s = false ->
   (max_arguments P < length (TextEncoder_encode s) + 28)%nat /\
   CryptoService.encrypt P s k e = Throw RangeError).
Proof.
  intros Hs. split.
  - intros Hfits. destruct (encrypt_string P s k e Hs Hfits) as (blob & Hb & Ha).
    exists blob. eexists. split; [exact Hb|]. split; [exact Ha|].
    split; [apply combined_length|].
    assert (Hlen : length (getRandomValues 12 e) = 12%nat) by apply getRandomValues_length.
    set (iv := getRandomValues 12 e) in *. rewrite <- Hlen.
    rewrite firstn_app, Nat.sub_diag, firstn_all, firstn_O, app_nil_r.
    rewrite skipn_app, Nat.sub_diag, skipn_all, skipn_O, app_nil_l.
    auto.
  - intros Hfits. split; [|apply encrypt_over_limit, Hfits].
    unfold CryptoService.fits in Hfits. apply Nat.leb_gt in Hfits. exact Hfits.
Qed.

Lemma encrypt_returns_nonce_and_ciphertext_witness :
  let P := reference_platform in
  let s := [0x41; 0xD800; 0x20AC] in
  let long := repeat 0x41 4069 in
  (is_string s = true /\ CryptoService.fits P s = true /\
   exists blob combined,
     CryptoService.encrypt P s (Reference.key 7) Reference.entropy = Ok blob /\
     atob blob = Some combined /\
     length combined = (length (TextEncoder_encode s) + 28)%nat /\
     firstn 12 combined = getRandomValues 12 Reference.entropy /\
     length (firstn 12 combined) = 12%nat /\
     skipn 12 combined =
       aes_gcm_encrypt P (Reference.key 7) (getRandomValues 12 Reference.entropy)
         (TextEncoder_encode s)) /\
  (is_string long = true /\ CryptoService.fits P long = false /\
   (max_arguments P < length (TextEncoder_encode long) + 28)%nat /\
   CryptoService.encrypt P long (Reference.key 7) Reference.entropy = Throw RangeError).
Proof.
  split.
  - split; [reflexivity|]. split; [reflexivity|].
    apply (proj1 (encrypt_returns_nonce_and_ciphertext reference_platform
                    [0x41; 0xD800; 0x20AC] (Reference.key 7) Reference.entropy eq_refl)).
    reflexivity.
  - assert (Hs : is_string (repeat 0x41 4069) = true) by (vm_compute; reflexivity).
    assert (Hf : CryptoService.fits reference_platform (repeat 0x41 4069) = false)
      by (vm_compute; reflexivity).
    split; [exact Hs|]. split; [exact Hf|].
    exact (proj2 (encrypt_returns_nonce_and_ciphertext reference_platform
                    (repeat 0x41 4069) (Reference.key 7) Reference.entropy Hs) Hf).
Defined.

(** X2.  A text encrypted under one key does not decrypt under another:
    for a string within the argument limit of [encrypt], [decrypt] of the
    result under any other key returns [null]. *)
Theorem decrypt_under_another_key (P : Platform) (s : list Z) (k k' : CryptoKey P)
    (e : Entropy) :
  is_string s = true -> CryptoService.fits P s = true -> k <> k' ->
  exists blob,
    CryptoService.encrypt P s k e = Ok blob /\
    CryptoService.decrypt P blob k' = None.
Proof.
  intros Hs Hfits Hk.
  destruct (decrypt_of_encrypt P s k e (TextEncoder_encode_string s Hs) Hfits)
    as (blob & Hb & _ & Hd).
  exists blob. split; [exact Hb|]. rewrite Hd.
  rewrite (aes_gcm_authentic P k k' _ _ Hk). reflexivity.
Qed.

Lemma decrypt_under_another_key_witness :
  let P := reference_platform in
  let s := lit "secret" in
  is_string s = true /\ CryptoService.fits P s = true /\
  Reference.key 7 <> Reference.key 8 /\
  exists blob,
    CryptoService.encrypt P s (Reference.key 7) Reference.entropy = Ok blob /\
    CryptoService.decrypt P blob (Reference.key 8) = None.
Proof.
  assert (Hk : Reference.key 7 <> Reference.key 8) by discriminate.
  split; [reflexivity|]. split; [reflexivity|]. split; [exact Hk|].
  apply (decrypt_under_another_key reference_platform (lit "secret")
           (Reference.key 7) (Reference.key 8));
    [reflexivity|reflexivity|exact Hk].
Defined.

(** X3.  Two encryptions that drew different nonces give different texts,
    whatever the plaintexts (within the argument limit) and keys: equal
    outputs of [encrypt] come from equal nonces. *)
Theorem encrypt_distinct_nonces (P : Platform) (s s' : list Z) (k k' : CryptoKey P)
    (e e' : Entropy) :
  is_string s = true -> is_string s' = true ->
  CryptoService.fits P s = true -> CryptoService.fits P s' = true ->
  getRandomValues 12 e <> getRandomValues 12 e' ->
  exists blob blob',
    CryptoService.encrypt P s k e = Ok blob /\
    CryptoService.encrypt P s' k' e' = Ok blob' /\
    blob <> blob'.
Proof.
  intros Hs Hs' Hf Hf' Hne.
  destruct (encrypt_string P s k e Hs Hf) as (blob & Hb & Ha).
  destruct (encrypt_string P s' k' e' Hs' Hf') as (blob' & Hb' & Ha').
  exists blob, blob'. split; [exact Hb|]. split; [exact Hb'|].
  intros Heq. subst blob'. rewrite Ha in Ha'. apply (inj Some) in Ha'.
  apply app_eq_length in Ha' as [Hiv _]; [exact (Hne Hiv)|].
  rewrite !getRandomValues_length. reflexivity.
Qed.

Lemma encrypt_distinct_nonces_witness :
  let P := reference_platform in
  let e := Reference.entropy in
  let e' := advance 12 Reference.entropy in
  is_string (lit "a") = true /\ CryptoService.fits P (lit "a") = true /\
  getRandomValues 12 e <> getRandomValues 12 e' /\
  exists blob blob',
    CryptoService.encrypt P (lit "a") (Reference.key 7) e = Ok blob /\
    CryptoService.encrypt P (lit "a") (Reference.key 7) e' = Ok blob' /\
    blob <> blob'.
Proof.
  split; [reflexivity|]. split; [reflexivity|]. split; [discriminate|].
  apply (encrypt_distinct_nonces reference_platform (lit "a") (lit "a")
           (Reference.key 7) (Reference.key 7));
    [reflexivity|reflexivity|reflexivity|reflexivity|discriminate].
Defined.

Lemma remove_padding_keeps c l :
  c <> 61 -> In c l -> In c (remove_padding l).
Proof.
  intros Hc Hin. unfold remove_padding.
  destruct (Z.of_nat (length l) mod 4 =? 0); [|exact Hin].
  assert (Hrev : In c (rev l)) by (apply in_rev; rewrite rev_involutive; exact Hin).
  destruct (rev l) as [|c1 [|c2 r]] eqn:Hr; [exact Hin| |].
  - destruct (Z.eqb_spec c1 61) as [->|]; [|exact Hin].
    destruct Hrev as [<-|[]]. contradiction.
  - destruct (Z.eqb_spec c1 61) as [->|]; [|exact Hin].
    destruct Hrev as [<-|Hrev]; [contradiction|].
    destruct (Z.eqb_spec c2 61) as [->|].
    + destruct Hrev as [<-|Hrev]; [contradiction|]. apply in_rev in Hrev. exact Hrev.
    + apply in_rev in Hrev. exact Hrev.
Qed.

Lemma b64_values_outside c l :
  b64_value c = None -> In c l -> b64_values l = None.
Proof.
  intros Hc. induction l as [|x l IH]; intros Hin; [destruct Hin|].
  simpl. destruct Hin as [->|Hin].
  - rewrite Hc. reflexivity.
  - rewrite (IH Hin). destruct (b64_value x); reflexivity.
Qed.

(** X4.  [decrypt] returns [null], and does not throw, on every text that
    holds a code unit outside the Base64 alphabet (other than the padding
    sign and ASCII whitespace), whatever the key. *)
Theorem decrypt_rejects_text_outside_base64 (P : Platform) (text : list Z)
    (key : CryptoKey P) (c : Z) :
  In c text -> b64_value c = None -> c <> 61 -> is_ascii_whitespace c = false ->
  CryptoService.decrypt P text key = None.
Proof.
  intros Hin Hv Hp Hw. unfold CryptoService.decrypt.
  assert (Ha : atob text = None).
  { unfold atob.
    destruct (_ mod 4 =? 1); [reflexivity|].
    rewrite (b64_values_outside c); [reflexivity|exact Hv|].
    apply remove_padding_keeps; [exact Hp|].
    apply filter_In. split; [exact Hin|]. rewrite Hw. reflexivity. }
  rewrite Ha. reflexivity.
Qed.

Lemma decrypt_rejects_text_outside_base64_witness :
  let text := lit "not base64!" in
  In 33 text /\ b64_value 33 = None /\ 33 <> 61 /\ is_ascii_whitespace 33 = false /\
  CryptoService.decrypt reference_platform text (Reference.key 7) = None.
Proof.
  assert (Hin : In 33 (lit "not base64!")) by (simpl; tauto).
  split; [exact Hin|]. split; [reflexivity|]. split; [lia|]. split; [reflexivity|].
  apply (decrypt_rejects_text_outside_base64 reference_platform (lit "not base64!") (Reference.key 7) 33);
    [exact Hin|reflexivity|lia|reflexivity].
Defined.

(** ** AuthController *)

(** X5.  Once both credentials are stored, a page load finds a returning
    user, and [setupNewPIN] does nothing: the stored salt and verification
    token are never overwritten, whatever PIN is entered. *)
Theorem setupNewPIN_keeps_stored_credentials (P : Platform) (pin : list Z) (e : Entropy)
    (ls : LocalStorage) (salt token : list Z) :
  ls !! "user_salt"%string = Some salt -> salt <> [] ->
  ls !! "verification_data"%string = Some token -> token <> [] ->
  AuthController.load P ls = awaitingPIN P /\
  AuthController.setupNewPIN P pin e ls (AuthController.load P ls) =
    Ok (awaitingPIN P, ls, []).
Proof.
  intros Hs Hsalt Ht Htoken.
  assert (Hl : AuthController.load P ls = awaitingPIN P).
  { unfold AuthController.load, AuthController.init. rewrite Hs, Ht.
    destruct salt; [contradiction|]. destruct token; [contradiction|]. reflexivity. }
  split; [exact Hl|]. rewrite Hl. reflexivity.
Qed.

Lemma setupNewPIN_keeps_stored_credentials_witness :
  let P := reference_platform in
  let ls : LocalStorage :=
    <["verification_data"%string := lit "dG9rZW4="]> (<["user_salt"%string := lit "[1,2]"]> ∅) in
  ls !! "user_salt"%string = Some (lit "[1,2]") /\ lit "[1,2]" <> [] /\
  ls !! "verification_data"%string = Some (lit "dG9rZW4=") /\ lit "dG9rZW4=" <> [] /\
  AuthController.load P ls = awaitingPIN P /\
  AuthController.setupNewPIN P (lit "1234") Reference.entropy ls (AuthController.load P ls) =
    Ok (awaitingPIN P, ls, []).
Proof.
  split; [reflexivity|]. split; [discriminate|]. split; [reflexivity|].
  split; [discriminate|].
  apply (setupNewPIN_keeps_stored_credentials reference_platform (lit "1234")
           Reference.entropy _ (lit "[1,2]") (lit "dG9rZW4="));
    [reflexivity|discriminate|reflexivity|discriminate].
Defined.

(** ** StorageService *)

Section Service.
Context (P : Platform).
Import StorageService.

Lemma defined_values (vs : list json) : defined (List.map Some vs) = Some vs.
Proof. induction vs as [|v vs IH]; [reflexivity|]. cbn [List.map defined]. now rewrite IH. Qed.

(** A statement whose parameters are all defined and which the engine
    runs is not refused. *)
Lemma execute_values_ok call sql (vs : list json) s d :
  isInitialized s = true -> db_run P sql vs (db s) = Ok d ->
  refusal P sql (List.map Some vs) s = None /\
  execute_values P call sql (List.map Some vs) s = execute P call sql vs s.
Proof.
  intros Hi Hd. unfold refusal, execute_values.
  rewrite defined_values, Hi, Hd. split; reflexivity.
Qed.

(** A statement the engine refuses: the call is rejected and the service
    is as before. *)
Lemma execute_values_refused call sql (vs : list json) s err :
  isInitialized s = true -> db_run P sql vs (db s) = Throw err ->
  refusal P sql (List.map Some vs) s = Some err /\
  execute_values P call sql (List.map Some vs) s = settle call (Rejected err) s.
Proof.
  intros Hi Hd. unfold refusal, execute_values, execute.
  rewrite defined_values, Hi, Hd. split; reflexivity.
Qed.

(** How a call of [execute] whose statement ran comes back: at once when
    [isSaving] is raised; on an idle service, when the write it started
    completes or fails. *)
Lemma execute_outcome call sql vs s d :
  isInitialized s = true -> db_run P sql vs (db s) = Ok d ->
  let s' := execute P call sql vs s in
  db s' = d /\ isInitialized s' = true /\ applied s' = call :: applied s /\
  (isSaving s = true ->
     outcome_of call s' = Some (Resolved false) /\ db_file s' = db_file s) /\
  (isSaving s = false -> running s = [] -> saveQueue s = false ->
     let done := step P s' TransactionComplete in
     outcome_of call done = Some (Resolved true) /\
     db_file done = Some {| snap_db := d; snap_calls := call :: applied s |} /\
     db done = d /\ isInitialized done = true /\
     outcome_of call (step P s' TransactionError) = Some (Rejected WriteError)).
Proof.
  intros Hi Hd s'. subst s'. destruct s as [d0 ap ini sav q rn file st].
  cbn [isInitialized db isSaving running saveQueue applied db_file] in *. subst ini.
  unfold execute. cbn [isInitialized negb db]. rewrite Hd.
  unfold outcome_of. destruct sav.
  - cbn. rewrite Nat.eqb_refl.
    split; [reflexivity|]. split; [reflexivity|]. split; [reflexivity|].
    split; [intros _; split; reflexivity|discriminate].
  - cbn. split; [reflexivity|]. split; [reflexivity|]. split; [reflexivity|].
    split; [discriminate|]. intros _ -> ->. cbn. rewrite Nat.eqb_refl.
    repeat split; reflexivity.
Qed.

(** A refused call is rejected with the exception [execute] threw, and
    the service is as before. *)
Lemma execute_values_refusal call sql params s err :
  refusal P sql params s = Some err ->
  execute_values P call sql params s = settle call (Rejected err) s.
Proof.
  unfold refusal, execute_values, execute.
  destruct (isInitialized s); cbn [negb].
  - destruct (defined params) as [vs|]; [|intros [= <-]; reflexivity].
    destruct (db_run P sql vs (db s)); [discriminate|]. intros [= <-]. reflexivity.
  - destruct (defined params); intros [= <-]; reflexivity.
Qed.

Lemma step_replay s ev :
  isInitialized s = true -> db (step P s ev) = replay P (db s) [ev].
Proof.
  intros Hi. destruct ev as [call sql params| |]; cbn [step replay fold_left].
  - unfold execute. rewrite Hi. cbn [negb].
    destruct (db_run P sql params (db s)) as [d|err]; [|reflexivity].
    rewrite (proj1 (scheduleSave_instance _ _ _)). reflexivity.
  - destruct (running s) as [|save rest]; [reflexivity|].
    rewrite (proj1 (resume_instance _ _)). reflexivity.
  - destruct (running s) as [|save rest]; reflexivity.
Qed.

End Service.

(** X6.  The in-memory instance depends only on the statements executed,
    not on how the saves went: after any events on an initialised service,
    failed and completed durable writes included, the instance is the one
    obtained by running the statements of the [execute] calls in order, a
    statement the engine refused having no effect. *)
Theorem instance_follows_statements (P : Platform) (s : StorageService.state)
    (trace : list StorageService.event) :
  StorageService.isInitialized s = true ->
  StorageService.db (StorageService.run P s trace) =
    StorageService.replay P (StorageService.db s) trace.
Proof.
  revert s. induction trace as [|ev trace IH]; intros s Hi; [reflexivity|].
  change (StorageService.run P s (ev :: trace))
    with (StorageService.run P (StorageService.step P s ev) trace).
  change (StorageService.replay P (StorageService.db s) (ev :: trace))
    with (StorageService.replay P (StorageService.replay P (StorageService.db s) [ev]) trace).
  rewrite <- (step_replay P s ev Hi). apply IH.
  change (StorageService.step P s ev) with (StorageService.run P s [ev]).
  rewrite isInitialized_run. exact Hi.
Qed.

Lemma instance_follows_statements_witness :
  let P := reference_platform in
  let s := StorageService.opened empty_database in
  let trace :=
    [StorageService.Execute 1 InsertNoteValues [JStr (lit "n1")];
     StorageService.TransactionError;
     StorageService.Execute 2 InsertNoteValues [JStr (lit "n1")];
     StorageService.Execute 3 InsertNoteValues [JStr (lit "n2")]] in
  StorageService.isInitialized s = true /\
  StorageService.db (StorageService.run P s trace) =
    StorageService.replay P (StorageService.db s) trace /\
  List.map Notes.id (notes (StorageService.db (StorageService.run P s trace))) =
    [VText (lit "n1"); VText (lit "n2")].
Proof.
  split; [reflexivity|]. split; [|reflexivity].
  apply (instance_follows_statements reference_platform
           (StorageService.opened empty_database)).
  reflexivity.
Defined.

Section Lifecycle.
Context (P : Platform).
Import StorageService.







End Lifecycle.

(** X7.  The first [init] of the service object as the script creates it,
    when the engine is fetched, IndexedDB is read and, on a first run, the
    durable write of the schema completes, leaves the service ready: it is
    initialised, no save is under way or noted, the instance is the stored
    one, or on a first run a new one with the notes table, empty, and
    neither the events nor the settings table; the durable store holds
    exactly the instance; and a further call of [init] changes nothing.
    (An [init] that follows a failed one is the matter of the next
    theorem.) *)
Theorem init_ready (P : Platform) (call : nat) (file : option StorageService.Snapshot) :
  let s := StorageService.init P call true true true (StorageService.created file) in
  StorageService.isInitialized s = true /\
  StorageService.isSaving s = false /\ StorageService.saveQueue s = false /\
  StorageService.running s = [] /\
  StorageService.db s =
    match file with
    | Some dbFile => StorageService.snap_db dbFile
    | None => empty_database
    end /\
  (file = None ->
     notes (StorageService.db s) = [] /\
     has_events (StorageService.db s) = false /\
     has_settings (StorageService.db s) = false) /\
  option_map StorageService.snap_db (StorageService.db_file s) = Some (StorageService.db s) /\
  (forall dbFile, file = Some dbFile -> StorageService.snap_calls dbFile = [] ->
     s = StorageService.opened (StorageService.snap_db dbFile)) /\
  forall call' engine readable writable,
    StorageService.init P call' engine readable writable s = s.
Proof.
  intros s.
  assert (Hi : StorageService.isInitialized s = true).
  { subst s. destruct file as [dbFile|]; [rewrite init_stored|rewrite init_first_run];
      reflexivity. }
  split; [exact Hi|].
  assert (Hrest :
    StorageService.isSaving s = false /\ StorageService.saveQueue s = false /\
    StorageService.running s = [] /\
    StorageService.db s =
      match file with
      | Some dbFile => StorageService.snap_db dbFile
      | None => empty_database
      end /\
    (file = None ->
       notes (StorageService.db s) = [] /\
       has_events (StorageService.db s) = false /\
       has_settings (StorageService.db s) = false) /\
    option_map StorageService.snap_db (StorageService.db_file s) =
      Some (StorageService.db s) /\
    (forall dbFile, file = Some dbFile -> StorageService.snap_calls dbFile = [] ->
       s = StorageService.opened (StorageService.snap_db dbFile))).
  { subst s. destruct file as [dbFile|].
    - rewrite init_stored. repeat split; try discriminate.
      intros [d calls] [= ->] Hcalls. cbn in Hcalls. subst calls. reflexivity.
    - rewrite init_first_run. repeat split. intros dbFile [=]. }
  destruct Hrest as (H1 & H2 & H3 & H4 & H5 & H6 & H7).
  repeat (split; [assumption|]).
  intros call' engine readable writable. apply init_again, Hi.
Qed.


(** ** StorageService: how many durable writes *)

Section Writes.
Context (P : Platform).
Import StorageService.

Definition noted (s : state) : nat := if saveQueue s then 1%nat else 0%nat.

Definition is_execute (ev : event) : nat :=
  match ev with
  | Execute _ _ _ => 1%nat
  | _ => 0%nat
  end.

Lemma writes_started_step s ev :
  (writes_started P s ev + noted (step P s ev) <= noted s + is_execute ev)%nat.
Proof.
  unfold writes_started, noted.
  destruct ev as [call sql params| |]; cbn [step is_execute].
  - unfold execute. destruct (isInitialized s); cbn [negb settle running saveQueue]; [|lia].
    destruct (db_run P sql params (db s)) as [d|err]; cbn [settle running saveQueue]; [|lia].
    unfold scheduleSave, saveDbToIndexedDB. cbn [mutate isSaving].
    destruct (isSaving s);
      cbn [settle set_flags set_running mutate running saveQueue];
      rewrite ?length_app; cbn [length]; destruct (saveQueue s); lia.
  - destruct (running s) as [|save rest] eqn:Hr;
      [rewrite Hr; destruct (saveQueue s); cbn; lia|].
    unfold resume, scheduleSave, saveDbToIndexedDB.
    cbn [set_flags set_db_file set_running saveQueue isSaving].
    destruct (saveQueue s);
      cbn [settle set_flags set_db_file set_running running saveQueue];
      rewrite ?length_app; cbn [length]; lia.
  - destruct (running s) as [|save rest] eqn:Hr;
      [rewrite Hr; destruct (saveQueue s); cbn; lia|].
    cbn [settle set_running running saveQueue length]. destruct (saveQueue s); lia.
Qed.

Lemma executes_cons ev trace : executes (ev :: trace) = (is_execute ev + executes trace)%nat.
Proof. unfold executes. cbn [List.filter]. destruct ev; reflexivity. Qed.

Lemma writes_during_bound trace : forall s,
  (writes_during P s trace + noted (run P s trace) <= noted s + executes trace)%nat.
Proof.
  induction trace as [|ev trace IH]; intros s.
  - cbn. lia.
  - change (run P s (ev :: trace)) with (run P (step P s ev) trace).
    cbn [writes_during]. rewrite executes_cons.
    specialize (IH (step P s ev)). pose proof (writes_started_step s ev). lia.
Qed.

(** Until a statement has run, nothing is being saved. *)
Definition untouched (s : state) : Prop :=
  applied s = [] /\ isSaving s = false /\ running s = [].

Lemma untouched_step s ev :
  untouched s ->
  untouched (step P s ev) /\ writes_started P s ev = 0%nat \/
  applied (step P s ev) <> [] /\ writes_started P s ev = 1%nat.
Proof.
  intros (Ha & Hs & Hr). unfold writes_started, untouched.
  destruct ev as [call sql params| |]; cbn [step]; rewrite ?Hr.
  - unfold execute. destruct (isInitialized s); cbn [negb];
      [|left; cbn [settle applied isSaving running]; rewrite Hr; auto].
    destruct (db_run P sql params (db s)) as [d|err];
      [|left; cbn [settle applied isSaving running]; rewrite Hr; auto].
    right. unfold scheduleSave, saveDbToIndexedDB. cbn [mutate isSaving]. rewrite Hs.
    cbn [set_flags set_running mutate running applied]. rewrite Hr. cbn.
    split; [discriminate|reflexivity].
  - left. cbn. repeat split; try assumption; rewrite Hr; reflexivity.
  - left. cbn. repeat split; try assumption; rewrite Hr; reflexivity.
Qed.

Lemma applied_grows s ev : applied s <> [] -> applied (step P s ev) <> [].
Proof.
  intros Ha. destruct ev as [call sql params| |]; cbn [step].
  - unfold execute. destruct (isInitialized s); cbn [negb]; [|exact Ha].
    destruct (db_run P sql params (db s)) as [d|err]; [|exact Ha].
    unfold scheduleSave, saveDbToIndexedDB. cbn [mutate isSaving].
    destruct (isSaving s); discriminate.
  - destruct (running s) as [|save rest]; [exact Ha|].
    unfold resume, scheduleSave, saveDbToIndexedDB.
    cbn [set_flags set_db_file set_running saveQueue isSaving].
    destruct (saveQueue s); exact Ha.
  - destruct (running s) as [|save rest]; exact Ha.
Qed.

Lemma writes_during_first trace : forall s,
  untouched s -> applied (run P s trace) <> [] -> (1 <= writes_during P s trace)%nat.
Proof.
  induction trace as [|ev trace IH]; intros s Hu Happ.
  - destruct Hu as (Ha & _). contradiction.
  - change (run P s (ev :: trace)) with (run P (step P s ev) trace) in Happ.
    cbn [writes_during].
    destruct (untouched_step s ev Hu) as [[Hu' H0]|[_ H1]]; [|lia].
    specialize (IH _ Hu' Happ). lia.
Qed.

End Writes.

(** X9.  Coalescing never adds writes: from an opened database, whatever
    the callers and the durable store do, the number of durable writes
    started is at most the number of [execute] calls, and at least one
    write has been started as soon as one statement has run. *)
Theorem writes_between_one_and_executes (P : Platform) (d : Database)
    (trace : list StorageService.event) :
  let s := StorageService.opened d in
  (StorageService.writes_during P s trace <= StorageService.executes trace)%nat /\
  (StorageService.applied (StorageService.run P s trace) <> [] ->
   (1 <= StorageService.writes_during P s trace)%nat).
Proof.
  intros s. split.
  - pose proof (writes_during_bound P trace s) as H. subst s. unfold noted in H.
    cbn [StorageService.opened StorageService.saveQueue] in H.
    destruct (StorageService.saveQueue _); lia.
  - apply writes_during_first. subst s. repeat split.
Qed.

(** X27.  Without a failed write no request is lost.  From an opened
    database, as long as no durable write has failed: at most one durable
    write is running; when none is running the durable copy is the
    in-memory instance and no flag is raised; while one is running, either
    its snapshot is the in-memory instance or the pending flag is set;
    when the running save finishes with the flag set, the flag is cleared
    and exactly one more save starts, on the instance as it is then; and
    once the running save and that one more have completed, the durable
    copy is the in-memory instance. *)
Theorem coalesced_writes_catch_up (P : Platform) (d : Database)
    (trace : list StorageService.event) :
  StorageService.error_free trace = true ->
  let s := StorageService.run P (StorageService.opened d) trace in
  (length (StorageService.running s) <= 1)%nat /\
  match StorageService.running s with
  | [] =>
      StorageService.isSaving s = false /\ StorageService.saveQueue s = false /\
      option_map StorageService.snap_db (StorageService.db_file s) =
        Some (StorageService.db s)
  | save :: _ =>
      StorageService.isSaving s = true /\
      (StorageService.snap_db (StorageService.data save) = StorageService.db s \/
       StorageService.saveQueue s = true)
  end /\
  (forall save, StorageService.running s = [save] -> StorageService.saveQueue s = true ->
     let s' := StorageService.step P s StorageService.TransactionComplete in
     StorageService.db_file s' = Some (StorageService.data save) /\
     StorageService.saveQueue s' = false /\
     StorageService.running s' =
       [{| StorageService.data := StorageService.export s;
           StorageService.awaiting := StorageService.awaiting save |}]) /\
  (let s' := StorageService.run P s
               [StorageService.TransactionComplete; StorageService.TransactionComplete] in
   StorageService.running s' = [] /\ StorageService.isSaving s' = false /\
   StorageService.saveQueue s' = false /\
   option_map StorageService.snap_db (StorageService.db_file s') =
     Some (StorageService.db s) /\
   StorageService.db s' = StorageService.db s).
Proof.
  intros Hfree s.
  pose proof (Inv_run P (StorageService.opened d) trace (Inv_opened d)) as [H1 _ _ _ _].
  fold s in H1.
  pose proof (Covered_run P (StorageService.opened d) trace Hfree (Covered_opened d)) as Hc.
  fold s in Hc.
  split; [exact H1|]. split; [|split].
  - unfold Covered in Hc.
    destruct (StorageService.running s) as [|save [|save' rest]]; [| |contradiction].
    + destruct Hc as (Hs & Hq & ->). repeat split; assumption.
    + destruct Hc as (Hs & [->|Hq]); (split; [exact Hs|]); [left; reflexivity|right; exact Hq].
  - intros save Hrun Hq. cbn [StorageService.step]. rewrite Hrun.
    unfold StorageService.resume, StorageService.scheduleSave,
      StorageService.saveDbToIndexedDB.
    cbn. rewrite Hq. cbn. repeat split.
  - destruct (Covered_drain P s Hc) as (Hr & Hs & Hq & Hf & Hd).
    cbv zeta. split; [exact Hr|]. split; [exact Hs|]. split; [exact Hq|].
    split; [rewrite Hf; reflexivity|exact Hd].
Qed.

(** Three calls in a row, the last two coalesced behind the save of the
    first; two completed writes later the durable copy holds the note. *)
Lemma coalesced_writes_catch_up_witness :
  let P := reference_platform in
  let trace :=
    [StorageService.Execute 1 DeleteAllNotes [];
     StorageService.Execute 2 InsertNoteValues [JStr (lit "n1")];
     StorageService.Execute 3 InsertNoteValues [JStr (lit "n2")]] in
  let s := StorageService.run P (StorageService.opened empty_database) trace in
  let s' := StorageService.run P s
              [StorageService.TransactionComplete; StorageService.TransactionComplete] in
  StorageService.error_free trace = true /\
  List.map Notes.id (notes (StorageService.db s)) = [VText (lit "n1"); VText (lit "n2")] /\
  StorageService.running s' = [] /\ StorageService.isSaving s' = false /\
  StorageService.saveQueue s' = false /\
  option_map StorageService.snap_db (StorageService.db_file s') =
    Some (StorageService.db s) /\
  StorageService.db s' = StorageService.db s.
Proof.
  split; [reflexivity|]. split; [reflexivity|].
  apply (coalesced_writes_catch_up reference_platform empty_database
           [StorageService.Execute 1 DeleteAllNotes [];
            StorageService.Execute 2 InsertNoteValues [JStr (lit "n1")];
            StorageService.Execute 3 InsertNoteValues [JStr (lit "n2")]] eq_refl).
Defined.

(** ** The Settings model *)

Section SettingsModel.
Context (P : Platform).

Lemma filter_filter_none {A} (f g : A -> bool) l :
  (forall x, f x = true -> g x = false) -> List.filter f (List.filter g l) = [].
Proof.
  intros H. induction l as [|x l IH]; [reflexivity|]. simpl.
  destruct (g x) eqn:Hg; [|exact IH]. simpl.
  destruct (f x) eqn:Hf; [|exact IH]. rewrite (H x Hf) in Hg. discriminate.
Qed.

Lemma filter_filter_all {A} (f g : A -> bool) l :
  (forall x, f x = true -> g x = true) -> List.filter f (List.filter g l) = List.filter f l.
Proof.
  intros H. induction l as [|x l IH]; [reflexivity|]. simpl.
  destruct (f x) eqn:Hf.
  - rewrite (H x Hf). simpl. rewrite Hf, IH. reflexivity.
  - destruct (g x); [simpl; rewrite Hf|]; exact IH.
Qed.

Lemma matches_text k v : matches (VText k) v = bool_decide (v = VText k).
Proof. reflexivity. Qed.

(** The value column after REPLACE INTO, as SELECT sees it. *)
Lemma select_value_replace key key' text d :
  has_settings d = true ->
  Settings.select_value (VText key')
    {| notes := notes d; events := events d;
       settings :=
         List.filter (fun kv => negb (matches (VText key) (fst kv))) (settings d)
           ++ [(VText key, VText text)];
       has_events := has_events d; has_settings := has_settings d |} =
  if decide (key' = key) then Ok [VText text]
  else Settings.select_value (VText key') d.
Proof.
  intros Ht. unfold Settings.select_value. cbn [settings has_settings]. rewrite Ht.
  cbn [table_rows].
  rewrite List.filter_app, List.map_app. cbn [List.filter fst].
  rewrite !matches_text.
  destruct (decide (key' = key)) as [->|Hne].
  - rewrite filter_filter_none.
    + rewrite bool_decide_eq_true_2 by reflexivity. reflexivity.
    + intros [k v] H. cbn [fst] in *. rewrite !matches_text in *. rewrite H. reflexivity.
  - rewrite filter_filter_all.
    + rewrite bool_decide_eq_false_2 by congruence. cbn [List.map]. rewrite app_nil_r.
      reflexivity.
    + intros [k v] H. cbn [fst] in *. rewrite !matches_text in *.
      apply bool_decide_eq_true_1 in H. subst k.
      rewrite bool_decide_eq_false_2 by congruence. reflexivity.
Qed.

Lemma get_frame s s' key defaultValue :
  StorageService.isInitialized s' = StorageService.isInitialized s ->
  Settings.select_value (VText key) (StorageService.db s') =
    Settings.select_value (VText key) (StorageService.db s) ->
  Settings.get P s' key defaultValue = Settings.get P s key defaultValue.
Proof.
  intros Hi Hs. unfold Settings.get, StorageService.query. rewrite Hi.
  destruct (StorageService.isInitialized s); [|reflexivity]. cbn [negb bind].
  rewrite Hs. reflexivity.
Qed.

(** REPLACE INTO settings with both parameters bound to text. *)
Lemma replace_setting_runs key text d :
  has_settings d = true ->
  db_run P ReplaceSetting [JStr key; JStr text] d =
    Ok {| notes := notes d; events := events d;
          settings :=
            List.filter (fun kv => negb (matches (VText key) (fst kv))) (settings d)
              ++ [(VText key, VText text)];
          has_events := has_events d; has_settings := has_settings d |}.
Proof. intros Ht. unfold db_run. cbn [table_exists]. rewrite Ht. reflexivity. Qed.

Lemma replace_setting_no_table key text d :
  has_settings d = false ->
  db_run P ReplaceSetting [JStr key; JStr text] d = Throw SqlError.
Proof. intros Ht. unfold db_run. cbn [table_exists]. rewrite Ht. reflexivity. Qed.

End SettingsModel.

(** X10.  A setting that was set is the one read back, where there is a
    settings table: after [Settings.set(key, value)] on an initialised
    service, for a value that JSON text round-trips, [Settings.get(key)]
    returns that value, whatever was stored under the key before and
    whatever the default.  Where the table is not there, as in every
    database the application has created itself, the call of [set] is
    rejected with the error of the engine, the instance stays as it was,
    and [Settings.get] throws, before and after. *)
Theorem Settings_get_after_set (P : Platform) (s : StorageService.state) (call : nat)
    (key : list Z) (value defaultValue : json) :
  StorageService.isInitialized s = true ->
  JSON_parse P (JSON_stringify P value) = Some value ->
  let s' := Settings.set P call key (Some value) s in
  (has_settings (StorageService.db s) = true ->
   Settings.get P s' key defaultValue = Ok value) /\
  (has_settings (StorageService.db s) = false ->
   StorageService.outcome_of call s' = Some (StorageService.Rejected SqlError) /\
   StorageService.db s' = StorageService.db s /\
   Settings.get P s key defaultValue = Throw SqlError /\
   Settings.get P s' key defaultValue = Throw SqlError).
Proof.
  intros Hi Hjson s'. subst s'. unfold Settings.set. cbn [stringify_argument].
  unfold StorageService.execute_values. cbn [StorageService.defined].
  split; intros Ht.
  - destruct (execute_ok P call ReplaceSetting [JStr key; JStr (JSON_stringify P value)] s
                _ Hi (replace_setting_runs P _ _ _ Ht))
      as [Hd Hi'].
    unfold Settings.get, StorageService.query. rewrite Hi', Hd. cbn [negb].
    rewrite (select_value_replace key key _ _ Ht). rewrite decide_True by reflexivity.
    cbn [bind]. unfold js_text. cbn [js_of_sqlval]. rewrite js_String_string, Hjson.
    reflexivity.
  - unfold StorageService.execute. rewrite Hi. cbn [negb].
    rewrite (replace_setting_no_table P _ _ _ Ht).
    split; [apply outcome_of_settle|]. split; [reflexivity|].
    unfold Settings.get, StorageService.query, Settings.select_value.
    cbn [StorageService.settle StorageService.isInitialized StorageService.db].
    rewrite Hi, Ht. split; reflexivity.
Qed.

Lemma Settings_get_after_set_witness :
  let P := reference_platform in
  let value := JArr [JNum 1; JNum 2] in
  let s := StorageService.opened sample_events in
  let first_run :=
    StorageService.init P 0 true true true (StorageService.created None) in
  JSON_parse P (JSON_stringify P value) = Some value /\
  (StorageService.isInitialized s = true /\
   has_settings (StorageService.db s) = true /\
   Settings.get P (Settings.set P 1 (lit "theme") (Some value) s) (lit "theme") JNull =
     Ok value) /\
  (StorageService.isInitialized first_run = true /\
   has_settings (StorageService.db first_run) = false /\
   StorageService.outcome_of 1 (Settings.set P 1 (lit "theme") (Some value) first_run) =
     Some (StorageService.Rejected SqlError) /\
   StorageService.db (Settings.set P 1 (lit "theme") (Some value) first_run) =
     StorageService.db first_run /\
   Settings.get P first_run (lit "theme") JNull = Throw SqlError /\
   Settings.get P (Settings.set P 1 (lit "theme") (Some value) first_run)
     (lit "theme") JNull = Throw SqlError).
Proof.
  split; [reflexivity|]. split.
  - split; [reflexivity|]. split; [reflexivity|].
    apply (proj1 (Settings_get_after_set reference_platform
                    (StorageService.opened sample_events) 1 (lit "theme")
                    (JArr [JNum 1; JNum 2]) JNull eq_refl eq_refl)).
    reflexivity.
  - split; [reflexivity|]. split; [reflexivity|].
    apply (proj2 (Settings_get_after_set reference_platform
                    (StorageService.init reference_platform 0 true true true
                       (StorageService.created None))
                    1 (lit "theme") (JArr [JNum 1; JNum 2]) JNull eq_refl eq_refl)).
    reflexivity.
Defined.

(** X11.  Setting one key leaves every other setting as it reads: for
    [key' <> key], [Settings.get(key')] gives the same result after
    [Settings.set(key, value)] as before, whether the statement ran or was
    refused. *)
Theorem Settings_set_keeps_other_keys (P : Platform) (s : StorageService.state) (call : nat)
    (key key' : list Z) (value : option json) (defaultValue : json) :
  key' <> key ->
  Settings.get P (Settings.set P call key value s) key' defaultValue =
    Settings.get P s key' defaultValue.
Proof.
  intros Hne. unfold Settings.set, StorageService.execute_values.
  destruct value as [value|]; cbn [stringify_argument StorageService.defined].
  - unfold StorageService.execute.
    destruct (StorageService.isInitialized s) eqn:Hi; cbn [negb];
      [|apply get_frame; reflexivity].
    destruct (has_settings (StorageService.db s)) eqn:Ht;
      [rewrite (replace_setting_runs P _ _ _ Ht)
      |rewrite (replace_setting_no_table P _ _ _ Ht); apply get_frame; reflexivity].
    apply get_frame.
    + rewrite (proj2 (scheduleSave_instance _ _ _)). reflexivity.
    + rewrite (proj1 (scheduleSave_instance _ _ _)). cbn [StorageService.mutate StorageService.db].
      rewrite (select_value_replace key key' _ _ Ht). rewrite decide_False by exact Hne.
      reflexivity.
  - destruct (negb (StorageService.isInitialized s)); apply get_frame; reflexivity.
Qed.

Lemma Settings_set_keeps_other_keys_witness :
  let P := reference_platform in
  let s := Settings.set P 1 (lit "theme") (Some (JArr [JNum 1])) (StorageService.opened sample_events) in
  lit "theme" <> lit "font" /\
  Settings.get P (Settings.set P 2 (lit "font") (Some (JArr [JNum 2])) s) (lit "theme") JNull =
    Settings.get P s (lit "theme") JNull /\
  Settings.get P s (lit "theme") JNull = Ok (JArr [JNum 1]).
Proof.
  split; [discriminate|]. split; [|reflexivity].
  apply (Settings_set_keeps_other_keys reference_platform). discriminate.
Defined.

(** ** The Note model *)

Section NoteModel.
Context (P : Platform).

Lemma encode_argument_string s : encode_argument P (Some (JStr s)) = s.
Proof. unfold encode_argument. apply js_String_string. Qed.

Lemma encode_argument_or_empty s : encode_argument P (or_empty (Some (JStr s))) = s.
Proof.
  unfold or_empty. destruct s as [|u s]; cbn [js_truthy]; apply encode_argument_string.
Qed.

Lemma js_text_text s : js_text P (VText s) = s.
Proof. unfold js_text. cbn [js_of_sqlval]. apply js_String_string. Qed.

Lemma flag_number_favorite (b : bool) :
  bool_decide (VInt (if js_truthy (Some (JBool b)) then 1 else 0) = VInt 1) = b.
Proof. destruct b; reflexivity. Qed.

Lemma key_taken_select {A} (key : A -> sqlval) k rows :
  key_taken key (VText k) rows = false ->
  List.filter (fun r => matches (VText k) (key r)) rows = [].
Proof.
  cbn [key_taken]. induction rows as [|r rows IH]; [reflexivity|].
  cbn [existsb List.filter]. rewrite matches_text.
  destruct (bool_decide (key r = VText k)); [discriminate|]. exact IH.
Qed.

Lemma filter_map_commute {A} (f : A -> A) (p : A -> bool) l :
  (forall x, p (f x) = p x) -> List.filter p (List.map f l) = List.map f (List.filter p l).
Proof.
  intros H. induction l as [|x l IH]; [reflexivity|]. cbn [List.map List.filter].
  rewrite H. destruct (p x); cbn [List.map]; rewrite IH; reflexivity.
Qed.

Lemma update_note_id xs r : Notes.id (update_note xs r) = Notes.id r.
Proof. unfold update_note. destruct (matches _ _); reflexivity. Qed.

Lemma findById_instance s s' k masterKey :
  StorageService.isInitialized s' = StorageService.isInitialized s ->
  Note.select_by_id k (StorageService.db s') = Note.select_by_id k (StorageService.db s) ->
  Note.findById P s' k masterKey = Note.findById P s k masterKey.
Proof.
  intros Hi Hs. unfold Note.findById, StorageService.query. rewrite Hi.
  destruct (StorageService.isInitialized s); [|reflexivity]. cbn [negb bind].
  rewrite Hs. reflexivity.
Qed.

End NoteModel.

(** X12.  A note that was created is the one read back, and the call
    returns as the scheduler settles it.  For a title and a content that
    are well-formed strings not starting with U+FEFF, tags whose JSON text
    is such a string and parses back to the tags, all three within the
    argument limit of [encrypt], and an identifier not yet in the table:
    [Note.create] throws nothing, and [Note.findById] of the new
    identifier then returns the title, the content, the tags and the
    favourite flag that were passed, with both timestamps equal to the
    time of creation.  With [isSaving] raised the call returns its object
    at once and nothing is written for it.  On an idle service it returns
    the object when the durable write it started completes, the durable
    copy then being the instance with the note, and it is rejected when
    that write fails. *)
Theorem Note_findById_after_create (P : Platform) (s : StorageService.state)
    (masterKey : CryptoKey P) (id : list Z) (now : Z) (e : Entropy) (call : nat)
    (title content : list Z) (tags : json) (favorite : bool) :
  StorageService.isInitialized s = true ->
  key_taken Notes.id (VText id) (notes (StorageService.db s)) = false ->
  isWellFormed title = true -> has_bom title = false ->
  isWellFormed content = true -> has_bom content = false ->
  isWellFormed (JSON_stringify P tags) = true -> has_bom (JSON_stringify P tags) = false ->
  CryptoService.fits P title = true -> CryptoService.fits P content = true ->
  CryptoService.fits P (JSON_stringify P tags) = true ->
  JSON_parse P (JSON_stringify P tags) = Some tags ->
  let noteData :=
    {| NoteData.title := Some (JStr title); NoteData.content := Some (JStr content);
       NoteData.tags := Some tags; NoteData.is_favorite := Some (JBool favorite) |} in
  let note :=
    {| Note.id := VText id; Note.title := Some title;
       Note.content := Some content; Note.tags := tags;
       Note.createdAt := VInt now; Note.updatedAt := VInt now;
       Note.isFavorite := favorite |} in
  exists s',
    Note.create P noteData masterKey id now e call s =
      (Ok {| NoteData.id := id; NoteData.data := noteData;
             NoteData.createdAt := now; NoteData.updatedAt := now |}, s') /\
    Note.findById P s' (VText id) masterKey = Ok (Some note) /\
    (StorageService.isSaving s = true ->
       StorageService.outcome_of call s' = Some (StorageService.Resolved false) /\
       StorageService.db_file s' = StorageService.db_file s) /\
    (StorageService.isSaving s = false -> StorageService.running s = [] ->
     StorageService.saveQueue s = false ->
       let done := StorageService.step P s' StorageService.TransactionComplete in
       StorageService.outcome_of call done = Some (StorageService.Resolved true) /\
       option_map StorageService.snap_db (StorageService.db_file done) =
         Some (StorageService.db s') /\
       Note.findById P done (VText id) masterKey = Ok (Some note) /\
       StorageService.outcome_of call
         (StorageService.step P s' StorageService.TransactionError) =
         Some (StorageService.Rejected WriteError)).
Proof.
  intros Hi Hfresh Ht1 Ht2 Hc1 Hc2 Hg1 Hg2 Hf1 Hf2 Hf3 Hg3 noteData note.
  destruct (decrypt_encrypt_wellformed P title masterKey e Ht1 Ht2 Hf1) as (bt & Het & Hdt).
  destruct (decrypt_encrypt_wellformed P content masterKey (advance 12 e) Hc1 Hc2 Hf2)
    as (bc & Hec & Hdc).
  destruct (decrypt_encrypt_wellformed P _ masterKey (advance 24 e) Hg1 Hg2 Hf3)
    as (bg & Heg & Hdg).
  set (vs := [JStr id; JStr bt; JStr bc; JNum now; JNum now; JStr bg;
              flag_number (Some (JBool favorite))]).
  set (d := {| notes := notes (StorageService.db s) ++
                  [{| Notes.id := VText id; Notes.title_encrypted := VText bt;
                      Notes.content_encrypted := VText bc; Notes.created_at := VInt now;
                      Notes.updated_at := VInt now; Notes.tags_encrypted := VText bg;
                      Notes.is_favorite :=
                        VInt (if js_truthy (Some (JBool favorite)) then 1 else 0) |}];
               events := events (StorageService.db s);
               settings := settings (StorageService.db s);
               has_events := has_events (StorageService.db s);
               has_settings := has_settings (StorageService.db s) |}).
  assert (Hrun : db_run P InsertNote vs (StorageService.db s) = Ok d).
  { subst vs d.
    cbn [db_run table_exists negb bind_params placeholders length Nat.ltb Nat.leb
         bind_values bind_value bind flag_number].
    unfold insert_note. cbn [arg nth]. rewrite Hfresh. reflexivity. }
  destruct (execute_values_ok P call InsertNote vs s d Hi Hrun) as [Href Hexe].
  destruct (execute_outcome P call InsertNote vs s d Hi Hrun)
    as (Hd & Hi' & _ & Hbusy & Hidle).
  assert (Hfind : forall t, StorageService.isInitialized t = true -> StorageService.db t = d ->
            Note.findById P t (VText id) masterKey = Ok (Some note)).
  { intros t Hit Hdt'. unfold Note.findById, StorageService.query.
    rewrite Hit, Hdt'. cbn [negb bind].
    unfold Note.select_by_id. subst d. cbn [notes]. rewrite List.filter_app.
    rewrite (key_taken_select Notes.id id _ Hfresh). cbn [List.filter app Notes.id].
    rewrite matches_text, bool_decide_eq_true_2 by reflexivity.
    unfold Note.decryptRow.
    cbn [Notes.title_encrypted Notes.content_encrypted Notes.tags_encrypted Notes.id
         Notes.created_at Notes.updated_at Notes.is_favorite].
    rewrite !js_text_text, Hdt, Hdc, Hdg. cbn [nullable_string]. rewrite Hg3.
    cbn [bind]. rewrite flag_number_favorite. reflexivity. }
  exists (StorageService.execute P call InsertNote vs s).
  split; [|split; [exact (Hfind _ Hi' Hd)|split]].
  - unfold Note.create. subst noteData.
    cbn [NoteData.title NoteData.content NoteData.tags NoteData.is_favorite default
         from_option Datatypes.id].
    rewrite !encode_argument_or_empty, Het, Hec, Heg. cbn [bind].
    change [Some (JStr id); Some (JStr bt); Some (JStr bc); Some (JNum now);
            Some (JNum now); Some (JStr bg); Some (flag_number (Some (JBool favorite)))]
      with (List.map Some vs).
    rewrite Href, Hexe. reflexivity.
  - exact Hbusy.
  - intros Hs Hr Hq. destruct (Hidle Hs Hr Hq) as (H1 & H2 & H3 & H4 & H5).
    cbv zeta. split; [exact H1|]. split; [rewrite H2, Hd; reflexivity|].
    split; [exact (Hfind _ H4 H3)|exact H5].
Qed.

Lemma Note_findById_after_create_witness :
  let P := reference_platform in
  let s := StorageService.opened empty_database in
  let noteData :=
    {| NoteData.title := Some (JStr (lit "Shopping")); NoteData.content := Some (JStr (lit "milk"));
       NoteData.tags := Some (JArr []); NoteData.is_favorite := Some (JBool true) |} in
  let note :=
    {| Note.id := VText (lit "n1"); Note.title := Some (lit "Shopping");
       Note.content := Some (lit "milk"); Note.tags := JArr [];
       Note.createdAt := VInt 1000; Note.updatedAt := VInt 1000;
       Note.isFavorite := true |} in
  StorageService.isInitialized s = true /\
  key_taken Notes.id (VText (lit "n1")) (notes (StorageService.db s)) = false /\
  exists s',
    Note.create P noteData (Reference.key 7) (lit "n1") 1000 Reference.entropy 1 s =
      (Ok {| NoteData.id := lit "n1"; NoteData.data := noteData;
             NoteData.createdAt := 1000; NoteData.updatedAt := 1000 |}, s') /\
    Note.findById P s' (VText (lit "n1")) (Reference.key 7) = Ok (Some note) /\
    (StorageService.isSaving s = true ->
       StorageService.outcome_of 1 s' = Some (StorageService.Resolved false) /\
       StorageService.db_file s' = StorageService.db_file s) /\
    (StorageService.isSaving s = false -> StorageService.running s = [] ->
     StorageService.saveQueue s = false ->
       let done := StorageService.step P s' StorageService.TransactionComplete in
       StorageService.outcome_of 1 done = Some (StorageService.Resolved true) /\
       option_map StorageService.snap_db (StorageService.db_file done) =
         Some (StorageService.db s') /\
       Note.findById P done (VText (lit "n1")) (Reference.key 7) = Ok (Some note) /\
       StorageService.outcome_of 1
         (StorageService.step P s' StorageService.TransactionError) =
         Some (StorageService.Rejected WriteError)).
Proof.
  split; [reflexivity|]. split; [reflexivity|].
  apply (Note_findById_after_create reference_platform (StorageService.opened empty_database)
           (Reference.key 7) (lit "n1") 1000 Reference.entropy 1 (lit "Shopping") (lit "milk")
           (JArr []) true);
    reflexivity.
Defined.



Section NoteUpdate.
Context (P : Platform).

(** The row UPDATE notes writes from the bound values. *)
Definition updated_note (bt bc : list Z) (now : Z) (bg : list Z) (flag : option json)
    (id : list Z) : Notes.row -> Notes.row :=
  update_note [VText bt; VText bc; VInt now; VText bg;
               VInt (if js_truthy flag then 1 else 0); VText id].

(** [Note.update] with a title, a content and tags runs its statement. *)
Lemma update_runs (s : StorageService.state) (masterKey : CryptoKey P) id now e call
    title content tags flag :
  StorageService.isInitialized s = true ->
  is_string title = true -> is_string content = true ->
  is_string (JSON_stringify P tags) = true ->
  CryptoService.fits P title = true -> CryptoService.fits P content = true ->
  CryptoService.fits P (JSON_stringify P tags) = true ->
  let updatedData :=
    {| NoteData.title := Some (JStr title); NoteData.content := Some (JStr content);
       NoteData.tags := Some tags; NoteData.is_favorite := flag |} in
  exists bt bc bg,
    CryptoService.encrypt P title masterKey e = Ok bt /\
    CryptoService.encrypt P content masterKey (advance 12 e) = Ok bc /\
    CryptoService.encrypt P (JSON_stringify P tags) masterKey (advance 24 e) = Ok bg /\
    let vs := [JStr bt; JStr bc; JNum now; JStr bg; flag_number flag; JStr id] in
    let d :=
      {| notes := List.map (updated_note bt bc now bg flag id) (notes (StorageService.db s));
         events := events (StorageService.db s);
         settings := settings (StorageService.db s);
         has_events := has_events (StorageService.db s);
         has_settings := has_settings (StorageService.db s) |} in
    db_run P UpdateNote vs (StorageService.db s) = Ok d /\
    Note.update P id updatedData masterKey now e call s =
      (Ok tt, StorageService.execute P call UpdateNote vs s).
Proof.
  intros Hi Ht Hc Hg Hf1 Hf2 Hf3 updatedData.
  destruct (encrypt_string P title masterKey e Ht Hf1) as (bt & Het & _).
  destruct (encrypt_string P content masterKey (advance 12 e) Hc Hf2) as (bc & Hec & _).
  destruct (encrypt_string P _ masterKey (advance 24 e) Hg Hf3) as (bg & Heg & _).
  exists bt, bc, bg. split; [exact Het|]. split; [exact Hec|]. split; [exact Heg|].
  intros vs d.
  assert (Hrun : db_run P UpdateNote vs (StorageService.db s) = Ok d) by reflexivity.
  split; [exact Hrun|].
  destruct (execute_values_ok P call UpdateNote vs s d Hi Hrun) as [Href Hexe].
  unfold Note.update. subst updatedData.
  cbn [NoteData.title NoteData.content NoteData.tags NoteData.is_favorite stringify_argument].
  rewrite !encode_argument_string, Het, Hec, Heg. cbn [bind].
  change [Some (JStr bt); Some (JStr bc); Some (JNum now); Some (JStr bg);
          Some (flag_number flag); Some (JStr id)]
    with (List.map Some vs).
  rewrite Href, Hexe. reflexivity.
Qed.

Lemma map_unmatched {A} (p : A -> bool) (f : A -> A) l :
  List.filter p l = [] -> (forall x, p x = false -> f x = x) -> List.map f l = l.
Proof.
  intros Hf H. induction l as [|x l IH]; [reflexivity|]. cbn [List.filter] in Hf.
  destruct (p x) eqn:Hp; [discriminate|]. cbn [List.map]. rewrite (H x Hp), (IH Hf).
  reflexivity.
Qed.

End NoteUpdate.

(** X14.  [Note.update] of an identifier that is not in the table changes
    nothing and raises no error: with a title, a content and tags within
    the argument limit of [encrypt], the statement runs (a save is
    requested as for any other), the instance stays exactly as it was, and
    the caller is not told that there was no such note. *)
Theorem Note_update_unknown_id_is_silent (P : Platform) (s : StorageService.state)
    (masterKey : CryptoKey P) (id : list Z) (now : Z) (e : Entropy) (call : nat)
    (title content : list Z) (tags : json) (flag : option json) :
  StorageService.isInitialized s = true ->
  is_string title = true -> is_string content = true ->
  is_string (JSON_stringify P tags) = true ->
  CryptoService.fits P title = true -> CryptoService.fits P content = true ->
  CryptoService.fits P (JSON_stringify P tags) = true ->
  Note.findById P s (VText id) masterKey = Ok None ->
  let updatedData :=
    {| NoteData.title := Some (JStr title); NoteData.content := Some (JStr content);
       NoteData.tags := Some tags; NoteData.is_favorite := flag |} in
  exists s',
    Note.update P id updatedData masterKey now e call s = (Ok tt, s') /\
    StorageService.db s' = StorageService.db s /\
    StorageService.applied s' = call :: StorageService.applied s /\
    Note.findById P s' (VText id) masterKey = Ok None.
Proof.
  intros Hi Ht Hc Hg Hf1 Hf2 Hf3 Hnone updatedData.
  destruct (update_runs P s masterKey id now e call title content tags flag Hi Ht Hc Hg
              Hf1 Hf2 Hf3)
    as (bt & bc & bg & _ & _ & _ & Hrun & Hu).
  cbv zeta in Hrun, Hu.
  destruct (execute_outcome P call UpdateNote _ s _ Hi Hrun) as (Hd & Hi' & Ha & _).
  assert (Hsel : Note.select_by_id (VText id) (StorageService.db s) = []).
  { revert Hnone. unfold Note.findById, StorageService.query. rewrite Hi. cbn [negb bind].
    destruct (Note.select_by_id _ _) as [|row rows]; [reflexivity|].
    destruct (Note.decryptRow P row masterKey); discriminate. }
  eexists. split; [exact Hu|].
  assert (Hsame : StorageService.db (StorageService.execute P call UpdateNote
                    [JStr bt; JStr bc; JNum now; JStr bg; flag_number flag; JStr id] s) =
                  StorageService.db s).
  { rewrite Hd. unfold Note.select_by_id in Hsel.
    rewrite (map_unmatched _ (updated_note bt bc now bg flag id) _ Hsel).
    - destruct (StorageService.db s); reflexivity.
    - intros r Hr. unfold updated_note, update_note. cbn [arg nth]. rewrite Hr. reflexivity. }
  split; [exact Hsame|]. split; [exact Ha|].
  rewrite <- Hnone. apply findById_instance; [congruence|]. rewrite Hsame. reflexivity.
Qed.

Lemma Note_update_unknown_id_is_silent_witness :
  let P := reference_platform in
  let s := StorageService.opened empty_database in
  let updatedData :=
    {| NoteData.title := Some (JStr (lit "t")); NoteData.content := Some (JStr (lit "c"));
       NoteData.tags := Some (JArr []); NoteData.is_favorite := None |} in
  StorageService.isInitialized s = true /\
  Note.findById P s (VText (lit "gone")) (Reference.key 7) = Ok None /\
  exists s',
    Note.update P (lit "gone") updatedData (Reference.key 7) 5 Reference.entropy 1 s =
      (Ok tt, s') /\
    StorageService.db s' = StorageService.db s /\
    StorageService.applied s' = 1%nat :: StorageService.applied s /\
    Note.findById P s' (VText (lit "gone")) (Reference.key 7) = Ok None.
Proof.
  split; [reflexivity|]. split; [reflexivity|].
  apply (Note_update_unknown_id_is_silent reference_platform
           (StorageService.opened empty_database) (Reference.key 7) (lit "gone") 5
           Reference.entropy 1 (lit "t") (lit "c") (JArr []) None);
    reflexivity.
Defined.

(** X15.  A note that was updated reads back with the new data, and the
    call returns as the scheduler settles it.  When the identifier is in
    the table, [Note.update] with a title and a content that are
    well-formed strings not starting with U+FEFF and tags whose JSON text
    is such a string and parses back, all three within the argument limit
    of [encrypt], throws nothing, and [Note.findById] then returns the new
    title, content, tags and favourite flag, the time of the update as
    [updatedAt], and the identifier and the creation time the row had.
    With [isSaving] raised the call returns at once and nothing is written
    for it.  On an idle service it returns when the durable write it
    started completes, the durable copy then being the instance with the
    updated note, and it is rejected when that write fails. *)
Theorem Note_findById_after_update (P : Platform) (s : StorageService.state)
    (masterKey : CryptoKey P) (id : list Z) (now : Z) (e : Entropy) (call : nat)
    (title content : list Z) (tags : json) (flag : option json)
    (row : Notes.row) (rows : list Notes.row) :
  StorageService.isInitialized s = true ->
  Note.select_by_id (VText id) (StorageService.db s) = row :: rows ->
  isWellFormed title = true -> has_bom title = false ->
  isWellFormed content = true -> has_bom content = false ->
  isWellFormed (JSON_stringify P tags) = true -> has_bom (JSON_stringify P tags) = false ->
  CryptoService.fits P title = true -> CryptoService.fits P content = true ->
  CryptoService.fits P (JSON_stringify P tags) = true ->
  JSON_parse P (JSON_stringify P tags) = Some tags ->
  let updatedData :=
    {| NoteData.title := Some (JStr title); NoteData.content := Some (JStr content);
       NoteData.tags := Some tags; NoteData.is_favorite := flag |} in
  let note :=
    {| Note.id := VText id; Note.title := Some title;
       Note.content := Some content; Note.tags := tags;
       Note.createdAt := Notes.created_at row; Note.updatedAt := VInt now;
       Note.isFavorite := js_truthy flag |} in
  exists s',
    Note.update P id updatedData masterKey now e call s = (Ok tt, s') /\
    Note.findById P s' (VText id) masterKey = Ok (Some note) /\
    (StorageService.isSaving s = true ->
       StorageService.outcome_of call s' = Some (StorageService.Resolved false) /\
       StorageService.db_file s' = StorageService.db_file s) /\
    (StorageService.isSaving s = false -> StorageService.running s = [] ->
     StorageService.saveQueue s = false ->
       let done := StorageService.step P s' StorageService.TransactionComplete in
       StorageService.outcome_of call done = Some (StorageService.Resolved true) /\
       option_map StorageService.snap_db (StorageService.db_file done) =
         Some (StorageService.db s') /\
       Note.findById P done (VText id) masterKey = Ok (Some note) /\
       StorageService.outcome_of call
         (StorageService.step P s' StorageService.TransactionError) =
         Some (StorageService.Rejected WriteError)).
Proof.
  intros Hi Hsel Ht1 Ht2 Hc1 Hc2 Hg1 Hg2 Hf1 Hf2 Hf3 Hg3 updatedData note.
  destruct (update_runs P s masterKey id now e call title content tags flag Hi
              (isWellFormed_string _ Ht1) (isWellFormed_string _ Hc1)
              (isWellFormed_string _ Hg1) Hf1 Hf2 Hf3)
    as (bt & bc & bg & Het & Hec & Heg & Hrun & Hu).
  cbv zeta in Hrun, Hu.
  destruct (decrypt_encrypt_wellformed P title masterKey e Ht1 Ht2 Hf1) as (bt' & Het' & Hdt).
  destruct (decrypt_encrypt_wellformed P content masterKey (advance 12 e) Hc1 Hc2 Hf2)
    as (bc' & Hec' & Hdc).
  destruct (decrypt_encrypt_wellformed P _ masterKey (advance 24 e) Hg1 Hg2 Hf3)
    as (bg' & Heg' & Hdg).
  assert (bt' = bt) by congruence. assert (bc' = bc) by congruence.
  assert (bg' = bg) by congruence. subst bt' bc' bg'.
  destruct (execute_outcome P call UpdateNote _ s _ Hi Hrun)
    as (Hd & Hi' & _ & Hbusy & Hidle).
  assert (Hrow : Notes.id row = VText id).
  { assert (Hin : In row (Note.select_by_id (VText id) (StorageService.db s)))
      by (rewrite Hsel; left; reflexivity).
    unfold Note.select_by_id in Hin. apply filter_In in Hin as [_ Hm].
    rewrite matches_text in Hm. apply bool_decide_eq_true_1 in Hm. exact Hm. }
  set (d := {| notes := List.map (updated_note bt bc now bg flag id)
                          (notes (StorageService.db s));
               events := events (StorageService.db s);
               settings := settings (StorageService.db s);
               has_events := has_events (StorageService.db s);
               has_settings := has_settings (StorageService.db s) |}) in *.
  assert (Hfind : forall t, StorageService.isInitialized t = true -> StorageService.db t = d ->
            Note.findById P t (VText id) masterKey = Ok (Some note)).
  { intros t Hit Hdt'. unfold Note.findById, StorageService.query.
    rewrite Hit, Hdt'. cbn [negb bind].
    unfold Note.select_by_id in *. subst d. cbn [notes].
    rewrite filter_map_commute.
    2:{ intros r. unfold updated_note. rewrite update_note_id. reflexivity. }
    rewrite Hsel. cbn [List.map].
    unfold updated_note at 1, update_note. cbn [arg nth].
    rewrite Hrow, matches_text, bool_decide_eq_true_2 by reflexivity.
    unfold Note.decryptRow.
    cbn [Notes.title_encrypted Notes.content_encrypted Notes.tags_encrypted Notes.id
         Notes.created_at Notes.updated_at Notes.is_favorite].
    rewrite !js_text_text, Hdt, Hdc, Hdg. cbn [nullable_string]. rewrite Hg3.
    cbn [bind]. subst note. repeat f_equal. destruct (js_truthy flag); reflexivity. }
  eexists. split; [exact Hu|]. split; [exact (Hfind _ Hi' Hd)|]. split; [exact Hbusy|].
  intros Hs Hr Hq. destruct (Hidle Hs Hr Hq) as (H1 & H2 & H3 & H4 & H5).
  cbv zeta. split; [exact H1|]. split; [rewrite H2, Hd; reflexivity|].
  split; [exact (Hfind _ H4 H3)|exact H5].
Qed.

Lemma Note_findById_after_update_witness :
  let P := reference_platform in
  let s := StorageService.opened
             {| notes := [damaged_note (lit "!")]; events := []; settings := [];
                has_events := false; has_settings := false |} in
  let updatedData :=
    {| NoteData.title := Some (JStr (lit "Repaired")); NoteData.content := Some (JStr (lit "ok"));
       NoteData.tags := Some (JArr []); NoteData.is_favorite := Some (JBool true) |} in
  let note :=
    {| Note.id := VText (lit "n1"); Note.title := Some (lit "Repaired");
       Note.content := Some (lit "ok"); Note.tags := JArr [];
       Note.createdAt := VInt 1; Note.updatedAt := VInt 99;
       Note.isFavorite := true |} in
  StorageService.isInitialized s = true /\
  Note.select_by_id (VText (lit "n1")) (StorageService.db s) = [damaged_note (lit "!")] /\
  exists s',
    Note.update P (lit "n1") updatedData (Reference.key 7) 99 Reference.entropy 1 s =
      (Ok tt, s') /\
    Note.findById P s' (VText (lit "n1")) (Reference.key 7) = Ok (Some note) /\
    (StorageService.isSaving s = true ->
       StorageService.outcome_of 1 s' = Some (StorageService.Resolved false) /\
       StorageService.db_file s' = StorageService.db_file s) /\
    (StorageService.isSaving s = false -> StorageService.running s = [] ->
     StorageService.saveQueue s = false ->
       let done := StorageService.step P s' StorageService.TransactionComplete in
       StorageService.outcome_of 1 done = Some (StorageService.Resolved true) /\
       option_map StorageService.snap_db (StorageService.db_file done) =
         Some (StorageService.db s') /\
       Note.findById P done (VText (lit "n1")) (Reference.key 7) = Ok (Some note) /\
       StorageService.outcome_of 1
         (StorageService.step P s' StorageService.TransactionError) =
         Some (StorageService.Rejected WriteError)).
Proof.
  split; [reflexivity|]. split; [reflexivity|].
  apply (Note_findById_after_update reference_platform
           (StorageService.opened
              {| notes := [damaged_note (lit "!")]; events := []; settings := [];
                 has_events := false; has_settings := false |})
           (Reference.key 7) (lit "n1") 99 Reference.entropy 1 (lit "Repaired") (lit "ok")
           (JArr []) (Some (JBool true)) (damaged_note (lit "!")) []);
    reflexivity.
Defined.

(** The order of ORDER BY is a total preorder. *)
Lemma bytes_le_total a b : Note.bytes_le a b = true \/ Note.bytes_le b a = true.
Proof.
  revert b. induction a as [|x a IH]; intros [|y b]; cbn [Note.bytes_le]; auto.
  destruct (IH b) as [H|H]; rewrite H; rewrite ?andb_true_r;
    destruct (Z.ltb_spec x y), (Z.ltb_spec y x), (Z.eqb_spec x y), (Z.eqb_spec y x);
    cbn; auto; lia.
Qed.

Lemma bytes_le_trans a b c :
  Note.bytes_le a b = true -> Note.bytes_le b c = true -> Note.bytes_le a c = true.
Proof.
  revert b c. induction a as [|x a IH]; intros [|y b] [|z c]; cbn [Note.bytes_le]; auto;
    try discriminate.
  intros H1 H2.
  apply orb_true_iff in H1 as [H1|H1]; apply orb_true_iff in H2 as [H2|H2];
    rewrite ?andb_true_iff in *; apply orb_true_iff.
  - left. lia.
  - left. lia.
  - left. lia.
  - destruct H1 as [H1 H1'], H2 as [H2 H2']. right. apply andb_true_iff.
    split; [lia|]. exact (IH b c H1' H2').
Qed.

Lemma sql_le_total v w : Note.sql_le v w = true \/ Note.sql_le w v = true.
Proof.
  destruct v, w; cbn; auto; try apply bytes_le_total. lia.
Qed.

Lemma sql_le_trans u v w : Note.sql_le u v = true -> Note.sql_le v w = true -> Note.sql_le u w = true.
Proof.
  destruct u, v, w; cbn; auto; try discriminate; try apply bytes_le_trans. lia.
Qed.

#[local] Instance later_total : Total Note.later.
Proof. intros r1 r2. unfold Note.later. apply sql_le_total. Qed.

#[local] Instance later_trans : Transitive Note.later.
Proof. intros r1 r2 r3. unfold Note.later. intros H1 H2. exact (sql_le_trans _ _ _ H2 H1). Qed.

Lemma decryptRows_ok (P : Platform) rows (masterKey : CryptoKey P) found :
  Note.decryptRows P rows masterKey = Ok found ->
  Forall2 (fun row note => Note.decryptRow P row masterKey = Ok note) rows found.
Proof.
  revert found. induction rows as [|row rows IH]; intros found; cbn [Note.decryptRows].
  - intros [= <-]. constructor.
  - destruct (Note.decryptRow P row masterKey) as [note|err] eqn:Hrow; [|discriminate].
    cbn [bind].
    destruct (Note.decryptRows P rows masterKey) as [rest|err]; [|discriminate].
    cbn [bind]. intros [= <-]. constructor; [exact Hrow|]. apply IH. reflexivity.
Qed.

Lemma decryptRows_throw (P : Platform) rows (masterKey : CryptoKey P) row err :
  In row rows -> Note.decryptRow P row masterKey = Throw err ->
  exists err', Note.decryptRows P rows masterKey = Throw err'.
Proof.
  induction rows as [|r rows IH]; intros Hin Hrow; [destruct Hin|].
  cbn [Note.decryptRows].
  destruct (Note.decryptRow P r masterKey) as [note|err0] eqn:Hr; cbn [bind];
    [|exists err0; reflexivity].
  destruct Hin as [->|Hin]; [congruence|].
  destruct (IH Hin Hrow) as (err' & ->). exists err'. reflexivity.
Qed.

(** X16.  [Note.findAll] lists every stored note once, the most recently
    updated first, and all or nothing: on an initialised service the rows
    it decrypts are a rearrangement of the table in descending order of
    [updated_at]; when it returns, the notes come in that order, each with
    the identifier and timestamps of its row; and a single stored note
    whose tags do not decrypt to JSON makes the whole call fail, so that no
    note is listed. *)
Theorem Note_findAll_latest_first (P : Platform) (s : StorageService.state)
    (masterKey : CryptoKey P) :
  StorageService.isInitialized s = true ->
  exists rows,
    Permutation rows (notes (StorageService.db s)) /\
    StronglySorted Note.later rows /\
    Note.findAll P s masterKey = Note.decryptRows P rows masterKey /\
    (forall found, Note.findAll P s masterKey = Ok found ->
       Forall2 (fun row note =>
                  Note.decryptRow P row masterKey = Ok note /\
                  Note.id note = Notes.id row /\
                  Note.createdAt note = Notes.created_at row /\
                  Note.updatedAt note = Notes.updated_at row) rows found) /\
    (forall row err, In row (notes (StorageService.db s)) ->
       Note.decryptRow P row masterKey = Throw err ->
       exists err', Note.findAll P s masterKey = Throw err').
Proof.
  intros Hi. exists (Note.select_all (StorageService.db s)).
  assert (Hperm : Permutation (Note.select_all (StorageService.db s))
                    (notes (StorageService.db s)))
    by apply merge_sort_Permutation.
  assert (Hall : Note.findAll P s masterKey =
                 Note.decryptRows P (Note.select_all (StorageService.db s)) masterKey).
  { unfold Note.findAll, StorageService.query. rewrite Hi. reflexivity. }
  split; [exact Hperm|]. split; [apply StronglySorted_merge_sort; apply _|].
  split; [exact Hall|]. split.
  - intros found Hfound. rewrite Hall in Hfound. apply decryptRows_ok in Hfound.
    eapply List.Forall2_impl; [|exact Hfound].
    intros row note Hrow. split; [exact Hrow|].
    unfold Note.decryptRow in Hrow.
    destruct (JSON_parse P _); [|discriminate]. injection Hrow as <-. auto.
  - intros row err Hin Hrow. rewrite Hall.
    apply (decryptRows_throw P _ masterKey row err); [|exact Hrow].
    apply (Permutation_in _ (Permutation_sym Hperm)), Hin.
Qed.

Lemma Note_findAll_latest_first_witness :
  let P := reference_platform in
  let note := fun (name : string) (time : Z) =>
    {| Notes.id := VText (lit name); Notes.title_encrypted := VText (lit "!");
       Notes.content_encrypted := VText (lit "!"); Notes.created_at := VInt 1;
       Notes.updated_at := VInt time; Notes.tags_encrypted := VText (lit "!");
       Notes.is_favorite := VInt 0 |} in
  let s := StorageService.opened
             {| notes := [note "a" 10; note "c" 30; note "b" 20]; events := [];
                settings := []; has_events := false; has_settings := false |} in
  StorageService.isInitialized s = true /\
  (exists rows,
    Permutation rows (notes (StorageService.db s)) /\
    StronglySorted Note.later rows /\
    Note.findAll P s (Reference.key 7) = Note.decryptRows P rows (Reference.key 7) /\
    (forall found, Note.findAll P s (Reference.key 7) = Ok found ->
       Forall2 (fun row note =>
                  Note.decryptRow P row (Reference.key 7) = Ok note /\
                  Note.id note = Notes.id row /\
                  Note.createdAt note = Notes.created_at row /\
                  Note.updatedAt note = Notes.updated_at row) rows found) /\
    (forall row err, In row (notes (StorageService.db s)) ->
       Note.decryptRow P row (Reference.key 7) = Throw err ->
       exists err', Note.findAll P s (Reference.key 7) = Throw err')) /\
  option_map (List.map Note.id) (match Note.findAll P s (Reference.key 7) with
                                 | Ok found => Some found
                                 | Throw _ => None
                                 end) =
    Some [VText (lit "c"); VText (lit "b"); VText (lit "a")].
Proof.
  split; [reflexivity|]. split; [|reflexivity].
  apply (Note_findAll_latest_first reference_platform). reflexivity.
Defined.

(** ** The Event model *)

(** The order of the range query is a total preorder. *)
#[local] Instance earlier_total : Total Event.earlier.
Proof. intros r1 r2. unfold Event.earlier. lia. Qed.

#[local] Instance earlier_trans : Transitive Event.earlier.
Proof. intros r1 r2 r3. unfold Event.earlier. lia. Qed.

Lemma in_range_spec a b r :
  Event.in_range a b r = true <->
  exists n, Events.start_time r = VInt n /\ a <= n <= b.
Proof.
  unfold Event.in_range. split.
  - destruct (Events.start_time r) as [|n| |]; try discriminate.
    rewrite andb_true_iff, !Z.leb_le. intros H. exists n. split; [reflexivity|lia].
  - intros (n & -> & Hn). rewrite andb_true_iff, !Z.leb_le. lia.
Qed.

(** X28.  Where the events table is there, the range query is right (no
    database the application has created itself has the table): on an
    initialised service, for every content of the table and every range,
    [Event.findByDateRange(startDate, endDate)] returns the decrypted rows
    of exactly the stored events whose [start_time] is a number with
    [startDate <= start_time <= endDate] (both bounds included, each stored
    row once), in ascending order of [start_time], each returned event
    carrying the stored [start_time]. *)
Theorem findByDateRange_in_range_ascending (P : Platform) (s : StorageService.state)
    (startDate endDate : Z) (masterKey : CryptoKey P) :
  StorageService.isInitialized s = true ->
  has_events (StorageService.db s) = true ->
  exists rows,
    Event.findByDateRange P s startDate endDate masterKey =
      Ok (List.map (fun row => Event.decryptRow P row masterKey) rows) /\
    Permutation rows (List.filter (Event.in_range startDate endDate) (events (StorageService.db s))) /\
    (forall row, In row rows <->
       In row (events (StorageService.db s)) /\
       exists n, Events.start_time row = VInt n /\ startDate <= n <= endDate) /\
    StronglySorted Event.earlier rows /\
    List.map Event.startTime
      (List.map (fun row => Event.decryptRow P row masterKey) rows) =
    List.map Events.start_time rows.
Proof.
  intros Hinit Htable.
  exists (Event.select_range startDate endDate (StorageService.db s)).
  unfold Event.findByDateRange, StorageService.query. rewrite Hinit, Htable. simpl.
  split; [reflexivity|].
  assert (Hperm : Permutation (Event.select_range startDate endDate (StorageService.db s))
            (List.filter (Event.in_range startDate endDate) (events (StorageService.db s)))).
  { unfold Event.select_range. apply merge_sort_Permutation. }
  split; [exact Hperm|]. split; [|split].
  - intros row. split.
    + intros Hin. apply (Permutation_in _ Hperm) in Hin.
      apply filter_In in Hin as [Hin Hr]. split; [exact Hin|].
      now apply in_range_spec.
    + intros [Hin Hr]. apply (Permutation_in _ (Permutation_sym Hperm)).
      apply filter_In. split; [exact Hin|]. now apply in_range_spec.
  - unfold Event.select_range. apply StronglySorted_merge_sort; apply _.
  - rewrite List.map_map. reflexivity.
Qed.


(** The example of the design document: of events at 10, 20 and 30, the
    range (15, 25) yields only the event at 20; the range (10, 30) yields
    all three, in ascending order. *)
Lemma findByDateRange_in_range_ascending_witness :
  let P := reference_platform in
  let s := StorageService.opened sample_events in
  StorageService.isInitialized s = true /\
  has_events (StorageService.db s) = true /\
  (exists rows,
    Event.findByDateRange P s 15 25 (Reference.key 7) =
      Ok (List.map (fun row => Event.decryptRow P row (Reference.key 7)) rows) /\
    Permutation rows (List.filter (Event.in_range 15 25) (events sample_events)) /\
    (forall row, In row rows <->
       In row (events sample_events) /\
       exists n, Events.start_time row = VInt n /\ 15 <= n <= 25) /\
    StronglySorted Event.earlier rows /\
    List.map Event.startTime
      (List.map (fun row => Event.decryptRow P row (Reference.key 7)) rows) =
    List.map Events.start_time rows) /\
  Event.findByDateRange P s 15 25 (Reference.key 7) =
    Ok [Event.decryptRow P (sample_event "b" 20) (Reference.key 7)] /\
  Event.findByDateRange P s 10 30 (Reference.key 7) =
    Ok (List.map (fun row => Event.decryptRow P row (Reference.key 7))
          [sample_event "a" 10; sample_event "b" 20; sample_event "c" 30]).
Proof.
  split; [reflexivity|]. split; [reflexivity|]. split; [|split; reflexivity].
  apply (findByDateRange_in_range_ascending reference_platform
           (StorageService.opened sample_events) 15 25 (Reference.key 7) eq_refl eq_refl).
Defined.

Section EventModel.
Context (P : Platform).

(** A statement on the events table where the table is not there. *)
Lemma events_statement_no_table sql vs d :
  table_exists sql d = has_events d -> has_events d = false ->
  db_run P sql vs d = Throw SqlError.
Proof. intros Hsql Ht. unfold db_run. rewrite Hsql, Ht. reflexivity. Qed.

(** What a call whose statement the engine refused leaves. *)
Lemma refused_call call sql (vs : list json) s err startDate endDate masterKey :
  StorageService.isInitialized s = true ->
  has_events (StorageService.db s) = false ->
  db_run P sql vs (StorageService.db s) = Throw err ->
  let s' := StorageService.execute_values P call sql (List.map Some vs) s in
  StorageService.refusal P sql (List.map Some vs) s = Some err /\
  StorageService.db s' = StorageService.db s /\
  StorageService.outcome_of call s' = Some (StorageService.Rejected err) /\
  Event.findByDateRange P s' startDate endDate masterKey = Throw SqlError.
Proof.
  intros Hi Ht Hrun s'. subst s'.
  destruct (execute_values_refused P call sql vs s err Hi Hrun) as [Href ->].
  split; [exact Href|]. split; [reflexivity|]. split; [apply outcome_of_settle|].
  apply findByDateRange_no_table; assumption.
Qed.

(** The event [decryptRow] makes of a row written with a title and a
    description and no recurrence rule. *)
Lemma decryptRow_written (masterKey : CryptoKey P) id bt bd title description
    startTime endTime (allDay : bool) calendarType :
  CryptoService.decrypt P bt masterKey = Some title ->
  CryptoService.decrypt P bd masterKey = Some description ->
  Event.decryptRow P
    {| Events.id := VText id; Events.title_encrypted := VText bt;
       Events.description_encrypted := VText bd;
       Events.start_time := VInt startTime; Events.end_time := VInt endTime;
       Events.is_all_day := VInt (if js_truthy (Some (JBool allDay)) then 1 else 0);
       Events.calendar_type := VText calendarType;
       Events.rrule_encrypted := VNull |} masterKey =
    {| Event.id := VText id; Event.title := Some title;
       Event.description := Some description; Event.startTime := VInt startTime;
       Event.endTime := VInt endTime; Event.isAllDay := allDay;
       Event.calendarType := VText calendarType; Event.rrule := None |}.
Proof.
  intros Hdt Hdd. unfold Event.decryptRow.
  cbn [Events.id Events.title_encrypted Events.description_encrypted Events.start_time
       Events.end_time Events.is_all_day Events.calendar_type Events.rrule_encrypted
       truthy].
  rewrite !js_text_text, Hdt, Hdd, flag_number_favorite. reflexivity.
Qed.

End EventModel.

(** X17.  An event that was created is found by its date, where there is
    an events table.  For a title and a description that are well-formed
    strings not starting with U+FEFF and within the argument limit of
    [encrypt], numeric start and end times, a calendar type and an
    identifier not yet in the table, [Event.create] throws nothing, and
    [Event.findByDateRange] over any range that includes the start time
    then returns the event with the data that was passed and no recurrence
    rule; with [isSaving] raised the call returns at once, on an idle
    service when the durable write it started completes, and it is
    rejected when that write fails.  Where the table is not there, as in
    every database the application has created itself, [Event.create]
    throws the error of the engine, the instance stays as it was, and the
    range query throws. *)
Theorem Event_findByDateRange_after_create (P : Platform) (s : StorageService.state)
    (masterKey : CryptoKey P) (id : list Z) (e : Entropy) (call : nat)
    (title description calendarType : list Z) (startTime endTime : Z) (allDay : bool)
    (startDate endDate : Z) :
  StorageService.isInitialized s = true ->
  isWellFormed title = true -> has_bom title = false ->
  isWellFormed description = true -> has_bom description = false ->
  CryptoService.fits P title = true -> CryptoService.fits P description = true ->
  startDate <= startTime <= endDate ->
  let eventData :=
    {| EventData.id := None; EventData.title := Some (JStr title);
       EventData.description := Some (JStr description);
       EventData.startTime := Some (JNum startTime);
       EventData.endTime := Some (JNum endTime);
       EventData.isAllDay := Some (JBool allDay);
       EventData.calendarType := Some (JStr calendarType);
       EventData.rrule := None |} in
  let event :=
    {| Event.id := VText id; Event.title := Some title;
       Event.description := Some description; Event.startTime := VInt startTime;
       Event.endTime := VInt endTime; Event.isAllDay := allDay;
       Event.calendarType := VText calendarType; Event.rrule := None |} in
  (has_events (StorageService.db s) = true ->
   key_taken Events.id (VText id) (events (StorageService.db s)) = false ->
   exists created s' found,
     Event.create P eventData masterKey id e call s = (Ok created, s') /\
     EventData.id created = Some (JStr id) /\
     Event.findByDateRange P s' startDate endDate masterKey = Ok found /\
     In event found /\
     (StorageService.isSaving s = true ->
        StorageService.outcome_of call s' = Some (StorageService.Resolved false) /\
        StorageService.db_file s' = StorageService.db_file s) /\
     (StorageService.isSaving s = false -> StorageService.running s = [] ->
      StorageService.saveQueue s = false ->
        let done := StorageService.step P s' StorageService.TransactionComplete in
        StorageService.outcome_of call done = Some (StorageService.Resolved true) /\
        option_map StorageService.snap_db (StorageService.db_file done) =
          Some (StorageService.db s') /\
        StorageService.outcome_of call
          (StorageService.step P s' StorageService.TransactionError) =
          Some (StorageService.Rejected WriteError))) /\
  (has_events (StorageService.db s) = false ->
   exists s',
     Event.create P eventData masterKey id e call s = (Throw SqlError, s') /\
     StorageService.db s' = StorageService.db s /\
     StorageService.outcome_of call s' = Some (StorageService.Rejected SqlError) /\
     Event.findByDateRange P s' startDate endDate masterKey = Throw SqlError).
Proof.
  intros Hi Ht1 Ht2 Hd1 Hd2 Hf1 Hf2 Hrange eventData event.
  destruct (decrypt_encrypt_wellformed P title masterKey e Ht1 Ht2 Hf1) as (bt & Het & Hdt).
  destruct (decrypt_encrypt_wellformed P description masterKey (advance 12 e) Hd1 Hd2 Hf2)
    as (bd & Hed & Hdd).
  set (vs := [JStr id; JStr bt; JStr bd; JNum startTime; JNum endTime;
              flag_number (Some (JBool allDay)); JStr calendarType; JNull]).
  assert (Hcreate : forall r,
    Event.create P eventData masterKey id e call s =
      (match StorageService.refusal P InsertEvent (List.map Some vs) s with
       | Some err => Throw err
       | None => Ok r
       end,
       StorageService.execute_values P call InsertEvent (List.map Some vs) s) ->
    Event.create P eventData masterKey id e call s =
      (match StorageService.refusal P InsertEvent (List.map Some vs) s with
       | Some err => Throw err
       | None => Ok r
       end,
       StorageService.execute_values P call InsertEvent (List.map Some vs) s))
    by auto.
  assert (Hc : exists created,
    EventData.id created = Some (JStr id) /\
    Event.create P eventData masterKey id e call s =
      (match StorageService.refusal P InsertEvent (List.map Some vs) s with
       | Some err => Throw err
       | None => Ok created
       end,
       StorageService.execute_values P call InsertEvent (List.map Some vs) s)).
  { unfold Event.create. subst eventData.
    cbn [EventData.id EventData.title EventData.description EventData.startTime
         EventData.endTime EventData.isAllDay EventData.calendarType EventData.rrule
         default from_option Datatypes.id].
    rewrite !encode_argument_string, Het, Hed. cbn [bind].
    unfold Event.encrypt_rrule. cbn [js_truthy bind].
    eexists. split; [|reflexivity]. reflexivity. }
  clear Hcreate. destruct Hc as (created & Hid & Hc).
  split.
  - intros Htable Hfresh.
    set (row := {| Events.id := VText id; Events.title_encrypted := VText bt;
                   Events.description_encrypted := VText bd;
                   Events.start_time := VInt startTime; Events.end_time := VInt endTime;
                   Events.is_all_day :=
                     VInt (if js_truthy (Some (JBool allDay)) then 1 else 0);
                   Events.calendar_type := VText calendarType;
                   Events.rrule_encrypted := VNull |}).
    set (d := {| notes := notes (StorageService.db s);
                 events := events (StorageService.db s) ++ [row];
                 settings := settings (StorageService.db s);
                 has_events := has_events (StorageService.db s);
                 has_settings := has_settings (StorageService.db s) |}).
    assert (Hrun : db_run P InsertEvent vs (StorageService.db s) = Ok d).
    { unfold db_run. cbn [table_exists]. rewrite Htable. subst vs d.
      cbn [negb bind_params placeholders length Nat.ltb Nat.leb bind_values bind_value
           bind flag_number].
      unfold insert_event. cbn [arg nth is_null orb]. rewrite Hfresh. reflexivity. }
    destruct (execute_values_ok P call InsertEvent vs s d Hi Hrun) as [Href Hexe].
    destruct (execute_outcome P call InsertEvent vs s d Hi Hrun)
      as (Hd & Hi' & _ & Hbusy & Hidle).
    rewrite Href, Hexe in Hc.
    assert (Hfound : exists found,
              Event.findByDateRange P (StorageService.execute P call InsertEvent vs s)
                startDate endDate masterKey = Ok found /\ In event found).
    { unfold Event.findByDateRange, StorageService.query. rewrite Hi', Hd.
      cbn [negb]. subst d. cbn [has_events]. rewrite Htable. cbn [table_rows bind].
      eexists. split; [reflexivity|].
      subst event. rewrite <- (decryptRow_written P masterKey id bt bd _ _ _ _ _ _ Hdt Hdd).
      apply (in_map (fun r => Event.decryptRow P r masterKey)).
      unfold Event.select_range. cbn [events].
      apply (Permutation_in _ (Permutation_sym (merge_sort_Permutation _ _))).
      apply filter_In. split; [apply in_or_app; right; left; reflexivity|].
      unfold Event.in_range. cbn [Events.start_time]. lia. }
    destruct Hfound as (found & Hfound & Hin).
    exists created. eexists. exists found. split; [exact Hc|]. split; [exact Hid|].
    split; [exact Hfound|]. split; [exact Hin|]. split; [exact Hbusy|].
    intros Hs Hr Hq. destruct (Hidle Hs Hr Hq) as (H1 & H2 & H3 & H4 & H5).
    cbv zeta. split; [exact H1|]. split; [rewrite H2, Hd; reflexivity|exact H5].
  - intros Htable.
    assert (Hrun : db_run P InsertEvent vs (StorageService.db s) = Throw SqlError)
      by (apply events_statement_no_table; [reflexivity|exact Htable]).
    destruct (refused_call P call InsertEvent vs s SqlError startDate endDate masterKey
                Hi Htable Hrun) as (Href & H1 & H2 & H3).
    rewrite Href in Hc. eexists. split; [exact Hc|]. split; [exact H1|].
    split; [exact H2|exact H3].
Qed.

Lemma Event_findByDateRange_after_create_witness :
  let P := reference_platform in
  let s := StorageService.opened sample_events in
  let first_run :=
    StorageService.init P 0 true true true (StorageService.created None) in
  let eventData :=
    {| EventData.id := None; EventData.title := Some (JStr (lit "Dentist"));
       EventData.description := Some (JStr []);
       EventData.startTime := Some (JNum 25);
       EventData.endTime := Some (JNum 26);
       EventData.isAllDay := Some (JBool false);
       EventData.calendarType := Some (JStr (lit "gregorian"));
       EventData.rrule := None |} in
  let event :=
    {| Event.id := VText (lit "e9"); Event.title := Some (lit "Dentist");
       Event.description := Some []; Event.startTime := VInt 25;
       Event.endTime := VInt 26; Event.isAllDay := false;
       Event.calendarType := VText (lit "gregorian"); Event.rrule := None |} in
  20 <= 25 <= 30 /\
  (StorageService.isInitialized s = true /\
   has_events (StorageService.db s) = true /\
   key_taken Events.id (VText (lit "e9")) (events (StorageService.db s)) = false /\
   exists created s' found,
     Event.create P eventData (Reference.key 7) (lit "e9") Reference.entropy 1 s =
       (Ok created, s') /\
     EventData.id created = Some (JStr (lit "e9")) /\
     Event.findByDateRange P s' 20 30 (Reference.key 7) = Ok found /\
     In event found /\
     (StorageService.isSaving s = true ->
        StorageService.outcome_of 1 s' = Some (StorageService.Resolved false) /\
        StorageService.db_file s' = StorageService.db_file s) /\
     (StorageService.isSaving s = false -> StorageService.running s = [] ->
      StorageService.saveQueue s = false ->
        let done := StorageService.step P s' StorageService.TransactionComplete in
        StorageService.outcome_of 1 done = Some (StorageService.Resolved true) /\
        option_map StorageService.snap_db (StorageService.db_file done) =
          Some (StorageService.db s') /\
        StorageService.outcome_of 1
          (StorageService.step P s' StorageService.TransactionError) =
          Some (StorageService.Rejected WriteError))) /\
  (StorageService.isInitialized first_run = true /\
   has_events (StorageService.db first_run) = false /\
   exists s',
     Event.create P eventData (Reference.key 7) (lit "e9") Reference.entropy 1 first_run =
       (Throw SqlError, s') /\
     StorageService.db s' = StorageService.db first_run /\
     StorageService.outcome_of 1 s' = Some (StorageService.Rejected SqlError) /\
     Event.findByDateRange P s' 20 30 (Reference.key 7) = Throw SqlError).
Proof.
  assert (Hr : 20 <= 25 <= 30) by lia.
  split; [exact Hr|]. split.
  - split; [reflexivity|]. split; [reflexivity|]. split; [reflexivity|].
    apply (proj1 (Event_findByDateRange_after_create reference_platform
                    (StorageService.opened sample_events) (Reference.key 7) (lit "e9")
                    Reference.entropy 1 (lit "Dentist") [] (lit "gregorian") 25 26 false
                    20 30 eq_refl eq_refl eq_refl eq_refl eq_refl eq_refl eq_refl Hr));
      reflexivity.
  - split; [reflexivity|]. split; [reflexivity|].
    apply (proj2 (Event_findByDateRange_after_create reference_platform
                    (StorageService.init reference_platform 0 true true true
                       (StorageService.created None))
                    (Reference.key 7) (lit "e9")
                    Reference.entropy 1 (lit "Dentist") [] (lit "gregorian") 25 26 false
                    20 30 eq_refl eq_refl eq_refl eq_refl eq_refl eq_refl eq_refl Hr));
      reflexivity.
Defined.

Lemma insert_event_without_calendar_type (P : Platform) (s : StorageService.state)
    (v0 v1 v2 : json) (startTime endTime : option json) (v5 : json)
    (calendarType : option json) (v7 : json) :
  StorageService.isInitialized s = true ->
  calendarType = None \/ calendarType = Some JNull ->
  exists err,
    StorageService.refusal P InsertEvent
      [Some v0; Some v1; Some v2; startTime; endTime; Some v5; calendarType; Some v7] s =
    Some err.
Proof.
  intros Hi Hcal. unfold StorageService.refusal. rewrite Hi. cbn [negb].
  match goal with |- context [StorageService.defined ?ps] =>
    destruct (StorageService.defined ps) as [values|] eqn:Hdef
  end; [|exists SqlError; reflexivity].
  destruct Hcal as [->| ->].
  { exfalso. revert Hdef.
    destruct startTime, endTime; cbn [StorageService.defined]; discriminate. }
  destruct startTime as [st|], endTime as [en|]; cbn [StorageService.defined] in Hdef;
    try discriminate Hdef.
  injection Hdef as <-.
  unfold db_run. cbn [table_exists].
  destruct (has_events (StorageService.db s)); cbn [negb]; [|exists SqlError; reflexivity].
  unfold bind_params.
  cbn [placeholders length Nat.ltb Nat.leb bind_values bind].
  destruct (bind_value P v0) as [x0|err0]; cbn [bind]; [|exists err0; reflexivity].
  destruct (bind_value P v1) as [x1|err1]; cbn [bind]; [|exists err1; reflexivity].
  destruct (bind_value P v2) as [x2|err2]; cbn [bind]; [|exists err2; reflexivity].
  destruct (bind_value P st) as [x3|err3]; cbn [bind]; [|exists err3; reflexivity].
  destruct (bind_value P en) as [x4|err4]; cbn [bind]; [|exists err4; reflexivity].
  destruct (bind_value P v5) as [x5|err5]; cbn [bind]; [|exists err5; reflexivity].
  cbn [bind_value bind].
  destruct (bind_value P v7) as [x7|err7]; cbn [bind]; [|exists err7; reflexivity].
  unfold insert_event. cbn [arg nth is_null]. rewrite !orb_true_r.
  exists SqlError. reflexivity.
Qed.

(** X18.  An event without a calendar type is not stored: when the
    [calendarType] of the data is absent or [null] (as in the object
    [createNewEvent] of the event controller builds, which has no
    [calendarType] and no [endTime]), [Event.create] on an initialised
    service, with a title and a description within the argument limit of
    [encrypt], ends in a rejected [execute] whose exception it throws,
    whatever the other fields, and the instance is left as it was. *)
Theorem Event_create_needs_calendarType (P : Platform) (s : StorageService.state)
    (masterKey : CryptoKey P) (id : list Z) (e : Entropy) (call : nat)
    (title description : list Z)
    (own startTime endTime isAllDay calendarType : option json) :
  StorageService.isInitialized s = true ->
  is_string title = true -> is_string description = true ->
  CryptoService.fits P title = true -> CryptoService.fits P description = true ->
  calendarType = None \/ calendarType = Some JNull ->
  let eventData :=
    {| EventData.id := own; EventData.title := Some (JStr title);
       EventData.description := Some (JStr description);
       EventData.startTime := startTime; EventData.endTime := endTime;
       EventData.isAllDay := isAllDay; EventData.calendarType := calendarType;
       EventData.rrule := None |} in
  exists s' err,
    Event.create P eventData masterKey id e call s = (Throw err, s') /\
    StorageService.db s' = StorageService.db s /\
    StorageService.settled s' =
      (call, StorageService.Rejected err) :: StorageService.settled s.
Proof.
  intros Hi Ht Hd Hf1 Hf2 Hcal eventData.
  destruct (encrypt_string P title masterKey e Ht Hf1) as (bt & Het & _).
  destruct (encrypt_string P description masterKey (advance 12 e) Hd Hf2) as (bd & Hed & _).
  unfold Event.create. subst eventData.
  cbn [EventData.id EventData.title EventData.description EventData.startTime
       EventData.endTime EventData.isAllDay EventData.calendarType EventData.rrule
       default from_option Datatypes.id].
  rewrite !encode_argument_string, Het, Hed. cbn [bind].
  unfold Event.encrypt_rrule. cbn [js_truthy bind].
  destruct (insert_event_without_calendar_type P s (JStr id) (JStr bt) (JStr bd)
              startTime endTime (flag_number (Some (default (JBool false) isAllDay)))
              calendarType JNull Hi Hcal) as (err & Herr).
  rewrite Herr, (execute_values_refusal P call _ _ s err Herr).
  eexists. exists err. split; [reflexivity|]. split; reflexivity.
Qed.

(** The object [createNewEvent] builds for a default date, saved as it is. *)
Lemma Event_create_needs_calendarType_witness :
  let P := reference_platform in
  let s := StorageService.opened sample_events in
  let activeEvent :=
    {| EventData.id := Some JNull; EventData.title := Some (JStr []);
       EventData.description := Some (JStr []);
       EventData.startTime := Some (JNum 1700000000000); EventData.endTime := None;
       EventData.isAllDay := Some (JBool false); EventData.calendarType := None;
       EventData.rrule := None |} in
  StorageService.isInitialized s = true /\
  exists s' err,
    Event.create P activeEvent (Reference.key 7) (lit "e1") Reference.entropy 1 s =
      (Throw err, s') /\
    StorageService.db s' = StorageService.db s /\
    StorageService.settled s' =
      (1%nat, StorageService.Rejected err) :: StorageService.settled s.
Proof.
  split; [reflexivity|].
  apply (Event_create_needs_calendarType reference_platform
           (StorageService.opened sample_events) (Reference.key 7) (lit "e1")
           Reference.entropy 1
           [] [] (Some JNull) (Some (JNum 1700000000000)) None (Some (JBool false)) None);
    try reflexivity. left. reflexivity.
Defined.

Lemma update_event_id xs r : Events.id (update_event xs r) = Events.id r.
Proof. unfold update_event. destruct (matches _ _); reflexivity. Qed.

(** X19.  [Event.delete(id)] removes the event of that identifier from
    every range and nothing else, where there is an events table: on an
    initialised service, a range query after the deletion returns no event
    with that identifier, and returns the decrypted row of any other
    stored event exactly when its start time is in the range.  Where the
    table is not there, as in every database the application has created
    itself, the call is rejected with the error of the engine and the
    range query throws. *)
Theorem Event_delete_removes_from_every_range (P : Platform) (s : StorageService.state)
    (masterKey : CryptoKey P) (id : list Z) (call : nat) (startDate endDate : Z) :
  StorageService.isInitialized s = true ->
  let s' := Event.delete P id call s in
  (has_events (StorageService.db s) = true ->
   exists rows,
     Event.findByDateRange P s' startDate endDate masterKey =
       Ok (List.map (fun row => Event.decryptRow P row masterKey) rows) /\
     forall row, In row rows <->
       In row (events (StorageService.db s)) /\ Events.id row <> VText id /\
       Event.in_range startDate endDate row = true) /\
  (has_events (StorageService.db s) = false ->
   StorageService.outcome_of call s' = Some (StorageService.Rejected SqlError) /\
   StorageService.db s' = StorageService.db s /\
   Event.findByDateRange P s' startDate endDate masterKey = Throw SqlError).
Proof.
  intros Hi s'. subst s'. unfold Event.delete. split; intros Htable.
  - assert (Hrun : db_run P DeleteEvent [JStr id] (StorageService.db s) =
              Ok {| notes := notes (StorageService.db s);
                    events := List.filter
                                (fun r => negb (matches (VText id) (Events.id r)))
                                (events (StorageService.db s));
                    settings := settings (StorageService.db s);
                    has_events := has_events (StorageService.db s);
                    has_settings := has_settings (StorageService.db s) |}).
    { unfold db_run. cbn [table_exists]. rewrite Htable. reflexivity. }
    destruct (execute_ok P call DeleteEvent [JStr id] s _ Hi Hrun) as [Hd Hi'].
    eexists. unfold Event.findByDateRange, StorageService.query. rewrite Hi', Hd.
    cbn [negb has_events]. rewrite Htable. cbn [table_rows bind]. split; [reflexivity|].
    intros row. unfold Event.select_range. cbn [events].
    split.
    + intros Hin. apply (Permutation_in _ (merge_sort_Permutation _ _)) in Hin.
      apply filter_In in Hin as [Hin Hr]. apply filter_In in Hin as [Hin Hid].
      split; [exact Hin|]. split; [|exact Hr].
      intros Heq. rewrite Heq, matches_text, bool_decide_eq_true_2 in Hid by reflexivity.
      discriminate.
    + intros (Hin & Hid & Hr).
      apply (Permutation_in _ (Permutation_sym (merge_sort_Permutation _ _))).
      apply filter_In. split; [|exact Hr]. apply filter_In. split; [exact Hin|].
      rewrite matches_text, bool_decide_eq_false_2 by exact Hid. reflexivity.
  - assert (Hrun : db_run P DeleteEvent [JStr id] (StorageService.db s) = Throw SqlError)
      by (apply events_statement_no_table; [reflexivity|exact Htable]).
    unfold StorageService.execute. rewrite Hi, Hrun. cbn [negb].
    split; [apply outcome_of_settle|]. split; [reflexivity|].
    apply findByDateRange_no_table; assumption.
Qed.

Lemma Event_delete_removes_from_every_range_witness :
  let P := reference_platform in
  let s := StorageService.opened sample_events in
  let first_run :=
    StorageService.init P 0 true true true (StorageService.created None) in
  (StorageService.isInitialized s = true /\
   has_events (StorageService.db s) = true /\
   (exists rows,
     Event.findByDateRange P (Event.delete P (lit "b") 1 s) 10 30 (Reference.key 7) =
       Ok (List.map (fun row => Event.decryptRow P row (Reference.key 7)) rows) /\
     forall row, In row rows <->
       In row (events (StorageService.db s)) /\ Events.id row <> VText (lit "b") /\
       Event.in_range 10 30 row = true) /\
   Event.findByDateRange P (Event.delete P (lit "b") 1 s) 10 30 (Reference.key 7) =
     Ok (List.map (fun row => Event.decryptRow P row (Reference.key 7))
           [sample_event "a" 10; sample_event "c" 30])) /\
  (StorageService.isInitialized first_run = true /\
   has_events (StorageService.db first_run) = false /\
   StorageService.outcome_of 1 (Event.delete P (lit "b") 1 first_run) =
     Some (StorageService.Rejected SqlError) /\
   StorageService.db (Event.delete P (lit "b") 1 first_run) = StorageService.db first_run /\
   Event.findByDateRange P (Event.delete P (lit "b") 1 first_run) 10 30 (Reference.key 7) =
     Throw SqlError).
Proof.
  split.
  - split; [reflexivity|]. split; [reflexivity|]. split; [|reflexivity].
    apply (proj1 (Event_delete_removes_from_every_range reference_platform
                    (StorageService.opened sample_events) (Reference.key 7) (lit "b") 1
                    10 30 eq_refl)).
    reflexivity.
  - split; [reflexivity|]. split; [reflexivity|].
    apply (proj2 (Event_delete_removes_from_every_range reference_platform
                    (StorageService.init reference_platform 0 true true true
                       (StorageService.created None))
                    (Reference.key 7) (lit "b") 1 10 30 eq_refl)).
    reflexivity.
Defined.

(** X20.  An event that was updated is found by its new date, where there
    is an events table.  When the identifier is in the table,
    [Event.update] with a title and a description that are well-formed
    strings not starting with U+FEFF and within the argument limit of
    [encrypt], numeric start and end times and a calendar type throws
    nothing, and [Event.findByDateRange] over any range that includes the
    new start time then returns the event with the new data under its
    identifier; with [isSaving] raised the call returns at once, on an
    idle service when the durable write it started completes, and it is
    rejected when that write fails.  Where the table is not there, as in
    every database the application has created itself, [Event.update]
    throws the error of the engine and the instance stays as it was. *)
Theorem Event_findByDateRange_after_update (P : Platform) (s : StorageService.state)
    (masterKey : CryptoKey P) (id : list Z) (e : Entropy) (call : nat)
    (title description calendarType : list Z) (startTime endTime : Z) (allDay : bool)
    (startDate endDate : Z) :
  StorageService.isInitialized s = true ->
  isWellFormed title = true -> has_bom title = false ->
  isWellFormed description = true -> has_bom description = false ->
  CryptoService.fits P title = true -> CryptoService.fits P description = true ->
  startDate <= startTime <= endDate ->
  let updatedData :=
    {| EventData.id := Some (JStr id); EventData.title := Some (JStr title);
       EventData.description := Some (JStr description);
       EventData.startTime := Some (JNum startTime);
       EventData.endTime := Some (JNum endTime);
       EventData.isAllDay := Some (JBool allDay);
       EventData.calendarType := Some (JStr calendarType);
       EventData.rrule := None |} in
  let event :=
    {| Event.id := VText id; Event.title := Some title;
       Event.description := Some description; Event.startTime := VInt startTime;
       Event.endTime := VInt endTime; Event.isAllDay := allDay;
       Event.calendarType := VText calendarType; Event.rrule := None |} in
  (has_events (StorageService.db s) = true ->
   (exists row, In row (events (StorageService.db s)) /\ Events.id row = VText id) ->
   exists s' found,
     Event.update P id updatedData masterKey e call s = (Ok tt, s') /\
     Event.findByDateRange P s' startDate endDate masterKey = Ok found /\
     In event found /\
     (StorageService.isSaving s = true ->
        StorageService.outcome_of call s' = Some (StorageService.Resolved false) /\
        StorageService.db_file s' = StorageService.db_file s) /\
     (StorageService.isSaving s = false -> StorageService.running s = [] ->
      StorageService.saveQueue s = false ->
        let done := StorageService.step P s' StorageService.TransactionComplete in
        StorageService.outcome_of call done = Some (StorageService.Resolved true) /\
        option_map StorageService.snap_db (StorageService.db_file done) =
          Some (StorageService.db s') /\
        StorageService.outcome_of call
          (StorageService.step P s' StorageService.TransactionError) =
          Some (StorageService.Rejected WriteError))) /\
  (has_events (StorageService.db s) = false ->
   exists s',
     Event.update P id updatedData masterKey e call s = (Throw SqlError, s') /\
     StorageService.db s' = StorageService.db s /\
     StorageService.outcome_of call s' = Some (StorageService.Rejected SqlError) /\
     Event.findByDateRange P s' startDate endDate masterKey = Throw SqlError).
Proof.
  intros Hi Ht1 Ht2 Hd1 Hd2 Hf1 Hf2 Hrange updatedData event.
  destruct (decrypt_encrypt_wellformed P title masterKey e Ht1 Ht2 Hf1) as (bt & Het & Hdt).
  destruct (decrypt_encrypt_wellformed P description masterKey (advance 12 e) Hd1 Hd2 Hf2)
    as (bd & Hed & Hdd).
  set (vs := [JStr bt; JStr bd; JNum startTime; JNum endTime;
              flag_number (Some (JBool allDay)); JStr calendarType; JNull; JStr id]).
  assert (Hu : Event.update P id updatedData masterKey e call s =
      (match StorageService.refusal P UpdateEvent (List.map Some vs) s with
       | Some err => Throw err
       | None => Ok tt
       end,
       StorageService.execute_values P call UpdateEvent (List.map Some vs) s)).
  { unfold Event.update. subst updatedData.
    cbn [EventData.id EventData.title EventData.description EventData.startTime
         EventData.endTime EventData.isAllDay EventData.calendarType EventData.rrule].
    rewrite !encode_argument_string, Het, Hed. cbn [bind].
    unfold Event.encrypt_rrule. cbn [js_truthy bind]. reflexivity. }
  split.
  - intros Htable (row & Hin & Hid).
    set (xs := [VText bt; VText bd; VInt startTime; VInt endTime;
                VInt (if js_truthy (Some (JBool allDay)) then 1 else 0);
                VText calendarType; VNull; VText id]).
    set (d := {| notes := notes (StorageService.db s);
                 events := List.map (update_event xs) (events (StorageService.db s));
                 settings := settings (StorageService.db s);
                 has_events := has_events (StorageService.db s);
                 has_settings := has_settings (StorageService.db s) |}).
    assert (Hrun : db_run P UpdateEvent vs (StorageService.db s) = Ok d).
    { unfold db_run. cbn [table_exists].
      replace (negb (has_events (StorageService.db s))) with false
        by (rewrite Htable; reflexivity).
      subst vs d.
      cbn [negb bind_params placeholders length Nat.ltb Nat.leb bind_values bind_value
           bind flag_number]. fold xs. cbn [xs arg nth is_null orb].
      rewrite andb_false_r. reflexivity. }
    destruct (execute_values_ok P call UpdateEvent vs s d Hi Hrun) as [Href Hexe].
    destruct (execute_outcome P call UpdateEvent vs s d Hi Hrun)
      as (Hd & Hi' & _ & Hbusy & Hidle).
    rewrite Href, Hexe in Hu.
    assert (Hfound : exists found,
              Event.findByDateRange P (StorageService.execute P call UpdateEvent vs s)
                startDate endDate masterKey = Ok found /\ In event found).
    { unfold Event.findByDateRange, StorageService.query. rewrite Hi', Hd.
      cbn [negb]. subst d. cbn [has_events]. rewrite Htable. cbn [table_rows bind].
      eexists. split; [reflexivity|].
      assert (Hnew : update_event xs row =
                {| Events.id := VText id; Events.title_encrypted := VText bt;
                   Events.description_encrypted := VText bd;
                   Events.start_time := VInt startTime; Events.end_time := VInt endTime;
                   Events.is_all_day :=
                     VInt (if js_truthy (Some (JBool allDay)) then 1 else 0);
                   Events.calendar_type := VText calendarType;
                   Events.rrule_encrypted := VNull |}).
      { unfold update_event. cbn [xs arg nth].
        rewrite Hid, matches_text, bool_decide_eq_true_2 by reflexivity. reflexivity. }
      subst event. rewrite <- (decryptRow_written P masterKey id bt bd _ _ _ _ _ _ Hdt Hdd).
      rewrite <- Hnew.
      apply (in_map (fun r => Event.decryptRow P r masterKey)).
      unfold Event.select_range. cbn [events].
      apply (Permutation_in _ (Permutation_sym (merge_sort_Permutation _ _))).
      apply filter_In. split; [apply in_map, Hin|].
      rewrite Hnew. unfold Event.in_range. cbn [Events.start_time]. lia. }
    destruct Hfound as (found & Hfound & Hfin).
    eexists. exists found. split; [exact Hu|].
    split; [exact Hfound|]. split; [exact Hfin|]. split; [exact Hbusy|].
    intros Hs Hr Hq. destruct (Hidle Hs Hr Hq) as (H1 & H2 & H3 & H4 & H5).
    cbv zeta. split; [exact H1|]. split; [rewrite H2, Hd; reflexivity|exact H5].
  - intros Htable.
    assert (Hrun : db_run P UpdateEvent vs (StorageService.db s) = Throw SqlError)
      by (apply events_statement_no_table; [reflexivity|exact Htable]).
    destruct (refused_call P call UpdateEvent vs s SqlError startDate endDate masterKey
                Hi Htable Hrun) as (Href & H1 & H2 & H3).
    rewrite Href in Hu. eexists. split; [exact Hu|]. split; [exact H1|].
    split; [exact H2|exact H3].
Qed.

Lemma Event_findByDateRange_after_update_witness :
  let P := reference_platform in
  let s := StorageService.opened sample_events in
  let first_run :=
    StorageService.init P 0 true true true (StorageService.created None) in
  let updatedData :=
    {| EventData.id := Some (JStr (lit "a")); EventData.title := Some (JStr (lit "Moved"));
       EventData.description := Some (JStr []);
       EventData.startTime := Some (JNum 50);
       EventData.endTime := Some (JNum 60);
       EventData.isAllDay := Some (JBool true);
       EventData.calendarType := Some (JStr (lit "hijri"));
       EventData.rrule := None |} in
  let event :=
    {| Event.id := VText (lit "a"); Event.title := Some (lit "Moved");
       Event.description := Some []; Event.startTime := VInt 50;
       Event.endTime := VInt 60; Event.isAllDay := true;
       Event.calendarType := VText (lit "hijri"); Event.rrule := None |} in
  40 <= 50 <= 60 /\
  (StorageService.isInitialized s = true /\
   has_events (StorageService.db s) = true /\
   (exists row, In row (events (StorageService.db s)) /\ Events.id row = VText (lit "a")) /\
   exists s' found,
     Event.update P (lit "a") updatedData (Reference.key 7) Reference.entropy 1 s =
       (Ok tt, s') /\
     Event.findByDateRange P s' 40 60 (Reference.key 7) = Ok found /\
     In event found /\
     (StorageService.isSaving s = true ->
        StorageService.outcome_of 1 s' = Some (StorageService.Resolved false) /\
        StorageService.db_file s' = StorageService.db_file s) /\
     (StorageService.isSaving s = false -> StorageService.running s = [] ->
      StorageService.saveQueue s = false ->
        let done := StorageService.step P s' StorageService.TransactionComplete in
        StorageService.outcome_of 1 done = Some (StorageService.Resolved true) /\
        option_map StorageService.snap_db (StorageService.db_file done) =
          Some (StorageService.db s') /\
        StorageService.outcome_of 1
          (StorageService.step P s' StorageService.TransactionError) =
          Some (StorageService.Rejected WriteError))) /\
  (StorageService.isInitialized first_run = true /\
   has_events (StorageService.db first_run) = false /\
   exists s',
     Event.update P (lit "a") updatedData (Reference.key 7) Reference.entropy 1 first_run =
       (Throw SqlError, s') /\
     StorageService.db s' = StorageService.db first_run /\
     StorageService.outcome_of 1 s' = Some (StorageService.Rejected SqlError) /\
     Event.findByDateRange P s' 40 60 (Reference.key 7) = Throw SqlError).
Proof.
  assert (Hr : 40 <= 50 <= 60) by lia.
  assert (Hrow : exists row, In row (events sample_events) /\ Events.id row = VText (lit "a")).
  { exists (sample_event "a" 10). split; [right; left; reflexivity|reflexivity]. }
  split; [exact Hr|]. split.
  - split; [reflexivity|]. split; [reflexivity|]. split; [exact Hrow|].
    apply (proj1 (Event_findByDateRange_after_update reference_platform
                    (StorageService.opened sample_events) (Reference.key 7) (lit "a")
                    Reference.entropy 1 (lit "Moved") [] (lit "hijri") 50 60 true 40 60
                    eq_refl eq_refl eq_refl eq_refl eq_refl eq_refl eq_refl Hr));
      [reflexivity|exact Hrow].
  - split; [reflexivity|]. split; [reflexivity|].
    apply (proj2 (Event_findByDateRange_after_update reference_platform
                    (StorageService.init reference_platform 0 true true true
                       (StorageService.created None))
                    (Reference.key 7) (lit "a")
                    Reference.entropy 1 (lit "Moved") [] (lit "hijri") 50 60 true 40 60
                    eq_refl eq_refl eq_refl eq_refl eq_refl eq_refl eq_refl Hr));
      reflexivity.
Defined.

(** ** SettingsController: backup export *)

Section Backup.
Context (P : Platform).
Import SettingsController.

Lemma writes_head writes : forallb Datatypes.id writes = true ->
  hd true writes = true /\ forallb Datatypes.id (tl writes) = true.
Proof.
  destruct writes as [|b writes]; [split; reflexivity|]. cbn [forallb hd tl].
  intros H. apply andb_true_iff in H. exact H.
Qed.

Lemma execute_written sql params w d :
  ready w = true -> db_run P sql params (database w) = Ok d ->
  execute P sql params true w =
    (Ok tt, {| database := d; ready := ready w; storage := storage w;
               journal := journal w ++ [sql] |}).
Proof. intros Hr Hd. unfold execute. rewrite Hr, Hd. reflexivity. Qed.

End Backup.

(** X21.  How [exportData] ends on an initialised service.  Without a key
    it asks to unlock.  With a key, where the events table is not there,
    as in every database the application has created itself, the query of
    the events throws and the export ends in its failure alert: no file is
    handed over.  Where the table is there, the export fails with a
    RangeError when the JSON text of the backup is beyond the argument
    limit of [encrypt]; otherwise, the JSON text being a well-formed string
    that does not start with U+FEFF, it hands over for download a text
    that [decrypt] turns, under that same key, into the JSON text of the
    backup object (version 1, the time of export, the two credentials of
    [localStorage] and all stored notes and events), and under any other
    key into [null]. *)
Theorem exportData_ends (P : Platform) (key : CryptoKey P)
    (now : Z) (e : Entropy) (w : SettingsController.world) :
  let backup :=
    SettingsController.backupObject now
      (SettingsController.storage w !! "user_salt"%string)
      (SettingsController.storage w !! "verification_data"%string)
      (notes (SettingsController.database w)) (events (SettingsController.database w)) in
  SettingsController.ready w = true ->
  SettingsController.exportData P None now e w = SettingsController.AskedToUnlock /\
  (has_events (SettingsController.database w) = false ->
   SettingsController.exportData P (Some key) now e w =
     SettingsController.ExportFailed SqlError) /\
  (has_events (SettingsController.database w) = true ->
   CryptoService.fits P (JSON_stringify P backup) = false ->
   SettingsController.exportData P (Some key) now e w =
     SettingsController.ExportFailed RangeError) /\
  (has_events (SettingsController.database w) = true ->
   CryptoService.fits P (JSON_stringify P backup) = true ->
   isWellFormed (JSON_stringify P backup) = true ->
   has_bom (JSON_stringify P backup) = false ->
   exists file,
     SettingsController.exportData P (Some key) now e w =
       SettingsController.Downloaded file /\
     CryptoService.decrypt P file key = Some (JSON_stringify P backup) /\
     forall key', key' <> key -> CryptoService.decrypt P file key' = None).
Proof.
  intros backup Hr. split; [reflexivity|].
  unfold SettingsController.exportData, SettingsController.query.
  rewrite Hr. cbn [negb bind]. split; [|split].
  - intros Ht. rewrite Ht. reflexivity.
  - intros Ht Hfits. rewrite Ht. cbn [table_rows bind]. fold backup.
    rewrite (encrypt_over_limit P _ key e Hfits). reflexivity.
  - intros Ht Hfits Hwf Hbom. rewrite Ht. cbn [table_rows bind]. fold backup.
    destruct (decrypt_encrypt_wellformed P _ key e Hwf Hbom Hfits) as (file & Henc & Hdec).
    exists file. rewrite Henc.
    split; [reflexivity|]. split; [exact Hdec|].
    intros key' Hne.
    apply (decrypt_encrypt_other_key P (JSON_stringify P backup) key key' e file);
      [apply TextEncoder_encode_bytes, Hwf|exact Henc|congruence].
Qed.

(** The export on the database of a first run, and on one that has the
    three tables. *)
Lemma exportData_ends_witness :
  let P := reference_platform in
  let first_run :=
    {| SettingsController.database := empty_database; SettingsController.ready := true;
       SettingsController.storage := ∅; SettingsController.journal := [] |} in
  let w := {| SettingsController.database := sample_events; SettingsController.ready := true;
              SettingsController.storage := ∅; SettingsController.journal := [] |} in
  let backup :=
    SettingsController.backupObject 1000 None None [] (events sample_events) in
  (SettingsController.ready first_run = true /\
   has_events (SettingsController.database first_run) = false /\
   SettingsController.exportData P (Some (Reference.key 7)) 1000 Reference.entropy first_run =
     SettingsController.ExportFailed SqlError) /\
  (SettingsController.ready w = true /\
   has_events (SettingsController.database w) = true /\
   CryptoService.fits P (JSON_stringify P backup) = true /\
   isWellFormed (JSON_stringify P backup) = true /\
   has_bom (JSON_stringify P backup) = false /\
   exists file,
     SettingsController.exportData P (Some (Reference.key 7)) 1000 Reference.entropy w =
       SettingsController.Downloaded file /\
     CryptoService.decrypt P file (Reference.key 7) = Some (JSON_stringify P backup) /\
     forall key', key' <> Reference.key 7 -> CryptoService.decrypt P file key' = None).
Proof.
  split.
  - split; [reflexivity|]. split; [reflexivity|].
    apply (proj1 (proj2 (exportData_ends reference_platform (Reference.key 7) 1000
                           Reference.entropy
                           {| SettingsController.database := empty_database;
                              SettingsController.ready := true;
                              SettingsController.storage := ∅;
                              SettingsController.journal := [] |} eq_refl))).
    reflexivity.
  - split; [reflexivity|]. split; [reflexivity|]. split; [vm_compute; reflexivity|].
    split; [vm_compute; reflexivity|]. split; [vm_compute; reflexivity|].
    apply (proj2 (proj2 (proj2 (exportData_ends reference_platform (Reference.key 7) 1000
                           Reference.entropy
                           {| SettingsController.database := sample_events;
                              SettingsController.ready := true;
                              SettingsController.storage := ∅;
                              SettingsController.journal := [] |} eq_refl))));
      vm_compute; reflexivity.
Defined.

(** ** SettingsController: imports that fail after the deletion *)

(** X22.  No backup is restored on a database the application has created
    itself.  On a ready service whose database has no events table, when
    the file decrypts and parses, whatever the backup holds: [importData]
    runs DELETE FROM notes, so that the notes are gone from the instance,
    and ends in its failure alert, with the error of the engine for
    DELETE FROM events, or with the write error when the durable write of
    the first deletion failed; no row of the backup is inserted, and the
    settings and the stored credentials are as before. *)
Theorem import_fails_on_own_database (P : Platform) (file pin : list Z)
    (writes : list bool) (w : SettingsController.world) (backupData : json) :
  length pin = 4%nat ->
  SettingsController.ready w = true ->
  has_events (SettingsController.database w) = false ->
  SettingsController.read_backup P file pin w = Ok backupData ->
  exists w',
    SettingsController.importData P (Some file) pin true writes w =
      (SettingsController.Failed (if hd true writes then SqlError else WriteError), w') /\
    notes (SettingsController.database w') = [] /\
    events (SettingsController.database w') = events (SettingsController.database w) /\
    settings (SettingsController.database w') = settings (SettingsController.database w) /\
    SettingsController.storage w' = SettingsController.storage w /\
    SettingsController.journal w' = SettingsController.journal w ++ [DeleteAllNotes].
Proof.
  intros Hpin Hr Ht Hread.
  unfold SettingsController.importData. rewrite Hpin, Hread. cbn [Nat.eqb negb].
  unfold SettingsController.restore, SettingsController.clear_database.
  unfold SettingsController.execute at 1. rewrite Hr. cbn [negb].
  change (db_run P DeleteAllNotes [] (SettingsController.database w)) with
    (Ok {| notes := []; events := events (SettingsController.database w);
           settings := settings (SettingsController.database w);
           has_events := has_events (SettingsController.database w);
           has_settings := has_settings (SettingsController.database w) |}).
  destruct (hd true writes).
  - unfold SettingsController.execute.
    cbn [SettingsController.ready SettingsController.database negb].
    unfold db_run. cbn [table_exists has_events]. rewrite Ht. cbn [negb].
    eexists. split; [reflexivity|].
    cbn [SettingsController.database SettingsController.storage SettingsController.journal
         notes events settings].
    auto.
  - eexists. split; [reflexivity|].
    cbn [SettingsController.database SettingsController.storage SettingsController.journal
         notes events settings].
    auto.
Qed.

(** A file that holds the JSON text [null], imported on the database of a
    first run with one note in it. *)
Lemma import_fails_on_own_database_witness :
  let P := reference_platform in
  let w :=
    {| SettingsController.database :=
         {| notes := [damaged_note (lit "!")]; events := []; settings := [];
            has_events := false; has_settings := false |};
       SettingsController.ready := true;
       SettingsController.storage := <["user_salt"%string := lit "["]> ∅;
       SettingsController.journal := [] |} in
  let key := CryptoService.deriveKeyFromPIN P (lit "1234") [] in
  let file :=
    match CryptoService.encrypt P (lit "null") key Reference.entropy with
    | Ok text => text
    | Throw _ => []
    end in
  length (lit "1234") = 4%nat /\
  SettingsController.ready w = true /\
  has_events (SettingsController.database w) = false /\
  SettingsController.read_backup P file (lit "1234") w = Ok JNull /\
  exists w',
    SettingsController.importData P (Some file) (lit "1234") true [] w =
      (SettingsController.Failed SqlError, w') /\
    notes (SettingsController.database w') = [] /\
    events (SettingsController.database w') = events (SettingsController.database w) /\
    settings (SettingsController.database w') = settings (SettingsController.database w) /\
    SettingsController.storage w' = SettingsController.storage w /\
    SettingsController.journal w' = SettingsController.journal w ++ [DeleteAllNotes].
Proof.
  intros P w key file.
  assert (Hread : SettingsController.read_backup P file (lit "1234") w = Ok JNull)
    by (vm_compute; reflexivity).
  split; [reflexivity|]. split; [reflexivity|]. split; [reflexivity|].
  split; [exact Hread|].
  exact (import_fails_on_own_database P file (lit "1234") [] w JNull
           eq_refl eq_refl eq_refl Hread).
Defined.

(** X23.  An import erases data before it fails.  On a ready service whose
    durable writes succeed, when the file decrypts and parses: where the
    events table is not there, as in every database the application has
    created itself, [importData] runs DELETE FROM notes, is stopped by the
    engine at DELETE FROM events and ends in its failure alert with the
    notes gone, whatever the backup holds; where the table is there and
    the parsed value has no list of notes to go through (no [data], no
    [data.notes], or something that cannot be iterated, as for the JSON
    text [null]), it has by then run both DELETE statements and ends in
    the failure alert with the notes and the events tables empty.  The
    settings and the stored credentials are as before in both cases. *)
Theorem import_erases_before_it_fails (P : Platform) (file pin : list Z)
    (writes : list bool) (w : SettingsController.world) (backupData : json) :
  length pin = 4%nat ->
  SettingsController.ready w = true ->
  forallb Datatypes.id writes = true ->
  SettingsController.read_backup P file pin w = Ok backupData ->
  (has_events (SettingsController.database w) = false ->
   exists w',
     SettingsController.importData P (Some file) pin true writes w =
       (SettingsController.Failed SqlError, w') /\
     notes (SettingsController.database w') = [] /\
     events (SettingsController.database w') = events (SettingsController.database w) /\
     settings (SettingsController.database w') = settings (SettingsController.database w) /\
     SettingsController.storage w' = SettingsController.storage w /\
     SettingsController.journal w' = SettingsController.journal w ++ [DeleteAllNotes]) /\
  (has_events (SettingsController.database w) = true ->
   forall err, SettingsController.backup_rows backupData "notes" = Throw err ->
   exists w',
     SettingsController.importData P (Some file) pin true writes w =
       (SettingsController.Failed err, w') /\
     notes (SettingsController.database w') = [] /\
     events (SettingsController.database w') = [] /\
     settings (SettingsController.database w') = settings (SettingsController.database w) /\
     SettingsController.storage w' = SettingsController.storage w /\
     SettingsController.journal w' =
       SettingsController.journal w ++ [DeleteAllNotes; DeleteAllEvents]).
Proof.
  intros Hpin Hr Hw Hread.
  destruct (writes_head writes Hw) as [Hhd1 Htl1].
  destruct (writes_head (tl writes) Htl1) as [Hhd2 _].
  unfold SettingsController.importData. rewrite Hpin, Hread. cbn [Nat.eqb negb].
  unfold SettingsController.restore, SettingsController.clear_database. rewrite Hhd1.
  erewrite execute_written; [|exact Hr|reflexivity]. rewrite Hhd2.
  split.
  - intros Ht. unfold SettingsController.execute at 1.
    cbn [SettingsController.ready SettingsController.database]. rewrite Hr. cbn [negb].
    unfold db_run. cbn [table_exists has_events]. rewrite Ht. cbn [negb].
    eexists. split; [reflexivity|].
    cbn [SettingsController.database SettingsController.storage SettingsController.journal
         notes events settings].
    auto.
  - intros Ht err Hrows.
    erewrite execute_written; [|exact Hr|].
    2:{ unfold db_run. cbn [table_exists SettingsController.database has_events].
        rewrite Ht. reflexivity. }
    unfold SettingsController.insert_backup. rewrite Hrows.
    eexists. split; [reflexivity|].
    cbn [SettingsController.database SettingsController.storage SettingsController.journal
         notes events settings].
    rewrite <- app_assoc. auto.
Qed.

(** A file that holds the JSON text [null], imported on the database of a
    first run with one note in it, and on a database with the three
    tables. *)
Lemma import_erases_before_it_fails_witness :
  let P := reference_platform in
  let first_run :=
    {| SettingsController.database :=
         {| notes := [damaged_note (lit "!")]; events := []; settings := [];
            has_events := false; has_settings := false |};
       SettingsController.ready := true;
       SettingsController.storage := <["user_salt"%string := lit "["]> ∅;
       SettingsController.journal := [] |} in
  let w :=
    {| SettingsController.database := sample_events; SettingsController.ready := true;
       SettingsController.storage := <["user_salt"%string := lit "["]> ∅;
       SettingsController.journal := [] |} in
  let key := CryptoService.deriveKeyFromPIN P (lit "1234") [] in
  let file :=
    match CryptoService.encrypt P (lit "null") key Reference.entropy with
    | Ok text => text
    | Throw _ => []
    end in
  length (lit "1234") = 4%nat /\
  (SettingsController.ready first_run = true /\
   SettingsController.read_backup P file (lit "1234") first_run = Ok JNull /\
   has_events (SettingsController.database first_run) = false /\
   exists w',
     SettingsController.importData P (Some file) (lit "1234") true [] first_run =
       (SettingsController.Failed SqlError, w') /\
     notes (SettingsController.database w') = [] /\
     events (SettingsController.database w') =
       events (SettingsController.database first_run) /\
     settings (SettingsController.database w') =
       settings (SettingsController.database first_run) /\
     SettingsController.storage w' = SettingsController.storage first_run /\
     SettingsController.journal w' =
       SettingsController.journal first_run ++ [DeleteAllNotes]) /\
  (SettingsController.ready w = true /\
   SettingsController.read_backup P file (lit "1234") w = Ok JNull /\
   has_events (SettingsController.database w) = true /\
   SettingsController.backup_rows JNull "notes" = Throw TypeError /\
   exists w',
     SettingsController.importData P (Some file) (lit "1234") true [] w =
       (SettingsController.Failed TypeError, w') /\
     notes (SettingsController.database w') = [] /\
     events (SettingsController.database w') = [] /\
     settings (SettingsController.database w') = settings (SettingsController.database w) /\
     SettingsController.storage w' = SettingsController.storage w /\
     SettingsController.journal w' =
       SettingsController.journal w ++ [DeleteAllNotes; DeleteAllEvents]).
Proof.
  intros P first_run w key file.
  assert (Hread1 : SettingsController.read_backup P file (lit "1234") first_run = Ok JNull)
    by (vm_compute; reflexivity).
  assert (Hread2 : SettingsController.read_backup P file (lit "1234") w = Ok JNull)
    by (vm_compute; reflexivity).
  split; [reflexivity|]. split.
  - split; [reflexivity|]. split; [exact Hread1|]. split; [reflexivity|].
    apply (proj1 (import_erases_before_it_fails P file (lit "1234") [] first_run JNull
                    eq_refl eq_refl eq_refl Hread1)).
    reflexivity.
  - split; [reflexivity|]. split; [exact Hread2|]. split; [reflexivity|].
    split; [reflexivity|].
    apply (proj2 (import_erases_before_it_fails P file (lit "1234") [] w JNull
                    eq_refl eq_refl eq_refl Hread2));
      reflexivity.
Defined.

(** ** DateFormatter *)

Section Truncate.
Import DateFormatter.

(** No match of the tag pattern starts anywhere in the string. *)
Fixpoint tag_free (s : list Z) : bool :=
  match s with
  | [] => true
  | c :: t =>
      (if c =? 60 then match tag_length t with Some _ => false | None => true end
       else true) && tag_free t
  end.

Lemma tag_length_closing s : closing s = None -> tag_length s = None.
Proof. destruct s as [|c t]; [reflexivity|]. cbn [tag_length]. destruct (c =? 62); auto. Qed.

Lemma closing_tail c t : closing (c :: t) = None -> c <> 62 /\ closing t = None.
Proof.
  cbn [closing]. destruct (Z.eqb_spec c 62); [discriminate|].
  destruct (closing t); [discriminate|]. auto.
Qed.

Lemma closing_none_strip s : closing s = None -> strip 0 s = s.
Proof.
  induction s as [|c t IH]; [reflexivity|]. intros H.
  destruct (closing_tail c t H) as [Hc Ht]. cbn [strip].
  rewrite (tag_length_closing t Ht), (IH Ht). destruct (c =? 60); reflexivity.
Qed.

Lemma strip_skip s : forall k, strip k s = strip 0 (skipn k s).
Proof.
  induction s as [|c t IH]; intros [|k]; try reflexivity.
  cbn [strip skipn]. apply IH.
Qed.

Lemma closing_found l : In 62 l -> closing l <> None.
Proof.
  induction l as [|c t IH]; [intros []|]. intros [->|Hin]; cbn [closing].
  - discriminate.
  - destruct (c =? 62); [discriminate|]. destruct (closing t); [discriminate|].
    exfalso. apply (IH Hin). reflexivity.
Qed.

Lemma tag_free_strip_bounded n : forall s, (length s <= n)%nat -> tag_free (strip 0 s) = true.
Proof.
  induction n as [|n IH]; intros [|c t] Hlen; try reflexivity; cbn [length] in Hlen;
    [lia|].
  cbn [strip]. destruct (Z.eqb_spec c 60) as [->|Hc].
  - destruct (tag_length t) as [k|] eqn:Htag.
    + rewrite strip_skip. apply IH. rewrite length_skipn. lia.
    + cbn [tag_free]. rewrite (IH t) by lia. rewrite andb_true_r.
      cbn [Z.eqb Pos.eqb].
      destruct t as [|c' t']; [reflexivity|]. cbn [tag_length] in Htag.
      destruct (Z.eqb_spec c' 62) as [->|Hc'].
      * cbn [strip Z.eqb Pos.eqb tag_length]. reflexivity.
      * rewrite (closing_none_strip _ Htag). cbn [tag_length].
        destruct (Z.eqb_spec c' 62); [contradiction|]. rewrite Htag. reflexivity.
  - cbn [tag_free]. destruct (Z.eqb_spec c 60); [contradiction|]. apply IH. lia.
Qed.

Lemma tag_free_strip s : tag_free (strip 0 s) = true.
Proof. apply (tag_free_strip_bounded (length s)). lia. Qed.

Lemma closing_cut t : forall k,
  closing t = None -> closing (firstn k t ++ lit "...") = None.
Proof.
  induction t as [|c t IH]; intros k H.
  - rewrite firstn_nil. reflexivity.
  - destruct k as [|k]; [reflexivity|]. destruct (closing_tail c t H) as [Hc Ht].
    cbn [firstn app closing]. destruct (Z.eqb_spec c 62); [contradiction|].
    rewrite (IH k Ht). reflexivity.
Qed.

Lemma tag_length_cut t k :
  tag_length t = None -> tag_length (firstn k t ++ lit "...") = None.
Proof.
  destruct t as [|c t]; intros H.
  - rewrite firstn_nil. reflexivity.
  - destruct k as [|k]; [reflexivity|]. cbn [tag_length] in H.
    change (firstn (S k) (c :: t) ++ lit "...") with (c :: (firstn k t ++ lit "...")).
    cbn [tag_length]. destruct (Z.eqb_spec c 62); [reflexivity|].
    apply (closing_cut (c :: t) (S k) H).
Qed.

Lemma tag_free_cut s : forall k,
  tag_free s = true -> tag_free (firstn k s ++ lit "...") = true.
Proof.
  induction s as [|c t IH]; intros k H.
  - rewrite firstn_nil. reflexivity.
  - destruct k as [|k]; [reflexivity|].
    cbn [tag_free] in H. apply andb_true_iff in H as [Hc Ht].
    cbn [firstn app tag_free]. rewrite (IH k Ht), andb_true_r.
    destruct (c =? 60); [|reflexivity].
    destruct (tag_length t) eqn:Htag; [discriminate|].
    rewrite (tag_length_cut t k Htag). reflexivity.
Qed.

Lemma tag_free_truncate text n : tag_free (truncate text n) = true.
Proof.
  unfold truncate. destruct (falsy text); [reflexivity|].
  destruct (_ <=? n); [apply tag_free_strip|]. apply tag_free_cut, tag_free_strip.
Qed.

Lemma tag_free_spec s : tag_free s = true ->
  forall a tag b, s = a ++ 60 :: tag ++ 62 :: b -> tag = [] \/ In 62 tag.
Proof.
  intros H a. revert s H. induction a as [|x a IH]; intros s H tag b ->.
  - cbn [app tag_free Z.eqb Pos.eqb] in H. apply andb_true_iff in H as [H _].
    destruct tag as [|c tag]; [left; reflexivity|]. right.
    cbn [app tag_length] in H. destruct (Z.eqb_spec c 62) as [->|Hc]; [left; reflexivity|].
    destruct (closing (c :: tag ++ 62 :: b)) eqn:Hcl; [discriminate|].
    exfalso. apply (closing_found (c :: tag ++ 62 :: b)); [|exact Hcl].
    right. apply in_or_app. right. left. reflexivity.
  - cbn [app tag_free] in H. apply andb_true_iff in H as [_ H].
    exact (IH _ H tag b eq_refl).
Qed.

End Truncate.

(** X24.  The text [truncate] returns holds no HTML tag, cut or not: it
    has no [<] followed by one or more code units other than [>] and then
    [>].  Wherever the result reads [a <tag> b], the part between the
    brackets is empty or holds a [>] itself. *)
Theorem truncate_leaves_no_tag (text : option (list Z)) (length : Z) (a tag b : list Z) :
  DateFormatter.truncate text length = a ++ 60 :: tag ++ 62 :: b ->
  tag = [] \/ In 62 tag.
Proof.
  intros H. exact (tag_free_spec _ (tag_free_truncate text length) a tag b H).
Qed.

Lemma truncate_leaves_no_tag_witness :
  DateFormatter.truncate (Some (lit "<b>1 <> 2</b> and more")) 6 = lit "1 <> 2..." /\
  DateFormatter.truncate (Some (lit "<b>1 <> 2</b> and more")) 6 =
    lit "1 " ++ 60 :: [] ++ 62 :: lit " 2..." /\
  ([] = @nil Z \/ In 62 []).
Proof.
  split; [reflexivity|]. split; [reflexivity|].
  apply (truncate_leaves_no_tag (Some (lit "<b>1 <> 2</b> and more")) 6 (lit "1 ") []
           (lit " 2...")).
  reflexivity.
Defined.

(** X25.  [truncate] may return more than [length] code units: a text
    whose cleaned form is longer than [length] comes back as its first
    [length] code units (none for a negative [length]) followed by three
    dots, so the result is exactly [max(0, length) + 3] long; in every
    case the result is no longer than that. *)
Theorem truncate_length (text : option (list Z)) (length : Z) :
  let result := DateFormatter.truncate text length in
  Z.of_nat (List.length result) <= Z.max 0 length + 3 /\
  (falsy text = false ->
   length < Z.of_nat (List.length (DateFormatter.strip 0 (nullable_string text))) ->
   Z.of_nat (List.length result) = Z.max 0 length + 3 /\
   result = firstn (Z.to_nat length) (DateFormatter.strip 0 (nullable_string text))
              ++ lit "...").
Proof.
  intros result. subst result. unfold DateFormatter.truncate.
  destruct (falsy text).
  - split; [cbn; lia|discriminate].
  - destruct (Z.leb_spec (Z.of_nat (List.length (DateFormatter.strip 0 (nullable_string text))))
                length) as [Hle|Hgt].
    + split; [lia|]. intros _ H. lia.
    + assert (Hlen : Z.of_nat (List.length
                (firstn (Z.to_nat length) (DateFormatter.strip 0 (nullable_string text))
                   ++ lit "...")) = Z.max 0 length + 3).
      { rewrite length_app, length_firstn. cbn [lit List.length]. lia. }
      split; [lia|]. intros _ _. split; [exact Hlen|reflexivity].
Qed.
